(** * regview: a shallow embedding of regview.c

    The program reads a Windows registry hive, validates its header, scans
    for the root [nk] cell and prints the key tree.  The embedding follows
    the C source function by function.

    Conventions.
    - A byte is a [Z] in [0, 256); the hive file is a [list Z].
    - The C integer types are those of an LP64 little-endian target:
      [short] is 16 bits, [int]/[int32_t]/[unsigned] are 32 bits,
      [size_t] and [uint64_t] are 64 bits.  Values are kept in [Z] and every
      wrap-around the C code performs is written out.
    - [fread] is modelled on the file list: it delivers the bytes that exist
      and moves the cursor by as many.  What a destination holds where no
      byte arrived is stated at each use: a variable that was assigned before
      keeps its old bytes; memory that was not assigned has contents that
      the source does not determine, and these are parameters of the
      embedding ([stale] for the walk, [fresh] for the search of the root). *)

From Stdlib Require Import String Ascii ZArith List Bool Lia Permutation.
Import ListNotations.
Local Open Scope list_scope.
Local Open Scope Z_scope.

(** ** Bytes, integers and the file *)

Definition file := list Z.

Definition byte_at (buf : list Z) (i : Z) : Z := nth (Z.to_nat i) buf 0.

(** Little-endian value of a byte string. *)
Fixpoint le_value (bs : list Z) : Z :=
  match bs with
  | [] => 0
  | b :: rest => b + 256 * le_value rest
  end.

Definition slice (buf : list Z) (off n : Z) : list Z :=
  firstn (Z.to_nat n) (skipn (Z.to_nat off) buf).

(** A field of [n] bytes at byte offset [off]; bytes that lie behind the end
    of [buf] read as 0. *)
Definition field (buf : list Z) (off : Z) (n : nat) : list Z :=
  map (fun k => byte_at buf (off + Z.of_nat k)) (seq 0 n).

Definition u16_at (buf : list Z) (off : Z) : Z := le_value (field buf off 2).
Definition u32_at (buf : list Z) (off : Z) : Z := le_value (field buf off 4).

(** Reinterpretation of a [w]-bit pattern as a signed integer. *)
Definition to_signed (w : Z) (x : Z) : Z :=
  let m := x mod 2 ^ w in
  if m <? 2 ^ (w - 1) then m else m - 2 ^ w.

Definition i16_at (buf : list Z) (off : Z) : Z := to_signed 16 (u16_at buf off).
Definition i32_at (buf : list Z) (off : Z) : Z := to_signed 32 (u32_at buf off).

(** The four bytes of a 32-bit object holding [x]. *)
Definition bytes_of_u32 (x : Z) : list Z :=
  let m := x mod 2 ^ 32 in
  [m mod 256; (m / 256) mod 256; (m / 65536) mod 256; (m / 16777216) mod 256].

(** [fread f pos n]: the bytes a read of [n] bytes at position [pos]
    delivers; fewer than [n] when the file ends first. *)
Definition fread (f : file) (pos n : Z) : list Z := slice f pos n.

(** What a destination holds after a read delivered [got]: the new bytes
    in front, the destination's previous bytes behind them. *)
Definition overlay (got old : list Z) : list Z :=
  got ++ skipn (length got) old.

(** [strncmp(p, lit, n) == 0] for a literal [lit] of [n] characters, none of
    them NUL: all [n] bytes agree. *)
Definition bytes_of_string (s : string) : list Z :=
  map (fun c => Z.of_nat (nat_of_ascii c)) (list_ascii_of_string s).

Definition tag_is (buf : list Z) (off : Z) (lit : string) : bool :=
  let want := bytes_of_string lit in
  forallb (fun p => fst p =? snd p)
          (combine (field buf off (length want)) want).

(** ** Offsets and timestamps *)

(** [uint32_t convOff(unsigned int off) { return off + 0x1000 + 4; }] *)
Definition convOff (off : Z) : Z := (off + 0x1000 + 4) mod 2 ^ 32.

Definition WINDOWS_TICK : Z := 10000000.
Definition SEC_TO_UNIX_EPOCH : Z := 11644473600.

(** [return (unsigned)(windowsTicks / WINDOWS_TICK - SEC_TO_UNIX_EPOCH);]
    The division is on [uint64_t]; the subtraction is carried out in the
    64-bit unsigned type and the cast keeps the low 32 bits. *)
Definition WindowsTickToUnixSeconds (windowsTicks : Z) : Z :=
  ((windowsTicks / WINDOWS_TICK - SEC_TO_UNIX_EPOCH) mod 2 ^ 64) mod 2 ^ 32.

(** [printNTTime]: the tick count assembled from the two halves of a
    [FILETIME] stored at [off], and the [time_t] handed to [ctime]. *)
Definition filetime_ticks (buf : list Z) (off : Z) : Z :=
  Z.lor (Z.shiftl (u32_at buf (off + 4)) 32) (u32_at buf off).

Definition printNTTime_seconds (buf : list Z) (off : Z) : Z :=
  WindowsTickToUnixSeconds (filetime_ticks buf off).

(** ** Header validation *)

(** [sizeof(HiveHeader)]: 4 + 4 + 4 + 8 + 16 + 4 + 4 + 4 + 0x1cc + 4. *)
Definition sizeof_HiveHeader : Z := 512.

(** The words the loop of [validHeader] folds into [cksum]:
    [for (i = 0; i < sizeof(HiveHeader)-4; i += 4) { cksum ^= *cur; cur++; }] *)
Definition header_words (hdr : list Z) : list Z :=
  map (fun k => u32_at hdr (4 * Z.of_nat k))
      (seq 0 (Z.to_nat ((sizeof_HiveHeader - 4) / 4))).

Definition header_cksum (hdr : list Z) : Z :=
  fold_left Z.lxor (header_words hdr) 0.

(** [hdr->checksum], the last word of the structure. *)
Definition header_checksum_field (hdr : list Z) : Z :=
  u32_at hdr (sizeof_HiveHeader - 4).

(** [validHeader]: the text printed and the value returned. *)
Definition validHeader (hdr : list Z) : list string * Z :=
  if negb (tag_is hdr 0 "regf") then (["Invalid header."%string], 0)
  else if negb (header_cksum hdr =? header_checksum_field hdr)
       then (["Bad checksum."%string], 0)
       else ([], 1).

(** ** Program outcomes

    The program prints to standard output and either returns or leaves
    through one of its [exit] calls.  A run is the list of things printed,
    in order, and the way the run ended. *)

(** The [exit] calls of the source. *)
Inductive exit_site : Type :=
| ExitNameAlloc        (* printNKName: [if (!nkName) exit(1);] *)
| ExitNegCount         (* line 159: [if(lh.num_entries < 0) exit(1);] *)
| ExitListAlloc        (* [if (!hashes) exit(1);] and its siblings *)
| ExitChildAlloc0      (* line 190: [if (!next) exit(0);] *)
| ExitChildAlloc       (* lines 251, 285: [if (!next) exit(1);] *)
| ExitShortRead        (* [if (nread < n) { ...; exit(1); }] *)
| ExitUnknownSubentry  (* line 306 *)
| ExitUnknownSubkey    (* line 313 *)
| ExitBadHeader        (* line 363 *)
| ExitCellSize         (* line 394 *)
| ExitBufAlloc.        (* line 396 *)

Definition exit_code (s : exit_site) : Z :=
  match s with
  | ExitChildAlloc0 => 0
  | _ => 1
  end.

Inductive status : Type :=
| Returned                 (* the function returned to its caller *)
| Exited (s : exit_site)   (* the process left through [exit] *)
| Crashed                  (* a null pointer was dereferenced: the process
                              is killed *)
| OutOfFuel.               (* the model's recursion budget ran out *)

Inductive event : Type :=
| KeyLine (tabs : Z) (name : list Z)  (* printNKName: blanks, name, newline *)
| Blanks (tabs : Z)                   (* printNKName left after the blanks *)
| PrintWarn (subkeys entries : Z)     (* "WARN: number of subkeys does not match" *)
| PrintTime (unix_time : Z)           (* printNTTime: [ctime] of this [time_t] *)
| PrintText (s : string).

Definition run : Type := list event * status.

Definition emit (e : event) : run := ([e], Returned).
Definition stop (s : status) : run := ([], s).
Definition skip : run := ([], Returned).

(** Sequencing: the second part runs only when the first returned. *)
Definition then_ (a b : run) : run :=
  match snd a with
  | Returned => (fst a ++ fst b, snd b)
  | _ => a
  end.

Notation "a ;; b" := (then_ a b) (at level 61, right associativity).

(** A [for] loop over the entries of an array that was read. *)
Fixpoint for_each (body : Z -> run) (entries : list Z) : run :=
  match entries with
  | [] => skip
  | e :: rest => body e ;; for_each body rest
  end.

(** ** The [nk] cell, seen through a pointer to its bytes *)

Definition NK_ROOT : Z := 0x2c.
Definition NK_NODE : Z := 0x20.
Definition NK_LINK : Z := 0x10.

Definition sizeof_NK : Z := 80.
Definition sizeof_LH : Z := 4.
Definition sizeof_HashRec : Z := 8.
Definition sizeof_uint32 : Z := 4.

(** The fields of [struct nk_cell] at their byte offsets: [signature] 0,
    [type] 2, [modified] 4, [u1] 12, [parent] 16, [num_subkeys] 20, [u2] 24,
    [subkeys] 28, [u3] 32, [num_values] 36, [values] 40, [security] 44,
    [classname] 48, [u4] 52, [name_len] 72, [classname_len] 74, [name] 76;
    with the padding behind [name[1]] the size is 80. *)
Definition nk_type (nk : list Z) : Z := i16_at nk 2.
Definition nk_parent (nk : list Z) : Z := u32_at nk 16.
Definition nk_num_subkeys (nk : list Z) : Z := i32_at nk 20.
Definition nk_subkeys (nk : list Z) : Z := u32_at nk 28.
Definition nk_num_values (nk : list Z) : Z := i32_at nk 36.
Definition nk_values (nk : list Z) : Z := u32_at nk 40.
Definition nk_security (nk : list Z) : Z := u32_at nk 44.
Definition nk_name_len (nk : list Z) : Z := u16_at nk 72.

Definition lh_num_entries (lh : list Z) : Z := i16_at lh 2.

(** The characters of a C string stored in [bs]: up to the first NUL. *)
Fixpoint c_string (bs : list Z) : list Z :=
  match bs with
  | [] => []
  | b :: rest => if b =? 0 then [] else b :: c_string rest
  end.

(** [strncpy(nkName, nodeKey->name, nodeKey->name_len); nkName[name_len] = 0]
    and what [printf("%s")] shows of it. *)
Definition shown_name (nk : list Z) : list Z :=
  c_string (field nk 76 (Z.to_nat (nk_name_len nk))).

Section Walker.

(** Whether [malloc] (or [realloc]) grants a request of the given size. *)
Variable malloc_ok : Z -> bool.
(** The contents of the open file [regf]. *)
Variable f : file.
(** What the memory that receives the record read at file position [pos]
    holds before the read: the bytes of the variable [lh] or [lh2], or of
    the block that [malloc] and [realloc] return for [next].  The source
    tests no [fread] of a record, so that these bytes stay where the file
    ends before the record does.  They are taken to be the same each time
    the same position is read. *)
Variable stale : Z -> list Z.

Definition flen : Z := Z.of_nat (List.length f).

(** [printNKName(nodeKey, tabs)] *)
Definition printNKName (nodeKey : list Z) (tabs : Z) : run :=
  if malloc_ok (nk_name_len nodeKey + 1)
  then emit (KeyLine tabs (shown_name nodeKey))
  else ([Blanks tabs], Exited ExitNameAlloc).

(** [fseek(regf, pos, SEEK_SET); fread(&lh, sizeof(LH), 1, regf);] with the
    result of [fread] ignored: the four bytes of [lh] afterwards, those
    that the file delivered in front of those that were there before. *)
Definition read_LH (pos : Z) : list Z :=
  firstn (Z.to_nat sizeof_LH) (overlay (fread f pos sizeof_LH) (stale pos)).

(** [nread = fread(array, size, n, regf)] at position [pos], where the
    [short] count [n] is converted to [size_t] and the result to [int]:
    the number of whole elements delivered. *)
Definition nread (pos size n : Z) : Z :=
  to_signed 32 (Z.min (Z.max 0 (flen - pos) / size) (n mod 2 ^ 64)).

(** The offsets [array[i].offset] (or [array[i]]) for [0 <= i < n], for an
    array of [stride]-byte elements read at [pos]; the loops over it run
    [for(int i = 0; i < n; i++)]. *)
Definition entry_offsets (pos stride n : Z) : list Z :=
  map (fun k => u32_at f (pos + stride * Z.of_nat k)) (seq 0 (Z.to_nat n)).

(** Lines 193-200 (and 254-261, 288-295): the [nk] cell at [off], read
    twice because its size depends on [name_len].  Neither [fread] nor
    [realloc] is checked:
    [fread(next, sizeof(NK), 1, regf);] leaves in [first] what the file
    delivered and, behind it, what the block held;
    [full_nk_size = sizeof(NK) + next->name_len - 1] is computed from that;
    [next = realloc(next, full_nk_size)] is [None] when the request is
    refused; the second [fread] again overwrites as many of the
    [full_nk_size] bytes as the file delivers. *)
Definition read_nk (off : Z) : option (list Z) :=
  let pos := convOff off in
  let first := overlay (fread f pos sizeof_NK) (stale pos) in
  let full_nk_size := sizeof_NK + nk_name_len first - 1 in
  if negb (malloc_ok full_nk_size) then None
  else Some (firstn (Z.to_nat full_nk_size)
                    (overlay (fread f pos full_nk_size) first)).

(** One turn of a loop over child offsets: allocate, read, recurse.  After
    a refused [realloc] the pointer [next] is null, and [fread] and
    [printNKName] go through it. *)
Definition visit (alloc_exit : exit_site) (rec : list Z -> Z -> run)
           (level : Z) (off : Z) : run :=
  if negb (malloc_ok sizeof_NK) then stop (Exited alloc_exit)
  else match read_nk off with
       | None => stop Crashed
       | Some next => rec next (level + 1)
       end.

Definition short_read : run :=
  emit (PrintText "Unexpected EOF while reading file.") ;;
  stop (Exited ExitShortRead).

(** Allocation and read of an array of [n] elements of [stride] bytes at
    [pos], then [body] on each element's offset.  This is the shape of
    lines 165-205, 210-222, 231-266 and 270-300.  The array is read where
    the read of the record header left the cursor: [sizeof(LH)] bytes
    behind the header's position, or at the end of the file when the header
    was cut short; in both places a file that ends inside the header
    delivers no element, so that [nread] is the same. *)
Definition list_loop (stride : Z) (pos n : Z) (body : Z -> run) : run :=
  if negb (malloc_ok ((n * stride) mod 2 ^ 64)) then stop (Exited ExitListAlloc)
  else if nread pos stride n <? n then short_read
  else for_each body (entry_offsets pos stride n).

(** Lines 223-307: one entry of an [ri] record. *)
Definition ri_entry (rec : list Z -> Z -> run) (level : Z) (off : Z) : run :=
  let pos := convOff off in
  let lh2 := read_LH pos in
  if tag_is lh2 0 "lh" || tag_is lh2 0 "lf" then
    list_loop sizeof_HashRec (pos + sizeof_LH) (lh_num_entries lh2)
              (visit ExitChildAlloc rec level)
  else if tag_is lh2 0 "li" then
    list_loop sizeof_uint32 (pos + sizeof_LH) (lh_num_entries lh2)
              (visit ExitChildAlloc rec level)
  else
    emit (PrintText "Fatal: encountered unknown subentry of ri list") ;;
    stop (Exited ExitUnknownSubentry).

Definition is_leaf (root : list Z) : bool :=
  (nk_num_subkeys root =? 0) || (nk_subkeys root =? 0)
  || (nk_subkeys root =? 0xFFFFFFFF).

(** The body of [printSubTree(root, regf, level)], its recursive calls
    made through [rec]. *)
Definition subtree_body (rec : list Z -> Z -> run)
           (root : list Z) (level : Z) : run :=
  printNKName root level ;;
  if is_leaf root then skip
  else
    let pos := convOff (nk_subkeys root) in
    let lh := read_LH pos in
    let n := lh_num_entries lh in
    if tag_is lh 0 "lh" || tag_is lh 0 "lf" then
      if n <? 0 then stop (Exited ExitNegCount)
      else
        (if negb (nk_num_subkeys root =? n)
         then emit (PrintWarn (nk_num_subkeys root) n) else skip) ;;
        list_loop sizeof_HashRec (pos + sizeof_LH) n
                  (visit ExitChildAlloc0 rec level)
    else if tag_is lh 0 "ri" then
      list_loop sizeof_uint32 (pos + sizeof_LH) n (ri_entry rec level)
    else
      emit (PrintText "Fatal: encountered unknown subkey type") ;;
      stop (Exited ExitUnknownSubkey).

(** [printSubTree] with a bound on the depth of the recursion. *)
Fixpoint printSubTree (fuel : nat) (root : list Z) (level : Z) : run :=
  match fuel with
  | O => stop OutOfFuel
  | S fuel' => subtree_body (printSubTree fuel') root level
  end.

End Walker.

(** ** The search for the root cell (the [while(1)] loop of [main]) *)

Definition sizeof_BlockHeader : Z := 32.

(** [int32_t cell_size_real = (-1*cell_size) - sizeof(int);]
    The product is an [int] (two's complement wrap-around for [INT_MIN]),
    the difference is computed in [size_t], the result is stored in an
    [int32_t]. *)
Definition cell_size_real (cell_size : Z) : Z :=
  to_signed 32 ((to_signed 32 (-1 * cell_size) mod 2 ^ 64 - 4) mod 2 ^ 64).

(** [if (cell_size_real < 0 || cell_size_real > 0x1000) exit(1);] *)
Definition size_rejected (real : Z) : bool := (real <? 0) || (real >? 0x1000).

(** The local variables of [main] that live across turns of the loop, and
    the position of the cursor of [regf]. *)
Record scan_state : Type := mk_scan
  { sc_pos : Z;             (* ftell(regf) *)
    sc_bh : list Z;         (* the bytes of [bh] *)
    sc_cell_size : Z }.     (* [cell_size] *)

Inductive scan_result : Type :=
| Continue (st : scan_state)        (* the loop goes into its next turn *)
| Found (root : list Z) (pos : Z)   (* [break] with [root] pointing at [buf] *)
| Fatal (s : exit_site).

Section RootScan.

Variable malloc_ok : Z -> bool.
Variable f : file.
(** What the memory returned by the [malloc] of the [k]-th turn holds
    before anything is read into it (and what lies behind it). *)
Variable fresh : nat -> list Z.

(** Lines 379-385: at a page boundary, read a block header and seek back
    when it is not one. *)
Definition skip_hbin (pos : Z) (bh : list Z) : Z * list Z :=
  if pos mod 0x1000 =? 0 then
    let pos32 := to_signed 32 pos in          (* int32_t pos = ftell(regf) *)
    let got := fread f pos sizeof_BlockHeader in
    let bh' := overlay got bh in
    let after := pos + Z.of_nat (List.length got) in
    if negb (tag_is bh' 0 "hbin")
    then (if pos32 <? 0 then after else pos32, bh')
    else (after, bh')
  else (pos, bh).

(** Line 387, [fread(&cell_size, sizeof(int), 1, regf);] with the cursor
    at [pos]: the value [cell_size] holds afterwards (its previous bytes
    stay where no byte arrived) and the new position. *)
Definition read_cell_size (pos : Z) (old : Z) : Z * Z :=
  let got := fread f pos 4 in
  (i32_at (overlay got (bytes_of_u32 old)) 0,
   pos + Z.of_nat (List.length got)).

(** The stored length that the turn starting in [st] works with. *)
Definition stored_length (st : scan_state) : Z :=
  fst (read_cell_size (fst (skip_hbin (sc_pos st) (sc_bh st)))
                      (sc_cell_size st)).

(** One turn of the loop, lines 376-406. *)
Definition scan_step (k : nat) (st : scan_state) : scan_result :=
  let (pos1, bh1) := skip_hbin (sc_pos st) (sc_bh st) in
  let (cell_size, pos2) := read_cell_size pos1 (sc_cell_size st) in
  let real := cell_size_real cell_size in
  if size_rejected real then Fatal ExitCellSize
  else if negb (malloc_ok real) then Fatal ExitBufAlloc
  else
    let got := fread f pos2 real in
    let buf := overlay got (fresh k) in
    let pos3 := pos2 + Z.of_nat (List.length got) in
    if tag_is buf 0 "nk" && (nk_type buf =? NK_ROOT)
    then Found buf pos3
    else Continue (mk_scan pos3 bh1 cell_size).

(** [fuel] turns of the loop, starting with turn number [k]. *)
Fixpoint find_root (fuel : nat) (k : nat) (st : scan_state) : scan_result :=
  match fuel with
  | O => Continue st
  | S fuel' =>
      match scan_step k st with
      | Continue st' => find_root fuel' (S k) st'
      | r => r
      end
  end.

(** Lines 367-373: the state in which the loop is entered; [bh0] is what
    the variable [bh] held before the read at 0x1000. *)
Definition scan_start (bh0 : list Z) : scan_state :=
  let got := fread f 0x1000 sizeof_BlockHeader in
  mk_scan (0x1000 + Z.of_nat (List.length got)) (overlay got bh0) (-1).

End RootScan.

(** ** The program *)

Section Main.

Variable malloc_ok : Z -> bool.
Variable f : file.
Variable stale : Z -> list Z.
Variable fresh : nat -> list Z.
(** What the variables [hdr] and [bh] of [main] hold before they are read
    into. *)
Variable hdr0 : list Z.
Variable bh0 : list Z.

(** [main] from line 359 on, for a file that could be opened: header
    check, search for the root cell, walk.  [scan_fuel] bounds the turns
    of the search loop, [walk_fuel] the depth of the walk. *)
Definition main (scan_fuel walk_fuel : nat) : run :=
  let hdr := overlay (fread f 0 sizeof_HiveHeader) hdr0 in
  let (text, valid) := validHeader hdr in
  if valid =? 0 then
    (map PrintText text
       ++ [PrintText "Registry file failed basic validation."],
     Exited ExitBadHeader)
  else
    emit (PrintTime (printNTTime_seconds hdr 12)) ;;
    match find_root malloc_ok f fresh scan_fuel 0 (scan_start f bh0) with
    | Found root _ => printSubTree malloc_ok f stale walk_fuel root 0
    | Fatal s => stop (Exited s)
    | Continue _ => stop OutOfFuel
    end.

End Main.


(** ** Vocabulary for the header *)

(** A [HiveHeader] as [main] hands it to [validHeader]: 512 bytes. *)
Definition header_bytes (hdr : list Z) : Prop :=
  List.length hdr = 512%nat /\ Forall (fun b => 0 <= b < 256) hdr.

(** The XOR of the 4-byte little-endian words of a byte string, in the words
    of the format description. *)
Fixpoint xor_words (bs : list Z) : Z :=
  match bs with
  | b0 :: b1 :: b2 :: b3 :: rest =>
      Z.lxor (le_value [b0; b1; b2; b3]) (xor_words rest)
  | _ => 0
  end.

(** [hdr] with bit number [p] inverted: bit [p mod 8] of byte [p / 8]. *)
Definition flip_bit (hdr : list Z) (p : Z) : list Z :=
  map (fun k => if Z.of_nat k =? p / 8
                then Z.lxor (nth k hdr 0) (2 ^ (p mod 8))
                else nth k hdr 0)
      (seq 0 (List.length hdr)).


(** ** Hives built for the examples *)

Module Fixtures.

Fixpoint le_bytes (n : nat) (x : Z) : list Z :=
  match n with
  | O => []
  | S n' => x mod 256 :: le_bytes n' (x / 256)
  end.

Definition zeros (n : nat) : list Z := repeat 0 n.

(** The 76 fixed bytes of an [nk] record followed by its name. *)
Definition mk_nk (type num_subkeys subkeys : Z) (name : string) : list Z :=
  bytes_of_string "nk" ++ le_bytes 2 type ++ zeros 16
  ++ le_bytes 4 num_subkeys ++ zeros 4 ++ le_bytes 4 subkeys ++ zeros 4
  ++ zeros 4 ++ le_bytes 4 0xFFFFFFFF ++ zeros 4 ++ le_bytes 4 0xFFFFFFFF
  ++ zeros 20
  ++ le_bytes 2 (Z.of_nat (String.length name)) ++ zeros 2
  ++ bytes_of_string name.

Definition mk_hash_list (sig : string) (n : Z) (offsets : list Z) : list Z :=
  bytes_of_string sig ++ le_bytes 2 n
  ++ flat_map (fun o => le_bytes 4 o ++ zeros 4) offsets.

Definition mk_offset_list (sig : string) (n : Z) (offsets : list Z) : list Z :=
  bytes_of_string sig ++ le_bytes 2 n ++ flat_map (le_bytes 4) offsets.

(** An allocated cell: the negated size in front of the contents. *)
Definition cell (contents : list Z) : list Z :=
  le_bytes 4 (- (Z.of_nat (List.length contents) + 4)) ++ contents.

Definition hbin : list Z := bytes_of_string "hbin" ++ zeros 28.

(** A header with the signature, two update counters of 1, zero padding and
    the checksum that belongs to them. *)
Definition example_header : list Z :=
  let front := bytes_of_string "regf" ++ le_bytes 4 1 ++ le_bytes 4 1
               ++ zeros 496 in
  front ++ le_bytes 4 (xor_words front).

(** A header page that passes validation, a block header and the cells;
    relative offset 0x20 is the first cell. *)
Definition hive (cells : list (list Z)) (tail : nat) : file :=
  example_header ++ zeros 3584 ++ hbin ++ concat (map cell cells) ++ zeros tail.

(** Relative offset of the [i]-th cell. *)
Definition cell_off (cells : list (list Z)) (i : nat) : Z :=
  0x20 + Z.of_nat (List.length (concat (map cell (firstn i cells)))).

Definition generous (n : Z) : bool := true.
(** Memory that holds nothing: what no read fills reads as 0. *)
Definition blank (pos : Z) : list Z := [].
(** An allocator that refuses what no 64-bit address space can hold. *)
Definition bounded (n : Z) : bool := n <=? 2 ^ 63 - 1.

End Fixtures.


(** ** Vocabulary of the statements *)

(** The array of [n] elements of [stride] bytes at [pos] lies inside the
    file, so that the read delivers it whole; [n] is a non-negative
    [short]. *)
Definition array_present (f : file) (pos stride n : Z) : Prop :=
  0 <= n < 2 ^ 15 /\ 0 < stride /\ pos + n * stride <= flen f.

Definition is_warn (e : event) : bool :=
  match e with PrintWarn _ _ => true | _ => false end.

Definition is_key_line (e : event) : bool :=
  match e with KeyLine _ _ => true | _ => false end.

(** The mismatch warnings and the key lines of an output. *)
Definition warnings (t : list event) : list event := filter is_warn t.
Definition key_lines (t : list event) : list event := filter is_key_line t.

(** A hive with a header page, a block header and one allocated cell holding
    the four bytes "abcd"; it contains no [nk] cell at all. *)
Definition rootless_hive : file :=
  Fixtures.hive [ bytes_of_string "abcd" ] 0.

(** ** Example hives *)

Module Hives.
Import Fixtures.

Definition leaf_A : list Z := mk_nk NK_NODE 0 0xFFFFFFFF "A".
Definition leaf_Bee : list Z := mk_nk NK_NODE 0 0xFFFFFFFF "Bee".

(** A root followed by its index at relative offset 0x74; [declared] is the
    subkey count the root declares. *)
Definition root_key (declared : Z) : list Z := mk_nk NK_ROOT declared 0x74 "ROOT".

(** Root, hash list of two entries, the two leaves the entries point to. *)
Definition tree_hive (declared : Z) : file :=
  hive [ root_key declared; mk_hash_list "lh" 2 [0x8c; 0xdd];
         leaf_A; leaf_Bee ] 16.

(** Root, [ri] record of two entries, an [lf] list with the leaf "A" and an
    [li] list with the leaf "Bee". *)
Definition ri_hive (declared : Z) : file :=
  hive [ root_key declared; mk_offset_list "ri" 2 [0x84; 0x94];
         mk_hash_list "lf" 1 [0xa0]; mk_offset_list "li" 1 [0xf1];
         leaf_A; leaf_Bee ] 16.

(** A root whose hash list has one entry, the root itself. *)
Definition cyclic_hive : file :=
  hive [ root_key 1; mk_hash_list "lf" 1 [0x20] ] 16.

(** A root whose index, of kind [sig], declares -1 entries. *)
Definition negative_index_hive (sig : string) : file :=
  hive [ root_key 1; mk_offset_list sig (-1) [] ] 16.

(** A root whose [ri] record has one entry, a list of kind [sig] that
    declares -1 entries. *)
Definition negative_sublist_hive (sig : string) : file :=
  hive [ root_key 1; mk_offset_list "ri" 1 [0x80];
         mk_offset_list sig (-1) [] ] 16.

(** The key that the walker reads at relative offset [off]. *)
Definition key_at (f : file) (off : Z) : list Z :=
  match read_nk generous f blank off with
  | Some nk => nk
  | None => []
  end.

(** A chain of three keys: the root lists "A", which lists "Bee". *)
Definition deep_hive : file :=
  hive [ root_key 1; mk_hash_list "lh" 1 [0x84];
         mk_nk NK_NODE 1 0xd5 "A"; mk_hash_list "lf" 1 [0xe5];
         leaf_Bee ] 16.

(** A root with the subkeys "A" and "C", in this order in its hash list;
    "A" has the subkey "Bee". *)
Definition branch_hive : file :=
  hive [ root_key 2; mk_hash_list "lh" 2 [0x8c; 0x140];
         mk_nk NK_NODE 1 0xdd "A"; mk_hash_list "lf" 1 [0xed];
         leaf_Bee; mk_nk NK_NODE 0 0xFFFFFFFF "C" ] 16.

(** A root whose hash list has one entry, the key "Kxy" in the last cell;
    the key's index is the hash list again, and the file ends with the
    79 bytes of the key, one byte before the end of a [struct nk_cell]. *)
Definition short_tail_hive : file :=
  hive [ root_key 1; mk_hash_list "lh" 1 [0x84];
         mk_nk NK_NODE 1 0x74 "Kxy" ] 0.

(** A visitor that prints the line of the key it is given and returns. *)
Definition print_line (nk : list Z) (level : Z) : run :=
  emit (KeyLine level (shown_name nk)).

End Hives.

(** ** Vocabulary for termination *)

Section Reach.

Variable malloc_ok : Z -> bool.
Variable f : file.
Variable stale : Z -> list Z.

(** The offsets stored in a list record [lh2] found at position [pos]:
    those of an [lh]/[lf] or [li] list, none for any other record. *)
Definition sublist_offsets (off : Z) : list Z :=
  let pos := convOff off in
  let lh2 := read_LH f stale pos in
  if tag_is lh2 0 "lh" || tag_is lh2 0 "lf" then
    entry_offsets f (pos + sizeof_LH) sizeof_HashRec (lh_num_entries lh2)
  else if tag_is lh2 0 "li" then
    entry_offsets f (pos + sizeof_LH) sizeof_uint32 (lh_num_entries lh2)
  else [].

(** The offsets of the keys that the index of [root] lists as its
    children, directly or through an [ri] record. *)
Definition subkey_offsets (root : list Z) : list Z :=
  if is_leaf root then []
  else
    let pos := convOff (nk_subkeys root) in
    let lh := read_LH f stale pos in
    if tag_is lh 0 "lh" || tag_is lh 0 "lf" then
      entry_offsets f (pos + sizeof_LH) sizeof_HashRec (lh_num_entries lh)
    else if tag_is lh 0 "ri" then
      flat_map sublist_offsets
               (entry_offsets f (pos + sizeof_LH) sizeof_uint32
                              (lh_num_entries lh))
    else [].

(** [child root kid]: the index of [root] lists an offset at which the
    walker reads the key [kid], in full or cut short by the end of the
    file. *)
Definition child (root kid : list Z) : Prop :=
  exists off,
    In off (subkey_offsets root) /\ read_nk malloc_ok f stale off = Some kid.

(** Every chain of children below [root] ends: no offset leads back to a
    key on the path to it. *)
Inductive finite_below : list Z -> Prop :=
| finite_below_intro (root : list Z) :
    (forall kid, child root kid -> finite_below kid) -> finite_below root.

(** The walk of [root] comes to an end: some budget is enough for it. *)
Definition terminates (root : list Z) (level : Z) : Prop :=
  exists fuel, snd (printSubTree malloc_ok f stale fuel root level) <> OutOfFuel.

End Reach.

(** ** Vocabulary for the shape of the walker's output *)

Section WalkShape.

Variable malloc_ok : Z -> bool.

(** The runs without a recursive call that follow the line of a key in the
    body of [printSubTree]: the ways a loop or a read can end, and the
    mismatch warning. *)
Inductive atom : run -> Prop :=
| atom_skip : atom skip
| atom_crashed : atom (stop Crashed)
| atom_neg_count : atom (stop (Exited ExitNegCount))
| atom_warn (a b : Z) :
    a <> b -> a <> 0 -> 0 <= b < 2 ^ 15 -> atom (emit (PrintWarn a b))
| atom_list_alloc : atom (stop (Exited ExitListAlloc))
| atom_child_alloc0 :
    malloc_ok sizeof_NK = false -> atom (stop (Exited ExitChildAlloc0))
| atom_child_alloc :
    malloc_ok sizeof_NK = false -> atom (stop (Exited ExitChildAlloc))
| atom_short_read : atom short_read
| atom_unknown_subentry :
    atom (emit (PrintText "Fatal: encountered unknown subentry of ri list") ;;
          stop (Exited ExitUnknownSubentry))
| atom_unknown_subkey :
    atom (emit (PrintText "Fatal: encountered unknown subkey type") ;;
          stop (Exited ExitUnknownSubkey)).

End WalkShape.

(** Output that belongs to a run that goes on: key lines and warnings. *)
Definition is_progress (e : event) : bool :=
  match e with
  | KeyLine _ _ | PrintWarn _ _ => true
  | _ => false
  end.

(** The depth at which an event is printed, for the events that have one. *)
Definition event_tabs (e : event) : option Z :=
  match e with
  | KeyLine tabs _ | Blanks tabs => Some tabs
  | _ => None
  end.

(** All the lines of [t] are indented by more than [level]. *)
Definition deeper (level : Z) (t : list event) : Prop :=
  forall e tabs, In e t -> event_tabs e = Some tabs -> level < tabs.

(** The output [t] with every indentation increased by [d]. *)
Definition shift_event (d : Z) (e : event) : event :=
  match e with
  | KeyLine tabs name => KeyLine (tabs + d) name
  | Blanks tabs => Blanks (tabs + d)
  | other => other
  end.

Definition shift_run (d : Z) (r : run) : run :=
  (map (shift_event d) (fst r), snd r).


(** [refines r r']: [r'] is what a larger budget makes of the run [r].  A
    run that did not run out of budget stays as it is; one that did has
    printed an initial part of what [r'] prints. *)
Definition refines (r r' : run) : Prop :=
  (snd r <> OutOfFuel -> r' = r) /\ exists rest, fst r' = fst r ++ rest.


(** The record at relative offset [off] is an [lh]/[lf] or [li] list whose
    array lies inside the file and can be allocated. *)
Definition sublist_present (malloc_ok : Z -> bool) (f : file)
           (stale : Z -> list Z) (off : Z) : Prop :=
  exists lh2 stride,
    read_LH f stale (convOff off) = lh2
    /\ ((tag_is lh2 0 "lh" || tag_is lh2 0 "lf" = true
         /\ stride = sizeof_HashRec)
        \/ (tag_is lh2 0 "lh" || tag_is lh2 0 "lf" = false
            /\ tag_is lh2 0 "li" = true /\ stride = sizeof_uint32))
    /\ malloc_ok ((lh_num_entries lh2 * stride) mod 2 ^ 64) = true
    /\ array_present f (convOff off + sizeof_LH) stride (lh_num_entries lh2).


(** The test of lines 398-400 on the buffer [buf]: an [nk] record of type
    [NK_ROOT]. *)
Definition looks_like_root (buf : list Z) : bool :=
  tag_is buf 0 "nk" && (nk_type buf =? NK_ROOT).


(** ** Key trees *)

(** A tree of key names. *)
#[local] Unset Elimination Schemes.
Inductive key_tree : Type :=
| KNode (name : list Z) (subkeys : list key_tree).
#[local] Set Elimination Schemes.

Fixpoint height (t : key_tree) : nat :=
  match t with
  | KNode _ ts => S (list_max (map height ts))
  end.

(** The lines of a tree in depth-first pre-order, the root at [level]. *)
Fixpoint preorder (level : Z) (t : key_tree) : list event :=
  match t with
  | KNode name ts => KeyLine level name :: flat_map (preorder (level + 1)) ts
  end.

Section Holds.

Variable malloc_ok : Z -> bool.
Variable f : file.
Variable stale : Z -> list Z.

(** [index_lists nk offs]: the key [nk] has no subkeys and [offs] is empty,
    or its index is a hash list, or an [ri] record of lists, that is
    present in the file, and [offs] are the offsets it lists, in order. *)
Definition index_lists (nk : list Z) (offs : list Z) : Prop :=
  (is_leaf nk = true /\ offs = [])
  \/ (is_leaf nk = false
      /\ exists lh,
          let pos := convOff (nk_subkeys nk) in
          let n := lh_num_entries lh in
          read_LH f stale pos = lh
          /\ ((tag_is lh 0 "lh" || tag_is lh 0 "lf" = true
               /\ malloc_ok ((n * sizeof_HashRec) mod 2 ^ 64) = true
               /\ array_present f (pos + sizeof_LH) sizeof_HashRec n
               /\ offs = entry_offsets f (pos + sizeof_LH) sizeof_HashRec n)
              \/ (tag_is lh 0 "ri" = true
                  /\ malloc_ok ((n * sizeof_uint32) mod 2 ^ 64) = true
                  /\ array_present f (pos + sizeof_LH) sizeof_uint32 n
                  /\ Forall (sublist_present malloc_ok f stale)
                            (entry_offsets f (pos + sizeof_LH) sizeof_uint32 n)
                  /\ offs = flat_map (sublist_offsets f stale)
                                     (entry_offsets f (pos + sizeof_LH)
                                                    sizeof_uint32 n)))).

(** [holds t nk]: the file holds the tree [t] at the key [nk]: the name of
    [nk] is that of the root of [t], and the offsets its index lists lead,
    one by one, to keys that hold the subtrees of [t]. *)
Fixpoint holds (t : key_tree) (nk : list Z) {struct t} : Prop :=
  match t with
  | KNode name ts =>
      name = shown_name nk
      /\ malloc_ok (nk_name_len nk + 1) = true
      /\ malloc_ok sizeof_NK = true
      /\ exists offs,
          index_lists nk offs
          /\ (fix each (ts : list key_tree) (os : list Z) {struct ts} : Prop :=
                match ts, os with
                | [], [] => True
                | t' :: ts', o :: os' =>
                    (exists kid, read_nk malloc_ok f stale o = Some kid
                                 /\ holds t' kid)
                    /\ each ts' os'
                | _, _ => False
                end) ts offs
  end.

End Holds.


(** * Properties *)

(** ** Integer helpers *)

Lemma to_signed_range (w x : Z) :
  0 < w -> - 2 ^ (w - 1) <= to_signed w x < 2 ^ (w - 1).
Proof.
  intros Hw. unfold to_signed.
  assert (Hp : 2 ^ w = 2 * 2 ^ (w - 1)).
  { replace w with (Z.succ (w - 1)) at 1 by lia. apply Z.pow_succ_r. lia. }
  assert (Hq : 0 < 2 ^ (w - 1)) by (apply Z.pow_pos_nonneg; lia).
  pose proof (Z.mod_pos_bound x (2 ^ w) ltac:(lia)) as Hm.
  destruct (x mod 2 ^ w <? 2 ^ (w - 1)) eqn:E;
    [apply Z.ltb_lt in E | apply Z.ltb_ge in E]; lia.
Qed.

Lemma to_signed_small (w x : Z) :
  0 < w -> - 2 ^ (w - 1) <= x < 2 ^ (w - 1) -> to_signed w x = x.
Proof.
  intros Hw Hx. unfold to_signed.
  assert (Hp : 2 ^ w = 2 * 2 ^ (w - 1)).
  { replace w with (Z.succ (w - 1)) at 1 by lia. apply Z.pow_succ_r. lia. }
  assert (Hq : 0 < 2 ^ (w - 1)) by (apply Z.pow_pos_nonneg; lia).
  destruct (Z_lt_le_dec x 0) as [Hneg | Hpos].
  - assert (Hm : x mod 2 ^ w = x + 2 ^ w).
    { symmetry. apply Z.mod_unique with (q := -1); lia. }
    rewrite Hm.
    destruct (x + 2 ^ w <? 2 ^ (w - 1)) eqn:E;
      [apply Z.ltb_lt in E | apply Z.ltb_ge in E]; lia.
  - rewrite Z.mod_small by lia.
    destruct (x <? 2 ^ (w - 1)) eqn:E;
      [apply Z.ltb_lt in E | apply Z.ltb_ge in E]; lia.
Qed.

(** [to_signed] picks the representative of the residue class. *)
Lemma to_signed_congr (w x : Z) :
  0 < w -> exists q, to_signed w x = x + q * 2 ^ w.
Proof.
  intros Hw. unfold to_signed.
  pose proof (Z.div_mod x (2 ^ w)) as Hd.
  assert (Hq : 0 < 2 ^ w) by (apply Z.pow_pos_nonneg; lia).
  specialize (Hd ltac:(lia)).
  destruct (x mod 2 ^ w <? 2 ^ (w - 1)).
  - exists (- (x / 2 ^ w)). lia.
  - exists (- (x / 2 ^ w) - 1). lia.
Qed.

(** ** Timestamps *)

(** C9, as the claim states it, fails on the tick count 0: the function
    returns an [unsigned], which cannot be the negative number the formula
    gives. *)
Lemma ticks_zero_not_formula :
  WindowsTickToUnixSeconds 0 = 1240428288
  /\ 0 / 10000000 - 11644473600 = -11644473600
  /\ WindowsTickToUnixSeconds 0 <> 0 / 10000000 - 11644473600.
Proof. vm_compute. repeat split; discriminate. Qed.

(** C9 (amended): for every 64-bit tick count [t] the conversion returns
    [t / 10_000_000 - 11_644_473_600] reduced modulo 2^32, the range of its
    [unsigned] result; that is the value of the formula itself exactly when
    the formula's value lies in [0, 2^32). *)
Theorem ticks_to_unix_seconds_mod (t : Z) (Ht : 0 <= t < 2 ^ 64) :
  WindowsTickToUnixSeconds t = (t / 10000000 - 11644473600) mod 2 ^ 32
  /\ (WindowsTickToUnixSeconds t = t / 10000000 - 11644473600
      <-> 0 <= t / 10000000 - 11644473600 < 2 ^ 32).
Proof.
  assert (E : WindowsTickToUnixSeconds t
              = (t / 10000000 - 11644473600) mod 2 ^ 32).
  { unfold WindowsTickToUnixSeconds, WINDOWS_TICK, SEC_TO_UNIX_EPOCH.
    apply Z.mod_mod_divide. exists (2 ^ 32). reflexivity. }
  split; [exact E|]. rewrite E. split.
  - intros H. rewrite <- H. apply Z.mod_pos_bound. lia.
  - intros H. apply Z.mod_small. exact H.
Qed.

Lemma ticks_to_unix_seconds_mod_witness :
  0 <= 131000000000000000 < 2 ^ 64
  /\ WindowsTickToUnixSeconds 131000000000000000 = 1455526400.
Proof.
  split; [lia|].
  destruct (ticks_to_unix_seconds_mod 131000000000000000 ltac:(lia)) as [E _].
  rewrite E. reflexivity.
Defined.

(** ** The size check of the root scan *)

Lemma to_signed_mod_eq (w x y : Z) :
  x mod 2 ^ w = y mod 2 ^ w -> to_signed w x = to_signed w y.
Proof. unfold to_signed. intros ->. reflexivity. Qed.

Lemma cell_size_real_wrap (L : Z) :
  cell_size_real L = to_signed 32 (- L - 4).
Proof.
  unfold cell_size_real. apply to_signed_mod_eq.
  rewrite Z.mod_mod_divide by (exists (2 ^ 32); reflexivity).
  destruct (to_signed_congr 32 (-1 * L) ltac:(lia)) as [q Hq].
  rewrite Hq.
  pose proof (Z.div_mod (-1 * L + q * 2 ^ 32) (2 ^ 64) ltac:(lia)) as Hd.
  set (r := (-1 * L + q * 2 ^ 32) mod 2 ^ 64) in *.
  set (d := (-1 * L + q * 2 ^ 32) / 2 ^ 64) in *.
  replace (r - 4) with (- L - 4 + (q - d * 2 ^ 32) * 2 ^ 32) by lia.
  apply Z_mod_plus_full.
Qed.

Lemma cell_size_real_exact (L : Z) :
  - 2 ^ 31 <= L <= 2 ^ 31 - 4 -> cell_size_real L = - L - 4.
Proof.
  intros H. rewrite cell_size_real_wrap. apply to_signed_small; lia.
Qed.

Lemma size_rejected_iff (L : Z) :
  - 2 ^ 31 <= L < 2 ^ 31 ->
  size_rejected (cell_size_real L) = true <-> - L - 4 < 0 \/ - L - 4 > 0x1000.
Proof.
  intros HL.
  destruct (Z_le_gt_dec L (2 ^ 31 - 4)) as [Hs | Hb].
  - rewrite cell_size_real_exact by lia. unfold size_rejected.
    rewrite orb_true_iff, Z.ltb_lt, Z.gtb_gt. lia.
  - assert (HL3 : L = 2 ^ 31 - 3 \/ L = 2 ^ 31 - 2 \/ L = 2 ^ 31 - 1) by lia.
    split; [intros _; lia|]. intros _.
    destruct HL3 as [-> | [-> | ->]]; reflexivity.
Qed.

Lemma i32_at_range (buf : list Z) (off : Z) :
  - 2 ^ 31 <= i32_at buf off < 2 ^ 31.
Proof. unfold i32_at. apply (to_signed_range 32). lia. Qed.

Section ScanFacts.

Variable malloc_ok : Z -> bool.
Variable f : file.
Variable stale : Z -> list Z.
Variable fresh : nat -> list Z.

Lemma stored_length_range (st : scan_state) :
  - 2 ^ 31 <= stored_length f st < 2 ^ 31.
Proof. unfold stored_length, read_cell_size. apply i32_at_range. Qed.

(** The turn leaves through line 394 exactly when the check rejects the
    real size computed from the stored length. *)
Lemma scan_step_size_exit (k : nat) (st : scan_state) :
  scan_step malloc_ok f fresh k st = Fatal ExitCellSize
  <-> size_rejected (cell_size_real (stored_length f st)) = true.
Proof.
  unfold scan_step, stored_length.
  destruct (skip_hbin f (sc_pos st) (sc_bh st)) as [pos1 bh1]. cbn [fst].
  destruct (read_cell_size f pos1 (sc_cell_size st)) as [cs pos2]. cbn [fst].
  destruct (size_rejected (cell_size_real cs)).
  - split; reflexivity.
  - destruct (negb (malloc_ok (cell_size_real cs))).
    + split; discriminate.
    + match goal with |- context [if ?c then _ else _] => destruct c end;
        split; discriminate.
Qed.

Lemma find_root_app (n m k : nat) (st : scan_state) :
  find_root malloc_ok f fresh (n + m) k st =
  match find_root malloc_ok f fresh n k st with
  | Continue st' => find_root malloc_ok f fresh m (n + k) st'
  | r => r
  end.
Proof.
  revert k st. induction n as [|n IH]; intros k st; simpl.
  - reflexivity.
  - destruct (scan_step malloc_ok f fresh k st); try reflexivity.
    rewrite IH. replace (n + S k)%nat with (S (n + k)) by lia. reflexivity.
Qed.

End ScanFacts.

(** C4, as the claim states it, fails on the stored length -4: the real
    length is 0, which the claim rejects, and the scan accepts the cell and
    goes into its next turn four bytes further on. *)
Lemma zero_length_cell_accepted :
  let f := Fixtures.hive [ [] ] 16 in
  let st := scan_start f [] in
  stored_length f st = -4
  /\ cell_size_real (-4) = 0
  /\ scan_step Fixtures.generous f (fun _ => []) 0 st
     = Continue (mk_scan 0x1024 Fixtures.hbin (-4)).
Proof. vm_compute. repeat split. Qed.

(** C4 (amended): for the stored length [L] that a turn of the root scan
    reads, the real length is [-L - 4] wrapped to a signed 32-bit integer,
    which is [-L - 4] itself unless [L] is one of the three largest values;
    the turn leaves through the fatal size check exactly when [-L - 4] is
    negative or exceeds 4096.  A real length of 0 passes the check. *)
Theorem cell_size_check
        (malloc_ok : Z -> bool) (f : file) (fresh : nat -> list Z)
        (k : nat) (st : scan_state) :
  let L := stored_length f st in
  cell_size_real L = to_signed 32 (- L - 4)
  /\ (L <= 2 ^ 31 - 4 -> cell_size_real L = - L - 4)
  /\ (scan_step malloc_ok f fresh k st = Fatal ExitCellSize
      <-> - L - 4 < 0 \/ - L - 4 > 0x1000)
  /\ size_rejected 0 = false.
Proof.
  intros L. pose proof (stored_length_range f st) as HL. fold L in HL.
  split; [apply cell_size_real_wrap|].
  split; [intros H; apply cell_size_real_exact; lia|].
  split; [|reflexivity].
  rewrite scan_step_size_exit. apply size_rejected_iff. exact HL.
Qed.

Lemma cell_size_check_witness :
  let f := Fixtures.hive [ Fixtures.zeros 12 ] 16 in
  let st := scan_start f [] in
  stored_length f st = -16
  /\ cell_size_real (stored_length f st) = 12
  /\ scan_step Fixtures.generous f (fun _ => []) 0 st <> Fatal ExitCellSize.
Proof.
  intros f st.
  destruct (cell_size_check Fixtures.generous f (fun _ => []) 0%nat st)
    as (_ & Hexact & Hexit & _).
  assert (HL : stored_length f st = -16) by (vm_compute; reflexivity).
  split; [exact HL|]. split.
  - rewrite Hexact; rewrite HL; [reflexivity | lia].
  - intros H. apply Hexit in H. rewrite HL in H. lia.
Defined.

(** C5: in the root scan, a cell whose stored length is non-negative ends
    the whole run through the fatal size check in the turn that reads it,
    whatever follows it in the file; the cell is not skipped. *)
Theorem free_cell_is_fatal
        (malloc_ok : Z -> bool) (f : file) (fresh : nat -> list Z)
        (n m k : nat) (st0 st : scan_state)
        (Hreach : find_root malloc_ok f fresh n k st0 = Continue st)
        (Hfree : 0 <= stored_length f st) :
  scan_step malloc_ok f fresh (n + k) st = Fatal ExitCellSize
  /\ find_root malloc_ok f fresh (n + S m) k st0 = Fatal ExitCellSize.
Proof.
  assert (Hstep : scan_step malloc_ok f fresh (n + k) st = Fatal ExitCellSize).
  { apply scan_step_size_exit. apply size_rejected_iff.
    - apply stored_length_range.
    - lia. }
  split; [exact Hstep|].
  rewrite find_root_app, Hreach. simpl. rewrite Hstep. reflexivity.
Qed.

(** A hive whose first cell is allocated, whose second cell is free (stored
    length 16) and whose third cell is the root: the scan ends at the
    second. *)
Lemma free_cell_is_fatal_witness :
  let f := Fixtures.hive [ Fixtures.zeros 4 ] 0
           ++ Fixtures.le_bytes 4 16 ++ Fixtures.zeros 12
           ++ Fixtures.cell (Fixtures.mk_nk NK_ROOT 0 0xFFFFFFFF "ROOT") in
  let st := mk_scan 0x1028 Fixtures.hbin (-8) in
  find_root Fixtures.generous f (fun _ => []) 1 0 (scan_start f []) = Continue st
  /\ stored_length f st = 16
  /\ find_root Fixtures.generous f (fun _ => []) 5 0 (scan_start f [])
     = Fatal ExitCellSize.
Proof.
  intros f st.
  assert (H1 : find_root Fixtures.generous f (fun _ => []) 1 0 (scan_start f [])
               = Continue st) by (vm_compute; reflexivity).
  assert (H2 : stored_length f st = 16) by (vm_compute; reflexivity).
  split; [exact H1|]. split; [exact H2|].
  apply (free_cell_is_fatal Fixtures.generous f (fun _ => []) 1 3 0
                            (scan_start f []) st H1).
  rewrite H2. lia.
Defined.

(** ** The root scan at the end of the file *)

Lemma fread_past_end (f : file) (pos n : Z) :
  Z.of_nat (List.length f) <= pos -> fread f pos n = [].
Proof.
  intros H. unfold fread, slice.
  rewrite skipn_all2 by lia. apply firstn_nil.
Qed.

Lemma u32_at_four (a b c d : Z) (rest : list Z) :
  u32_at (a :: b :: c :: d :: rest) 0 = a + 256 * (b + 256 * (c + 256 * d)).
Proof.
  change (u32_at (a :: b :: c :: d :: rest) 0) with (le_value [a; b; c; d]).
  cbn [le_value]. lia.
Qed.

Lemma u32_of_bytes_of_u32 (x : Z) : u32_at (bytes_of_u32 x) 0 = x mod 2 ^ 32.
Proof.
  unfold bytes_of_u32. rewrite u32_at_four.
  set (m := x mod 2 ^ 32).
  assert (Hm : 0 <= m < 2 ^ 32) by (apply Z.mod_pos_bound; lia).
  pose proof (Z.div_mod m 256 ltac:(lia)).
  pose proof (Z.div_mod (m / 256) 256 ltac:(lia)).
  pose proof (Z.div_mod (m / 256 / 256) 256 ltac:(lia)).
  assert (H65 : m / 65536 = m / 256 / 256)
    by (rewrite Z.div_div by lia; reflexivity).
  assert (H16 : m / 16777216 = m / 256 / 256 / 256)
    by (rewrite !Z.div_div by lia; reflexivity).
  assert (Hs : m / 256 / 256 / 256 < 256).
  { apply Z.div_lt_upper_bound; [lia|]. rewrite !Z.div_div by lia.
    apply Z.div_lt_upper_bound; lia. }
  assert (Hp : 0 <= m / 256 / 256 / 256).
  { repeat apply Z.div_pos; lia. }
  rewrite H65, H16.
  rewrite (Z.mod_small (m / 256 / 256 / 256)) by lia.
  lia.
Qed.

Lemma i32_of_bytes_of_u32 (x : Z) :
  - 2 ^ 31 <= x < 2 ^ 31 -> i32_at (bytes_of_u32 x) 0 = x.
Proof.
  intros H. unfold i32_at. rewrite u32_of_bytes_of_u32.
  rewrite <- (to_signed_small 32 x) at 2 by lia.
  apply to_signed_mod_eq. apply Z.mod_mod. lia.
Qed.

Section ScanExhausted.

Variable malloc_ok : Z -> bool.
Variable f : file.
Variable stale : Z -> list Z.
Variable fresh : nat -> list Z.

(** Once the cursor stands at the end of the file, off a page boundary,
    no read delivers anything: [cell_size] keeps the length of the last
    cell, the size check passes again on it, and the turn inspects a
    buffer that nothing was read into. *)
Lemma scan_step_exhausted (k : nat) (st : scan_state) :
  Z.of_nat (List.length f) <= sc_pos st ->
  sc_pos st mod 0x1000 <> 0 ->
  - 2 ^ 31 <= sc_cell_size st < 2 ^ 31 ->
  size_rejected (cell_size_real (sc_cell_size st)) = false ->
  malloc_ok (cell_size_real (sc_cell_size st)) = true ->
  scan_step malloc_ok f fresh k st =
  if tag_is (fresh k) 0 "nk" && (nk_type (fresh k) =? NK_ROOT)
  then Found (fresh k) (sc_pos st) else Continue st.
Proof.
  intros Hend Hpage Hcs Hsize Halloc.
  unfold scan_step, skip_hbin, read_cell_size.
  apply Z.eqb_neq in Hpage. rewrite Hpage.
  rewrite (fread_past_end f (sc_pos st) 4 Hend).
  cbn [overlay List.length skipn app].
  rewrite i32_of_bytes_of_u32 by exact Hcs.
  rewrite Hsize, Halloc. cbn [negb Z.of_nat].
  rewrite Z.add_0_r.
  rewrite (fread_past_end f (sc_pos st) _ Hend).
  cbn [overlay List.length skipn app Z.of_nat].
  rewrite Z.add_0_r.
  destruct st; reflexivity.
Qed.

Lemma find_root_exhausted (fuel k : nat) (st : scan_state) :
  Z.of_nat (List.length f) <= sc_pos st ->
  sc_pos st mod 0x1000 <> 0 ->
  - 2 ^ 31 <= sc_cell_size st < 2 ^ 31 ->
  size_rejected (cell_size_real (sc_cell_size st)) = false ->
  malloc_ok (cell_size_real (sc_cell_size st)) = true ->
  find_root malloc_ok f fresh fuel k st = Continue st
  \/ exists j, find_root malloc_ok f fresh fuel k st
               = Found (fresh j) (sc_pos st).
Proof.
  intros Hend Hpage Hcs Hsize Halloc. revert k.
  induction fuel as [|fuel IH]; intros k; simpl.
  - left. reflexivity.
  - rewrite scan_step_exhausted by assumption.
    destruct (tag_is (fresh k) 0 "nk" && (nk_type (fresh k) =? NK_ROOT)).
    + right. exists k. reflexivity.
    + apply IH.
Qed.

End ScanExhausted.

Lemma rootless_scan_stuck (fuel k : nat) :
  let stuck := mk_scan 4136 Fixtures.hbin (-8) in
  find_root Fixtures.generous rootless_hive (fun _ => []) fuel k stuck
  = Continue stuck.
Proof.
  intros stuck. subst stuck. revert k.
  induction fuel as [|fuel IH]; intros k; cbn [find_root]; [reflexivity|].
  rewrite scan_step_exhausted;
    [ | vm_compute; discriminate | simpl; discriminate
      | simpl; lia | reflexivity | reflexivity].
  cbv beta. change (tag_is [] 0 "nk") with false. cbn [andb]. apply IH.
Qed.

(** C2, the code at the failing input: on [rootless_hive] the scan reads
    the one cell, reaches the end of the file and from then on repeats the
    same turn on the stale length -8.  Whatever the unfilled buffers hold,
    no number of turns ends in a fatal exit; with zero-filled buffers the
    loop is still running after any number of turns, and so is [main]. *)
Theorem rootless_scan_never_fails :
  let start := scan_start rootless_hive [] in
  let stuck := mk_scan 4136 Fixtures.hbin (-8) in
  Z.of_nat (List.length rootless_hive) = 4136
  /\ (forall fresh fuel s,
         find_root Fixtures.generous rootless_hive fresh fuel 0 start
         <> Fatal s)
  /\ (forall fuel,
         find_root Fixtures.generous rootless_hive (fun _ => []) (S fuel) 0 start
         = Continue stuck)
  /\ (forall scan_fuel walk_fuel,
         main Fixtures.generous rootless_hive Fixtures.blank (fun _ => []) [] []
              scan_fuel walk_fuel
         = ([PrintTime 1240428288], OutOfFuel)).
Proof.
  intros start stuck.
  assert (Hlen : Z.of_nat (List.length rootless_hive) = 4136)
    by (vm_compute; reflexivity).
  assert (Hfirst : forall fresh,
             scan_step Fixtures.generous rootless_hive fresh 0 start
             = Continue stuck).
  { intros fresh. vm_compute. reflexivity. }
  assert (Hrest : forall fresh fuel k,
             find_root Fixtures.generous rootless_hive fresh fuel k stuck
             = Continue stuck
             \/ exists j, find_root Fixtures.generous rootless_hive fresh fuel k stuck
                          = Found (fresh j) (sc_pos stuck)).
  { intros fresh fuel k. apply find_root_exhausted.
    - rewrite Hlen. simpl. lia.
    - simpl. discriminate.
    - simpl. lia.
    - reflexivity.
    - reflexivity. }
  assert (Hloop : forall fuel,
             find_root Fixtures.generous rootless_hive (fun _ => []) (S fuel) 0
                       start = Continue stuck).
  { intros fuel. cbn [find_root]. rewrite Hfirst. apply rootless_scan_stuck. }
  split; [exact Hlen|]. split; [|split; [exact Hloop|]].
  - intros fresh fuel s. destruct fuel as [|fuel]; [discriminate|].
    cbn [find_root]. rewrite Hfirst.
    destruct (Hrest fresh fuel 1%nat) as [E | [j E]]; rewrite E; discriminate.
  - intros scan_fuel walk_fuel. unfold main.
    replace (validHeader (overlay (fread rootless_hive 0 sizeof_HiveHeader) []))
      with (@nil string, 1) by (vm_compute; reflexivity).
    replace (printNTTime_seconds
               (overlay (fread rootless_hive 0 sizeof_HiveHeader) []) 12)
      with 1240428288 by (vm_compute; reflexivity).
    cbn [Z.eqb]. fold start.
    destruct scan_fuel as [|scan_fuel]; [reflexivity|].
    rewrite Hloop. reflexivity.
Qed.

(** ** Runs and loops *)

Lemma skip_then (b : run) : skip ;; b = b.
Proof. destruct b; reflexivity. Qed.

Lemma emit_then (e : event) (b : run) : emit e ;; b = (e :: fst b, snd b).
Proof. reflexivity. Qed.

Lemma then_returned (a b : run) :
  snd a = Returned -> a ;; b = (fst a ++ fst b, snd b).
Proof. unfold then_. intros ->. reflexivity. Qed.

Lemma then_status (a b : run) :
  snd (a ;; b) = match snd a with Returned => snd b | s => s end.
Proof. destruct a as [t s]. unfold then_. simpl. destruct s; reflexivity. Qed.

Lemma for_each_ext (body body' : Z -> run) (l : list Z) :
  (forall x, In x l -> body x = body' x) ->
  for_each body l = for_each body' l.
Proof.
  induction l as [|x l IH]; intros H; simpl; [reflexivity|].
  rewrite H by (left; reflexivity). rewrite IH; [reflexivity|].
  intros y Hy. apply H. right. exact Hy.
Qed.

(** A loop all of whose turns return prints the turns' output in order. *)
Lemma for_each_all_return (body : Z -> run) (l : list Z) :
  (forall x, In x l -> snd (body x) = Returned) ->
  for_each body l = (flat_map (fun x => fst (body x)) l, Returned).
Proof.
  induction l as [|x l IH]; intros H; simpl; [reflexivity|].
  rewrite then_returned by (apply H; left; reflexivity).
  rewrite IH by (intros y Hy; apply H; right; exact Hy). reflexivity.
Qed.

Lemma warnings_then (a b : run) :
  warnings (fst a) = [] -> warnings (fst b) = [] -> warnings (fst (a ;; b)) = [].
Proof.
  destruct a as [t s]. unfold then_, warnings. simpl. intros Ha Hb.
  destruct s; simpl; try exact Ha.
  rewrite filter_app, Ha, Hb. reflexivity.
Qed.

Lemma warnings_for_each (body : Z -> run) (l : list Z) :
  (forall x, warnings (fst (body x)) = []) ->
  warnings (fst (for_each body l)) = [].
Proof.
  intros H. induction l as [|x l IH]; simpl; [reflexivity|].
  apply warnings_then; [apply H | exact IH].
Qed.

(** ** Facts about the walker *)

Lemma tag_ri_not_lh (lh : list Z) :
  tag_is lh 0 "ri" = true -> tag_is lh 0 "lh" || tag_is lh 0 "lf" = false.
Proof.
  unfold tag_is. cbn.
  change (Z.of_nat (Pos.to_nat 114)) with 114.
  change (Z.of_nat (Pos.to_nat 108)) with 108.
  intros H. apply andb_prop in H. destruct H as [H _].
  apply Z.eqb_eq in H. rewrite H. reflexivity.
Qed.

Section WalkerFacts.

Variable malloc_ok : Z -> bool.
Variable f : file.
Variable stale : Z -> list Z.
Lemma entry_offsets_length (pos stride n : Z) :
  List.length (entry_offsets f pos stride n) = Z.to_nat n.
Proof. unfold entry_offsets. rewrite length_map, length_seq. reflexivity. Qed.

(** The [k]-th child offset is the [k]-th element of the stored array. *)
Lemma entry_offsets_nth (pos stride n : Z) (k : nat) :
  (k < Z.to_nat n)%nat ->
  nth k (entry_offsets f pos stride n) 0 = u32_at f (pos + stride * Z.of_nat k).
Proof.
  intros Hk. unfold entry_offsets.
  set (g := fun j : nat => u32_at f (pos + stride * Z.of_nat j)).
  rewrite (nth_indep _ 0 (g 0%nat))
    by (rewrite length_map, length_seq; exact Hk).
  rewrite map_nth, seq_nth by exact Hk. reflexivity.
Qed.

Lemma nread_full (pos stride n : Z) :
  array_present f pos stride n -> (nread f pos stride n <? n) = false.
Proof.
  intros (Hn & Hs & Hlen). apply Z.ltb_ge. unfold nread.
  rewrite (Z.mod_small n) by lia.
  assert (Hitems : n <= Z.max 0 (flen f - pos) / stride).
  { apply Z.div_le_lower_bound; lia. }
  rewrite Z.min_r by exact Hitems.
  rewrite to_signed_small; lia.
Qed.

Lemma list_loop_present (stride pos n : Z) (body : Z -> run) :
  malloc_ok ((n * stride) mod 2 ^ 64) = true ->
  array_present f pos stride n ->
  list_loop malloc_ok f stride pos n body = for_each body (entry_offsets f pos stride n).
Proof.
  intros Hm Hp. unfold list_loop.
  rewrite Hm, (nread_full _ _ _ Hp). reflexivity.
Qed.

Lemma visit_read (site : exit_site) (rec : list Z -> Z -> run)
      (level off : Z) (next : list Z) :
  malloc_ok sizeof_NK = true ->
  read_nk malloc_ok f stale off = Some next ->
  visit malloc_ok f stale site rec level off = rec next (level + 1).
Proof. intros Hm Hr. unfold visit. rewrite Hm, Hr. reflexivity. Qed.

Lemma body_leaf (rec : list Z -> Z -> run) (root : list Z) (level : Z) :
  malloc_ok (nk_name_len root + 1) = true ->
  is_leaf root = true ->
  subtree_body malloc_ok f stale rec root level = emit (KeyLine level (shown_name root)).
Proof.
  intros Hm Hl. unfold subtree_body, printNKName.
  rewrite Hm, Hl. reflexivity.
Qed.

(** A key whose index is a hash list referenced directly (lines 157-205). *)
Lemma body_hash_list (rec : list Z -> Z -> run) (root : list Z) (level : Z)
      (lh : list Z) :
  let pos := convOff (nk_subkeys root) in
  let n := lh_num_entries lh in
  malloc_ok (nk_name_len root + 1) = true ->
  is_leaf root = false ->
  read_LH f stale pos = lh ->
  tag_is lh 0 "lh" || tag_is lh 0 "lf" = true ->
  malloc_ok ((n * sizeof_HashRec) mod 2 ^ 64) = true ->
  array_present f (pos + sizeof_LH) sizeof_HashRec n ->
  subtree_body malloc_ok f stale rec root level =
  emit (KeyLine level (shown_name root)) ;;
  (if nk_num_subkeys root =? n then skip
   else emit (PrintWarn (nk_num_subkeys root) n)) ;;
  for_each (visit malloc_ok f stale ExitChildAlloc0 rec level)
           (entry_offsets f (pos + sizeof_LH) sizeof_HashRec n).
Proof.
  intros pos n Hname Hleaf Hlh Htag Hm Hp.
  unfold subtree_body, printNKName.
  rewrite Hname, Hleaf. fold pos. rewrite Hlh, Htag. fold n.
  assert (Hn : (n <? 0) = false) by (apply Z.ltb_ge; destruct Hp; lia).
  rewrite Hn, (list_loop_present _ _ _ _ Hm Hp).
  destruct (nk_num_subkeys root =? n); reflexivity.
Qed.

(** A key whose index is an [ri] record (lines 207-310). *)
Lemma body_ri (rec : list Z -> Z -> run) (root : list Z) (level : Z)
      (lh : list Z) :
  let pos := convOff (nk_subkeys root) in
  malloc_ok (nk_name_len root + 1) = true ->
  is_leaf root = false ->
  read_LH f stale pos = lh ->
  tag_is lh 0 "ri" = true ->
  subtree_body malloc_ok f stale rec root level =
  emit (KeyLine level (shown_name root)) ;;
  list_loop malloc_ok f sizeof_uint32 (pos + sizeof_LH) (lh_num_entries lh)
            (ri_entry malloc_ok f stale rec level).
Proof.
  intros pos Hname Hleaf Hlh Htag.
  unfold subtree_body, printNKName.
  rewrite Hname, Hleaf. fold pos. rewrite Hlh, (tag_ri_not_lh _ Htag), Htag.
  reflexivity.
Qed.

(** A loop over offsets that all lead to leaves prints one line for each,
    in the order of the offsets. *)
Lemma leaves_loop (site : exit_site) (fuel : nat) (level : Z)
      (offs : list Z) (kids : list (list Z)) :
  malloc_ok sizeof_NK = true ->
  Forall2 (fun off kid => read_nk malloc_ok f stale off = Some kid) offs kids ->
  Forall (fun kid => is_leaf kid = true
                     /\ malloc_ok (nk_name_len kid + 1) = true) kids ->
  for_each (visit malloc_ok f stale site (printSubTree malloc_ok f stale (S fuel)) level) offs
  = (map (fun kid => KeyLine (level + 1) (shown_name kid)) kids, Returned).
Proof.
  intros Hm H2. induction H2 as [|off kid offs kids Hr H2 IH]; intros Hk.
  - reflexivity.
  - inversion Hk as [|? ? [Hleaf Hname] Hk']; subst.
    cbn [for_each]. rewrite (IH Hk'), (visit_read _ _ _ _ _ Hm Hr).
    cbn [printSubTree]. rewrite (body_leaf _ _ _ Hname Hleaf).
    reflexivity.
Qed.

End WalkerFacts.

(** ** Hash lists referenced directly *)

(** C6: for a key whose index is a directly referenced hash list ([lh] or
    [lf]) with a non-negative entry count [n] that differs from the key's
    declared subkey count, the walk prints the key's line, then exactly one
    warning, then runs the loop over exactly the [n] stored entries; its
    status is that of the loop, so the mismatch itself never ends the run.
    When the entries lead to leaves the output is the key's line, the one
    warning and [n] child lines, and the walk returns. *)
Theorem hash_list_count_mismatch
        (malloc_ok : Z -> bool) (f : file) (stale : Z -> list Z) (fuel : nat)
        (root lh : list Z) (level : Z) :
  let pos := convOff (nk_subkeys root) in
  let n := lh_num_entries lh in
  let offs := entry_offsets f (pos + sizeof_LH) sizeof_HashRec n in
  let children :=
    for_each (visit malloc_ok f stale ExitChildAlloc0
                    (printSubTree malloc_ok f stale (S fuel)) level) offs in
  malloc_ok (nk_name_len root + 1) = true ->
  is_leaf root = false ->
  read_LH f stale pos = lh ->
  tag_is lh 0 "lh" || tag_is lh 0 "lf" = true ->
  nk_num_subkeys root <> n ->
  malloc_ok ((n * sizeof_HashRec) mod 2 ^ 64) = true ->
  array_present f (pos + sizeof_LH) sizeof_HashRec n ->
  printSubTree malloc_ok f stale (S (S fuel)) root level
  = (KeyLine level (shown_name root)
       :: PrintWarn (nk_num_subkeys root) n :: fst children,
     snd children)
  /\ List.length offs = Z.to_nat n
  /\ (forall kids,
         malloc_ok sizeof_NK = true ->
         Forall2 (fun off kid => read_nk malloc_ok f stale off = Some kid) offs kids ->
         Forall (fun kid => is_leaf kid = true
                            /\ malloc_ok (nk_name_len kid + 1) = true) kids ->
         printSubTree malloc_ok f stale (S (S fuel)) root level
         = (KeyLine level (shown_name root)
              :: PrintWarn (nk_num_subkeys root) n
              :: map (fun kid => KeyLine (level + 1) (shown_name kid)) kids,
            Returned)
         /\ List.length kids = Z.to_nat n).
Proof.
  intros pos n offs children Hname Hleaf Hlh Htag Hneq Hm Hp.
  assert (E : printSubTree malloc_ok f stale (S (S fuel)) root level
              = (KeyLine level (shown_name root)
                   :: PrintWarn (nk_num_subkeys root) n :: fst children,
                 snd children)).
  { cbn [printSubTree].
    rewrite (body_hash_list malloc_ok f stale _ root level lh Hname Hleaf Hlh Htag Hm Hp).
    fold pos n. apply Z.eqb_neq in Hneq. rewrite Hneq.
    rewrite !emit_then. reflexivity. }
  split; [exact E|]. split; [apply entry_offsets_length|].
  intros kids Hnk H2 Hk. split.
  - rewrite E. unfold children.
    rewrite (leaves_loop malloc_ok f stale _ fuel level offs kids Hnk H2 Hk).
    reflexivity.
  - rewrite <- (Forall2_length H2). apply entry_offsets_length.
Qed.

(** The root declares three subkeys, its hash list two entries. *)
Lemma hash_list_count_mismatch_witness :
  printSubTree Fixtures.generous (Hives.tree_hive 3) Fixtures.blank 2 (Hives.root_key 3) 0
  = ([KeyLine 0 (bytes_of_string "ROOT"); PrintWarn 3 2;
      KeyLine 1 (bytes_of_string "A"); KeyLine 1 (bytes_of_string "Bee")],
     Returned).
Proof.
  pose proof (hash_list_count_mismatch
                Fixtures.generous (Hives.tree_hive 3) Fixtures.blank 0
                (Hives.root_key 3)
                (bytes_of_string "lh" ++ [2; 0]) 0) as H.
  cbv zeta in H.
  destruct H as (_ & _ & H).
  - reflexivity.
  - reflexivity.
  - vm_compute. reflexivity.
  - reflexivity.
  - vm_compute. discriminate.
  - reflexivity.
  - vm_compute. repeat split; discriminate.
  - destruct (H [Hives.key_at (Hives.tree_hive 3) 0x8c;
                 Hives.key_at (Hives.tree_hive 3) 0xdd]) as [E _].
    + reflexivity.
    + assert (Ho : entry_offsets (Hives.tree_hive 3)
                     (convOff (nk_subkeys (Hives.root_key 3)) + sizeof_LH)
                     sizeof_HashRec
                     (lh_num_entries (bytes_of_string "lh" ++ [2; 0]))
                   = [0x8c; 0xdd]) by (vm_compute; reflexivity).
      rewrite Ho.
      constructor; [vm_compute; reflexivity|].
      constructor; [vm_compute; reflexivity|]. constructor.
    + constructor; [split; vm_compute; reflexivity|].
      constructor; [split; vm_compute; reflexivity|]. constructor.
    + rewrite E. vm_compute. reflexivity.
Defined.

(** ** Order of the walk *)

(** The line of a key is the first thing its walk prints, whatever the
    calls for its children print. *)
Lemma key_line_first (malloc_ok : Z -> bool) (f : file) (stale : Z -> list Z)
      (rec : list Z -> Z -> run) (root : list Z) (level : Z) :
  malloc_ok (nk_name_len root + 1) = true ->
  hd_error (fst (subtree_body malloc_ok f stale rec root level))
  = Some (KeyLine level (shown_name root)).
Proof.
  intros Hm. unfold subtree_body, printNKName. rewrite Hm.
  rewrite emit_then. reflexivity.
Qed.

(** ** Keys indexed through an [ri] record *)

Section RiFacts.

Variable malloc_ok : Z -> bool.
Variable f : file.
Variable stale : Z -> list Z.

Lemma warnings_list_loop (stride pos n : Z) (body : Z -> run) :
  (forall x, warnings (fst (body x)) = []) ->
  warnings (fst (list_loop malloc_ok f stride pos n body)) = [].
Proof.
  intros H. unfold list_loop.
  destruct (negb (malloc_ok ((n * stride) mod 2 ^ 64))); [reflexivity|].
  destruct (nread f pos stride n <? n); [reflexivity|].
  apply warnings_for_each. exact H.
Qed.

Lemma warnings_visit (site : exit_site) (rec : list Z -> Z -> run)
      (level off : Z) :
  (forall nk l, warnings (fst (rec nk l)) = []) ->
  warnings (fst (visit malloc_ok f stale site rec level off)) = [].
Proof.
  intros H. unfold visit.
  destruct (negb (malloc_ok sizeof_NK)); [reflexivity|].
  destruct (read_nk malloc_ok f stale off); [apply H | reflexivity].
Qed.

Lemma warnings_ri_entry (rec : list Z -> Z -> run) (level off : Z) :
  (forall nk l, warnings (fst (rec nk l)) = []) ->
  warnings (fst (ri_entry malloc_ok f stale rec level off)) = [].
Proof.
  intros H. unfold ri_entry.
  generalize (read_LH f stale (convOff off)); intros lh2.
  destruct (tag_is lh2 0 "lh" || tag_is lh2 0 "lf").
  - apply warnings_list_loop. intros x. apply warnings_visit. exact H.
  - destruct (tag_is lh2 0 "li"); [|reflexivity].
    apply warnings_list_loop. intros x. apply warnings_visit. exact H.
Qed.

End RiFacts.

(** C10: for a key whose index is an [ri] record, the walk compares no
    entry count with the key's declared subkey count.  Whatever the calls
    for the children print, the key's own walk adds no mismatch warning;
    its run is the key's line followed by the loop over the [ri] entries
    and is the same for every non-zero declared subkey count; and a
    secondary [lh]/[lf] or [li] list that is present is walked by a loop
    over exactly as many offsets as the list itself declares. *)
Theorem ri_path_never_warns
        (malloc_ok : Z -> bool) (f : file) (stale : Z -> list Z)
        (rec : list Z -> Z -> run)
        (root lh : list Z) (level : Z) :
  let pos := convOff (nk_subkeys root) in
  is_leaf root = false ->
  read_LH f stale pos = lh ->
  tag_is lh 0 "ri" = true ->
  ((forall nk l, warnings (fst (rec nk l)) = []) ->
   warnings (fst (subtree_body malloc_ok f stale rec root level)) = [])
  /\ (forall root',
         nk_subkeys root' = nk_subkeys root ->
         nk_name_len root' = nk_name_len root ->
         shown_name root' = shown_name root ->
         nk_num_subkeys root' <> 0 ->
         subtree_body malloc_ok f stale rec root' level
         = subtree_body malloc_ok f stale rec root level)
  /\ (forall off lh2 stride,
         read_LH f stale (convOff off) = lh2 ->
         (tag_is lh2 0 "lh" || tag_is lh2 0 "lf" = true /\ stride = sizeof_HashRec)
         \/ (tag_is lh2 0 "lh" || tag_is lh2 0 "lf" = false
             /\ tag_is lh2 0 "li" = true /\ stride = sizeof_uint32) ->
         malloc_ok ((lh_num_entries lh2 * stride) mod 2 ^ 64) = true ->
         array_present f (convOff off + sizeof_LH) stride (lh_num_entries lh2) ->
         ri_entry malloc_ok f stale rec level off
         = for_each (visit malloc_ok f stale ExitChildAlloc rec level)
                    (entry_offsets f (convOff off + sizeof_LH) stride
                                   (lh_num_entries lh2))
         /\ List.length (entry_offsets f (convOff off + sizeof_LH) stride
                                       (lh_num_entries lh2))
            = Z.to_nat (lh_num_entries lh2)).
Proof.
  intros pos Hleaf Hlh Htag.
  assert (Hbody : forall r : list Z,
             nk_subkeys r = nk_subkeys root -> is_leaf r = false ->
             subtree_body malloc_ok f stale rec r level
             = printNKName malloc_ok r level ;;
               list_loop malloc_ok f sizeof_uint32 (pos + sizeof_LH)
                         (lh_num_entries lh) (ri_entry malloc_ok f stale rec level)).
  { intros r Hsub Hl. unfold subtree_body. rewrite Hl, Hsub. fold pos.
    rewrite Hlh, (tag_ri_not_lh _ Htag), Htag. reflexivity. }
  split; [|split].
  - intros Hrec. rewrite (Hbody root eq_refl Hleaf).
    apply warnings_then.
    + unfold printNKName.
      destruct (malloc_ok (nk_name_len root + 1)); reflexivity.
    + apply warnings_list_loop. intros x. apply warnings_ri_entry. exact Hrec.
  - intros root' Hsub Hlen Hshown Hnz.
    assert (Hleaf' : is_leaf root' = false).
    { unfold is_leaf in *. rewrite Hsub.
      apply orb_false_iff in Hleaf. destruct Hleaf as [Hleaf H3].
      apply orb_false_iff in Hleaf. destruct Hleaf as [_ H2].
      rewrite H2, H3. apply Z.eqb_neq in Hnz. rewrite Hnz. reflexivity. }
    rewrite (Hbody root' Hsub Hleaf'), (Hbody root eq_refl Hleaf).
    unfold printNKName. rewrite Hlen, Hshown. reflexivity.
  - intros off lh2 stride Hlh2 Hkind Hm Hp. split; [|apply entry_offsets_length].
    unfold ri_entry. rewrite Hlh2.
    destruct Hkind as [[Hk ->] | (Hk1 & Hk2 & ->)].
    + rewrite Hk. apply list_loop_present; assumption.
    + rewrite Hk1, Hk2. apply list_loop_present; assumption.
Qed.

(** The root of [ri_hive 7] declares seven subkeys; its [ri] record leads to
    two lists of one key each. *)
Lemma ri_path_never_warns_witness :
  let f := Hives.ri_hive 7 in
  is_leaf (Hives.root_key 7) = false
  /\ warnings (fst (subtree_body Fixtures.generous f Fixtures.blank Hives.print_line
                                 (Hives.root_key 7) 0)) = []
  /\ subtree_body Fixtures.generous f Fixtures.blank Hives.print_line (Hives.root_key 7) 0
     = ([KeyLine 0 (bytes_of_string "ROOT");
         KeyLine 1 (bytes_of_string "A"); KeyLine 1 (bytes_of_string "Bee")],
        Returned).
Proof.
  intros f.
  pose proof (ri_path_never_warns
                Fixtures.generous f Fixtures.blank Hives.print_line
                (Hives.root_key 7)
                (bytes_of_string "ri" ++ [2; 0]) 0) as H.
  cbv zeta in H.
  destruct H as (Hw & _ & _).
  - reflexivity.
  - vm_compute. reflexivity.
  - reflexivity.
  - split; [reflexivity|]. split.
    + apply Hw. intros nk l. reflexivity.
    + vm_compute. reflexivity.
Defined.

(** ** Negative entry counts *)

(** C3, the code at the failing inputs.  Only the hash list referenced
    directly by a key is checked for a negative count (line 159).  An [ri]
    record, a secondary [lh] list and a secondary [li] list that declare -1
    entries reach the allocation with a size of 2^64 minus the element
    size: when the allocator grants the request the list is walked as an
    empty one and the walk returns; when it refuses, the run ends at the
    allocation check. *)
Theorem negative_count_only_checked_directly :
  let root := Hives.root_key 1 in
  let walk ok f := printSubTree ok f Fixtures.blank 3 root 0 in
  let line := KeyLine 0 (bytes_of_string "ROOT") in
  walk Fixtures.generous (Hives.negative_index_hive "lh")
  = ([line], Exited ExitNegCount)
  /\ walk Fixtures.generous (Hives.negative_index_hive "ri")
     = ([line], Returned)
  /\ walk Fixtures.generous (Hives.negative_sublist_hive "lh")
     = ([line], Returned)
  /\ walk Fixtures.generous (Hives.negative_sublist_hive "li")
     = ([line], Returned)
  /\ walk Fixtures.bounded (Hives.negative_index_hive "ri")
     = ([line], Exited ExitListAlloc)
  /\ walk Fixtures.bounded (Hives.negative_sublist_hive "lh")
     = ([line], Exited ExitListAlloc)
  /\ walk Fixtures.bounded (Hives.negative_sublist_hive "li")
     = ([line], Exited ExitListAlloc)
  /\ (-1 * sizeof_uint32) mod 2 ^ 64 = 2 ^ 64 - 4
  /\ main Fixtures.generous (Hives.negative_index_hive "ri") Fixtures.blank (fun _ => [])
          [] [] 1 3
     = ([PrintTime 1240428288; line], Returned)
  /\ main Fixtures.bounded (Hives.negative_index_hive "ri") Fixtures.blank (fun _ => [])
          [] [] 1 3
     = ([PrintTime 1240428288; line], Exited ExitListAlloc).
Proof. vm_compute. repeat split. Qed.

(** ** Termination of the walk *)

Lemma then_not_out_of_fuel (a b : run) :
  snd a <> OutOfFuel -> snd b <> OutOfFuel -> snd (a ;; b) <> OutOfFuel.
Proof.
  intros Ha Hb. rewrite then_status. destruct (snd a); assumption.
Qed.

Lemma for_each_not_out_of_fuel (body : Z -> run) (l : list Z) :
  (forall x, In x l -> snd (body x) <> OutOfFuel) ->
  snd (for_each body l) <> OutOfFuel.
Proof.
  induction l as [|x l IH]; intros H; cbn [for_each].
  - discriminate.
  - apply then_not_out_of_fuel.
    + apply H. left. reflexivity.
    + apply IH. intros y Hy. apply H. right. exact Hy.
Qed.

Section Termination.

Variable malloc_ok : Z -> bool.
Variable f : file.
Variable stale : Z -> list Z.

Lemma list_loop_not_out_of_fuel (stride pos n : Z) (body : Z -> run) :
  (forall x, In x (entry_offsets f pos stride n) -> snd (body x) <> OutOfFuel) ->
  snd (list_loop malloc_ok f stride pos n body) <> OutOfFuel.
Proof.
  intros H. unfold list_loop.
  destruct (negb (malloc_ok ((n * stride) mod 2 ^ 64))); [discriminate|].
  destruct (nread f pos stride n <? n); [discriminate|].
  apply for_each_not_out_of_fuel. exact H.
Qed.

Lemma visit_not_out_of_fuel (site : exit_site) (rec : list Z -> Z -> run)
      (level off : Z) :
  (forall kid, read_nk malloc_ok f stale off = Some kid ->
               snd (rec kid (level + 1)) <> OutOfFuel) ->
  snd (visit malloc_ok f stale site rec level off) <> OutOfFuel.
Proof.
  intros H. unfold visit.
  destruct (negb (malloc_ok sizeof_NK)); [discriminate|].
  destruct (read_nk malloc_ok f stale off) as [kid|]; [|discriminate].
  apply H. reflexivity.
Qed.

Lemma ri_entry_not_out_of_fuel (rec : list Z -> Z -> run) (level off : Z) :
  (forall c kid, In c (sublist_offsets f stale off) ->
                 read_nk malloc_ok f stale c = Some kid ->
                 snd (rec kid (level + 1)) <> OutOfFuel) ->
  snd (ri_entry malloc_ok f stale rec level off) <> OutOfFuel.
Proof.
  intros H. unfold ri_entry. unfold sublist_offsets in H.
  revert H. generalize (read_LH f stale (convOff off)). intros lh2 H.
  destruct (tag_is lh2 0 "lh" || tag_is lh2 0 "lf").
  - apply list_loop_not_out_of_fuel. intros c Hc.
    apply visit_not_out_of_fuel. intros kid. apply H. exact Hc.
  - destruct (tag_is lh2 0 "li"); [|discriminate].
    apply list_loop_not_out_of_fuel. intros c Hc.
    apply visit_not_out_of_fuel. intros kid. apply H. exact Hc.
Qed.

(** The body of the walk ends when the calls for the children do. *)
Lemma body_not_out_of_fuel (rec : list Z -> Z -> run) (root : list Z)
      (level : Z) :
  (forall kid, child malloc_ok f stale root kid ->
               snd (rec kid (level + 1)) <> OutOfFuel) ->
  snd (subtree_body malloc_ok f stale rec root level) <> OutOfFuel.
Proof.
  intros H.
  assert (H' : forall c kid, In c (subkey_offsets f stale root) ->
                             read_nk malloc_ok f stale c = Some kid ->
                             snd (rec kid (level + 1)) <> OutOfFuel).
  { intros c kid Hc Hr. apply H. exists c. split; assumption. }
  clear H. unfold subtree_body. unfold subkey_offsets in H'.
  apply then_not_out_of_fuel.
  { unfold printNKName.
    destruct (malloc_ok (nk_name_len root + 1)); discriminate. }
  destruct (is_leaf root); [discriminate|].
  revert H'. generalize (read_LH f stale (convOff (nk_subkeys root))).
  intros lh H'.
  destruct (tag_is lh 0 "lh" || tag_is lh 0 "lf").
  - destruct (lh_num_entries lh <? 0); [discriminate|].
    apply then_not_out_of_fuel.
    + destruct (negb (nk_num_subkeys root =? lh_num_entries lh)); discriminate.
    + apply list_loop_not_out_of_fuel. intros c Hc.
      apply visit_not_out_of_fuel. intros kid. apply H'. exact Hc.
  - destruct (tag_is lh 0 "ri"); [|discriminate].
    apply list_loop_not_out_of_fuel. intros o Ho.
    apply ri_entry_not_out_of_fuel. intros c kid Hc. apply H'.
    apply in_flat_map. exists o. split; assumption.
Qed.

(** One budget serves all the keys read at the offsets of a list. *)
Lemma common_budget (l : list Z) :
  (forall c kid, In c l -> read_nk malloc_ok f stale c = Some kid ->
     exists n, forall fuel level, (n <= fuel)%nat ->
                 snd (printSubTree malloc_ok f stale fuel kid level) <> OutOfFuel) ->
  exists n, forall c kid, In c l -> read_nk malloc_ok f stale c = Some kid ->
    forall fuel level, (n <= fuel)%nat ->
      snd (printSubTree malloc_ok f stale fuel kid level) <> OutOfFuel.
Proof.
  induction l as [|c l IH]; intros H.
  - exists 0%nat. intros c kid [].
  - destruct IH as [n Hn].
    { intros c' kid Hc. apply H. right. exact Hc. }
    destruct (read_nk malloc_ok f stale c) as [kid0|] eqn:E.
    + destruct (H c kid0 (or_introl eq_refl) E) as [m Hm].
      exists (Nat.max n m). intros c' kid [<- | Hc] Hr fuel level Hf.
      * rewrite E in Hr. injection Hr as <-. apply Hm. lia.
      * apply (Hn c' kid Hc Hr). lia.
    + exists n. intros c' kid [<- | Hc] Hr fuel level Hf.
      * rewrite E in Hr. discriminate.
      * apply (Hn c' kid Hc Hr). exact Hf.
Qed.

Lemma finite_below_budget (root : list Z) :
  finite_below malloc_ok f stale root ->
  exists n, forall fuel level, (n <= fuel)%nat ->
    snd (printSubTree malloc_ok f stale fuel root level) <> OutOfFuel.
Proof.
  induction 1 as [root _ IH].
  destruct (common_budget (subkey_offsets f stale root)) as [n Hn].
  { intros c kid Hc Hr. apply IH. exists c. split; assumption. }
  exists (S n). intros fuel level Hf.
  destruct fuel as [|fuel]; [lia|]. cbn [printSubTree].
  apply body_not_out_of_fuel. intros kid [c [Hc Hr]].
  apply (Hn c kid Hc Hr). lia.
Qed.

End Termination.

(** In [cyclic_hive] every key that points at the index at 0x74 has one
    child, the key read at 0x20. *)
Lemma cyclic_step (rec : list Z -> Z -> run) (nk : list Z) (level : Z) :
  nk_subkeys nk = 0x74 ->
  nk_num_subkeys nk = 1 ->
  subtree_body Fixtures.generous Hives.cyclic_hive Fixtures.blank rec nk level
  = emit (KeyLine level (shown_name nk)) ;;
    rec (Hives.key_at Hives.cyclic_hive 0x20) (level + 1) ;; skip.
Proof.
  intros Hsub Hnum.
  assert (Hleaf : is_leaf nk = false).
  { unfold is_leaf. rewrite Hsub, Hnum. reflexivity. }
  assert (Hlh : read_LH Hives.cyclic_hive Fixtures.blank (convOff (nk_subkeys nk))
                = bytes_of_string "lf" ++ [1; 0]).
  { rewrite Hsub. vm_compute. reflexivity. }
  rewrite (body_hash_list Fixtures.generous Hives.cyclic_hive Fixtures.blank
                          rec nk level
                          _ eq_refl Hleaf Hlh eq_refl eq_refl).
  - rewrite Hsub, Hnum.
    replace (entry_offsets Hives.cyclic_hive (convOff 0x74 + sizeof_LH)
                           sizeof_HashRec
                           (lh_num_entries (bytes_of_string "lf" ++ [1; 0])))
      with [0x20] by (vm_compute; reflexivity).
    change (1 =? lh_num_entries (bytes_of_string "lf" ++ [1; 0])) with true.
    cbn [for_each]. rewrite skip_then.
    rewrite (visit_read Fixtures.generous Hives.cyclic_hive Fixtures.blank
                        ExitChildAlloc0
                        rec level 0x20 (Hives.key_at Hives.cyclic_hive 0x20)
                        eq_refl);
      [reflexivity | vm_compute; reflexivity].
  - rewrite Hsub. vm_compute. repeat split; discriminate.
Qed.

Lemma cyclic_key_loops (fuel : nat) (nk : list Z) (level : Z) :
  nk_subkeys nk = 0x74 ->
  nk_num_subkeys nk = 1 ->
  snd (printSubTree Fixtures.generous Hives.cyclic_hive Fixtures.blank fuel nk level)
  = OutOfFuel
  /\ List.length
       (key_lines (fst (printSubTree Fixtures.generous Hives.cyclic_hive Fixtures.blank
                                     fuel nk level))) = fuel.
Proof.
  revert nk level. induction fuel as [|fuel IH]; intros nk level Hsub Hnum.
  - split; reflexivity.
  - cbn [printSubTree]. rewrite (cyclic_step _ nk level Hsub Hnum).
    destruct (IH (Hives.key_at Hives.cyclic_hive 0x20) (level + 1))
      as [Hs Hl]; [vm_compute; reflexivity | vm_compute; reflexivity |].
    rewrite emit_then.
    destruct (printSubTree Fixtures.generous Hives.cyclic_hive Fixtures.blank fuel
                           (Hives.key_at Hives.cyclic_hive 0x20) (level + 1))
      as [t s].
    cbn [fst snd] in Hs, Hl. subst s. unfold then_. cbn [fst snd].
    split; [reflexivity|].
    cbn [key_lines filter is_key_line List.length].
    unfold key_lines in Hl. rewrite Hl. reflexivity.
Qed.

(** When the header passes and the search finds a root, [main] prints the
    time stamp of the header and walks the root. *)
Lemma main_walks_root (malloc_ok : Z -> bool) (f : file) (stale : Z -> list Z)
      (fresh : nat -> list Z) (hdr0 bh0 : list Z)
      (scan_fuel walk_fuel : nat) (root : list Z) (pos : Z) :
  validHeader (overlay (fread f 0 sizeof_HiveHeader) hdr0) = ([], 1) ->
  find_root malloc_ok f fresh scan_fuel 0 (scan_start f bh0) = Found root pos ->
  main malloc_ok f stale fresh hdr0 bh0 scan_fuel walk_fuel
  = emit (PrintTime (printNTTime_seconds
                       (overlay (fread f 0 sizeof_HiveHeader) hdr0) 12)) ;;
    printSubTree malloc_ok f stale walk_fuel root 0.
Proof. intros Hv Hr. unfold main. rewrite Hv, Hr. reflexivity. Qed.

(** C1, as the claim states it, fails on [cyclic_hive], whose root lists
    itself as its only subkey: the header passes, the root scan finds the
    root, and the walk prints one more line with every unit of budget and
    never comes to an end. *)
Lemma cyclic_walk_never_ends :
  find_root Fixtures.generous Hives.cyclic_hive (fun _ => []) 1 0
            (scan_start Hives.cyclic_hive [])
  = Found (Hives.root_key 1) 4212
  /\ (forall fuel,
         List.length
           (key_lines (fst (printSubTree Fixtures.generous Hives.cyclic_hive Fixtures.blank
                                         fuel (Hives.root_key 1) 0))) = fuel)
  /\ ~ terminates Fixtures.generous Hives.cyclic_hive Fixtures.blank (Hives.root_key 1) 0
  /\ (forall walk_fuel,
         snd (main Fixtures.generous Hives.cyclic_hive Fixtures.blank (fun _ => []) [] []
                   1 walk_fuel) = OutOfFuel).
Proof.
  assert (Hfound : find_root Fixtures.generous Hives.cyclic_hive (fun _ => [])
                             1 0 (scan_start Hives.cyclic_hive [])
                   = Found (Hives.root_key 1) 4212)
    by (vm_compute; reflexivity).
  split; [exact Hfound|]. split; [|split].
  - intros fuel.
    apply (cyclic_key_loops fuel (Hives.root_key 1) 0); reflexivity.
  - intros [fuel H]. apply H.
    apply (cyclic_key_loops fuel (Hives.root_key 1) 0); reflexivity.
  - intros walk_fuel.
    assert (Hv : validHeader (overlay (fread Hives.cyclic_hive 0
                                             sizeof_HiveHeader) [])
                 = ([], 1)) by (vm_compute; reflexivity).
    rewrite (main_walks_root Fixtures.generous Hives.cyclic_hive
                             Fixtures.blank (fun _ => [])
                             [] [] 1 walk_fuel (Hives.root_key 1) 4212
                             Hv Hfound).
    rewrite emit_then. cbn [snd].
    apply (cyclic_key_loops walk_fuel (Hives.root_key 1) 0); reflexivity.
Qed.

(** ** Header validation *)

Lemma fold_xor_acc (ws : list Z) (a : Z) :
  fold_left Z.lxor ws a = Z.lxor a (fold_left Z.lxor ws 0).
Proof.
  revert a. induction ws as [|w ws IH]; intros a; cbn [fold_left].
  - rewrite Z.lxor_0_r. reflexivity.
  - rewrite IH, (IH (Z.lxor 0 w)), Z.lxor_0_l, Z.lxor_assoc. reflexivity.
Qed.

Lemma lxor_cancel_l (a x y : Z) : Z.lxor a x = Z.lxor a y -> x = y.
Proof.
  intros H.
  assert (E : Z.lxor a (Z.lxor a x) = Z.lxor a (Z.lxor a y)) by (rewrite H; reflexivity).
  rewrite <- !Z.lxor_assoc, Z.lxor_nilpotent, !Z.lxor_0_l in E. exact E.
Qed.

(** Changing one of the words changes the XOR of all of them. *)
Lemma fold_xor_one_changed (g g' : nat -> Z) (j n : nat) :
  (j < n)%nat ->
  g' j <> g j ->
  (forall k, k <> j -> g' k = g k) ->
  fold_left Z.lxor (map g' (seq 0 n)) 0 <> fold_left Z.lxor (map g (seq 0 n)) 0.
Proof.
  intros Hj Hne Heq.
  replace n with (j + S (n - S j))%nat by lia.
  rewrite seq_app. cbn [seq Nat.add]. rewrite !map_app. cbn [map].
  rewrite !fold_left_app. cbn [fold_left].
  assert (E1 : map g' (seq 0 j) = map g (seq 0 j)).
  { apply map_ext_in. intros k Hk. apply in_seq in Hk. apply Heq. lia. }
  assert (E2 : map g' (seq (S j) (n - S j)) = map g (seq (S j) (n - S j))).
  { apply map_ext_in. intros k Hk. apply in_seq in Hk. apply Heq. lia. }
  rewrite E1, E2.
  set (a := fold_left Z.lxor (map g (seq 0 j)) 0).
  rewrite (fold_xor_acc _ (Z.lxor a (g' j))), (fold_xor_acc _ (Z.lxor a (g j))).
  rewrite !(Z.lxor_comm _ (fold_left Z.lxor _ 0)).
  intros H. apply lxor_cancel_l in H. apply lxor_cancel_l in H.
  apply Hne. exact H.
Qed.

Lemma byte_at_range (buf : list Z) (i : Z) :
  Forall (fun b => 0 <= b < 256) buf -> 0 <= byte_at buf i < 256.
Proof.
  intros H. unfold byte_at.
  destruct (Nat.lt_ge_cases (Z.to_nat i) (List.length buf)) as [Hlt | Hge].
  - rewrite Forall_forall in H. apply H. apply nth_In. exact Hlt.
  - rewrite nth_overflow by exact Hge. lia.
Qed.

Lemma u32_at_bytes (buf : list Z) (off : Z) :
  u32_at buf off
  = byte_at buf (off + 0)
    + 256 * (byte_at buf (off + 1)
             + 256 * (byte_at buf (off + 2) + 256 * byte_at buf (off + 3))).
Proof. unfold u32_at, field. cbn [seq map le_value Z.of_nat Pos.of_succ_nat Pos.succ]. lia. Qed.

Lemma lxor_pow2_byte (b k : Z) :
  0 <= b < 256 -> 0 <= k < 8 ->
  0 <= Z.lxor b (2 ^ k) < 256 /\ Z.lxor b (2 ^ k) <> b.
Proof.
  intros Hb Hk. split.
  - assert (Hnn : 0 <= Z.lxor b (2 ^ k)).
    { apply Z.lxor_nonneg. split; intros _; [apply Z.pow_nonneg|]; lia. }
    split; [exact Hnn|].
    destruct (Z.eq_dec (Z.lxor b (2 ^ k)) 0) as [E | E]; [lia|].
    change 256 with (2 ^ 8). apply Z.log2_lt_pow2; [lia|].
    eapply Z.le_lt_trans; [apply Z.log2_lxor; [lia | apply Z.pow_nonneg; lia]|].
    apply Z.max_lub_lt.
    + destruct (Z.eq_dec b 0) as [-> | Hb0]; [reflexivity|].
      apply Z.log2_lt_pow2; lia.
    + rewrite Z.log2_pow2; lia.
  - intros E.
    assert (E' : Z.lxor b (2 ^ k) = Z.lxor b 0) by (rewrite Z.lxor_0_r; exact E).
    apply lxor_cancel_l in E'.
    assert (0 < 2 ^ k) by (apply Z.pow_pos_nonneg; lia). lia.
Qed.

Lemma flip_bit_length (hdr : list Z) (p : Z) :
  List.length (flip_bit hdr p) = List.length hdr.
Proof. unfold flip_bit. rewrite length_map, length_seq. reflexivity. Qed.

Lemma byte_at_flip_bit (hdr : list Z) (p m : Z) :
  0 <= m < Z.of_nat (List.length hdr) ->
  byte_at (flip_bit hdr p) m
  = if m =? p / 8 then Z.lxor (byte_at hdr m) (2 ^ (p mod 8))
    else byte_at hdr m.
Proof.
  intros Hm. unfold byte_at, flip_bit.
  set (g := fun k : nat => if Z.of_nat k =? p / 8
                           then Z.lxor (nth k hdr 0) (2 ^ (p mod 8))
                           else nth k hdr 0).
  rewrite (nth_indep _ 0 (g 0%nat)) by (rewrite length_map, length_seq; lia).
  rewrite map_nth, seq_nth by lia. cbn [Nat.add]. unfold g.
  rewrite Z2Nat.id by lia. reflexivity.
Qed.

Lemma byte_at_flip_bit_high (hdr : list Z) (p m : Z) :
  Z.of_nat (List.length hdr) <= m -> byte_at (flip_bit hdr p) m = byte_at hdr m.
Proof.
  intros Hm. unfold byte_at.
  rewrite !nth_overflow; [reflexivity | lia | rewrite flip_bit_length; lia].
Qed.

Lemma byte_at_flip_bit_other (hdr : list Z) (p m : Z) :
  0 <= m -> m <> p / 8 -> byte_at (flip_bit hdr p) m = byte_at hdr m.
Proof.
  intros H0 Hm.
  destruct (Z_lt_le_dec m (Z.of_nat (List.length hdr))) as [Hlt | Hge].
  - rewrite byte_at_flip_bit by lia.
    apply Z.eqb_neq in Hm. rewrite Hm. reflexivity.
  - apply byte_at_flip_bit_high. exact Hge.
Qed.

Lemma u32_at_shift4 (a b c d : Z) (rest : list Z) (off : Z) :
  0 <= off -> u32_at (a :: b :: c :: d :: rest) (off + 4) = u32_at rest off.
Proof.
  intros Hoff. rewrite !u32_at_bytes. unfold byte_at.
  assert (E : forall j, 0 <= j ->
                nth (Z.to_nat (off + 4 + j)) (a :: b :: c :: d :: rest) 0
                = nth (Z.to_nat (off + j)) rest 0).
  { intros j Hj.
    replace (Z.to_nat (off + 4 + j)) with (4 + Z.to_nat (off + j))%nat by lia.
    reflexivity. }
  rewrite !E by lia. reflexivity.
Qed.

(** The loop of [validHeader] computes the XOR of the words of the bytes in
    front of the checksum field. *)
Lemma fold_words_xor_words (n : nat) (hdr : list Z) :
  (4 * n <= List.length hdr)%nat ->
  fold_left Z.lxor (map (fun k => u32_at hdr (4 * Z.of_nat k)) (seq 0 n)) 0
  = xor_words (firstn (4 * n) hdr).
Proof.
  revert hdr. induction n as [|n IH]; intros hdr Hlen.
  - reflexivity.
  - destruct hdr as [|a [|b [|c [|d rest]]]]; cbn [List.length] in Hlen; try lia.
    replace (4 * S n)%nat with (S (S (S (S (4 * n))))) by lia.
    cbn [firstn xor_words seq map fold_left].
    rewrite <- seq_shift, map_map, fold_xor_acc, Z.lxor_0_l.
    change (4 * Z.of_nat 0) with 0. rewrite u32_at_four.
    f_equal; [cbn [le_value]; lia|].
    rewrite <- (IH rest) by lia. f_equal. apply map_ext. intros k.
    replace (4 * Z.of_nat (S k)) with (4 * Z.of_nat k + 4) by lia.
    apply u32_at_shift4. lia.
Qed.

Lemma header_cksum_xor_words (hdr : list Z) :
  List.length hdr = 512%nat ->
  header_cksum hdr = xor_words (firstn 508 hdr).
Proof.
  intros Hlen. unfold header_cksum, header_words.
  change (Z.to_nat ((sizeof_HiveHeader - 4) / 4)) with 127%nat.
  rewrite fold_words_xor_words by lia. reflexivity.
Qed.

Lemma tag_regf (hdr : list Z) :
  tag_is hdr 0 "regf" = true
  <-> byte_at hdr 0 = 114 /\ byte_at hdr 1 = 101
      /\ byte_at hdr 2 = 103 /\ byte_at hdr 3 = 102.
Proof.
  unfold tag_is. cbn.
  change (Z.of_nat (Pos.to_nat 114)) with 114.
  change (Z.of_nat (Pos.to_nat 101)) with 101.
  change (Z.of_nat (Pos.to_nat 103)) with 103.
  change (Z.of_nat (Pos.to_nat 102)) with 102.
  rewrite !andb_true_iff, !Z.eqb_eq. tauto.
Qed.

Lemma tag_regf_firstn (hdr : list Z) :
  (4 <= List.length hdr)%nat ->
  tag_is hdr 0 "regf" = true <-> firstn 4 hdr = bytes_of_string "regf".
Proof.
  intros Hlen.
  destruct hdr as [|a [|b [|c [|d rest]]]]; cbn [List.length] in Hlen; try lia.
  rewrite tag_regf.
  change (byte_at (a :: b :: c :: d :: rest) 0) with a.
  change (byte_at (a :: b :: c :: d :: rest) 1) with b.
  change (byte_at (a :: b :: c :: d :: rest) 2) with c.
  change (byte_at (a :: b :: c :: d :: rest) 3) with d.
  change (firstn 4 (a :: b :: c :: d :: rest)) with [a; b; c; d].
  change (bytes_of_string "regf") with [114; 101; 103; 102].
  split.
  - intros (Ha & Hb & Hc & Hd). subst. reflexivity.
  - intros H. injection H as Ha Hb Hc Hd. subst. repeat split.
Qed.

Section BitFlip.

Variable hdr : list Z.
Variable p : Z.
Hypothesis Hhdr : header_bytes hdr.
Hypothesis Hp : 0 <= p < 8 * (sizeof_HiveHeader - 4).

Let i := p / 8.

Lemma flipped_byte_index : 0 <= i < 508.
Proof.
  unfold i. unfold sizeof_HiveHeader in Hp. split.
  - apply Z.div_pos; lia.
  - apply Z.div_lt_upper_bound; lia.
Qed.

Lemma flipped_byte_changed :
  0 <= byte_at (flip_bit hdr p) i < 256
  /\ byte_at (flip_bit hdr p) i <> byte_at hdr i.
Proof.
  destruct Hhdr as [Hlen Hbytes]. pose proof flipped_byte_index as Hi.
  rewrite byte_at_flip_bit by lia. fold i. rewrite Z.eqb_refl.
  apply lxor_pow2_byte.
  - apply byte_at_range. exact Hbytes.
  - apply Z.mod_pos_bound. lia.
Qed.

Lemma word_unchanged (k : Z) :
  0 <= k -> k <> i / 4 ->
  u32_at (flip_bit hdr p) (4 * k) = u32_at hdr (4 * k).
Proof.
  intros Hk Hne. rewrite !u32_at_bytes.
  pose proof flipped_byte_index as Hi.
  pose proof (Z.div_mod i 4 ltac:(lia)) as Hd.
  pose proof (Z.mod_pos_bound i 4 ltac:(lia)) as Hm.
  rewrite !(byte_at_flip_bit_other hdr p) by (fold i; lia).
  reflexivity.
Qed.

Lemma word_changed :
  u32_at (flip_bit hdr p) (4 * (i / 4)) <> u32_at hdr (4 * (i / 4)).
Proof.
  destruct Hhdr as [Hlen Hbytes]. pose proof flipped_byte_index as Hi.
  pose proof (Z.div_mod i 4 ltac:(lia)) as Hd.
  pose proof (Z.mod_pos_bound i 4 ltac:(lia)) as Hm.
  destruct flipped_byte_changed as [Hr Hc].
  pose proof (byte_at_range hdr i Hbytes) as Hb.
  rewrite !u32_at_bytes.
  assert (Hcase : i mod 4 = 0 \/ i mod 4 = 1 \/ i mod 4 = 2 \/ i mod 4 = 3) by lia.
  destruct Hcase as [E | [E | [E | E]]];
    replace (4 * (i / 4)) with (i - i mod 4) by lia; rewrite E;
    repeat match goal with
           | |- context [byte_at (flip_bit hdr p) ?m] =>
               lazymatch m with
               | _ => first
                   [ replace m with i by lia; fail 1
                   | rewrite (byte_at_flip_bit_other hdr p m) by (fold i; lia) ]
               end
           end;
    repeat match goal with
           | |- context [byte_at ?h ?m] =>
               progress replace m with i by lia
           end;
    lia.
Qed.

Lemma checksum_field_unchanged :
  header_checksum_field (flip_bit hdr p) = header_checksum_field hdr.
Proof.
  unfold header_checksum_field. rewrite !u32_at_bytes.
  pose proof flipped_byte_index as Hi. unfold sizeof_HiveHeader.
  rewrite !(byte_at_flip_bit_other hdr p) by (fold i; lia).
  reflexivity.
Qed.

Lemma cksum_changed : header_cksum (flip_bit hdr p) <> header_cksum hdr.
Proof.
  pose proof flipped_byte_index as Hi.
  pose proof (Z.div_mod i 4 ltac:(lia)) as Hd.
  pose proof (Z.mod_pos_bound i 4 ltac:(lia)) as Hm.
  unfold header_cksum, header_words.
  change (Z.to_nat ((sizeof_HiveHeader - 4) / 4)) with 127%nat.
  apply (fold_xor_one_changed
           (fun k => u32_at hdr (4 * Z.of_nat k))
           (fun k => u32_at (flip_bit hdr p) (4 * Z.of_nat k))
           (Z.to_nat (i / 4))).
  - lia.
  - rewrite Z2Nat.id by lia. apply word_changed.
  - intros k Hk. apply word_unchanged; lia.
Qed.

(** Inverting a bit in front of the checksum field makes a header that
    passed fail. *)
Lemma flipped_header_fails :
  snd (validHeader hdr) = 1 -> snd (validHeader (flip_bit hdr p)) = 0.
Proof.
  unfold validHeader. intros Hvalid.
  destruct (negb (tag_is (flip_bit hdr p) 0 "regf")); [reflexivity|].
  destruct (negb (tag_is hdr 0 "regf")); [discriminate Hvalid|].
  destruct (header_cksum hdr =? header_checksum_field hdr) eqn:E;
    [|discriminate Hvalid].
  apply Z.eqb_eq in E.
  destruct (header_cksum (flip_bit hdr p)
            =? header_checksum_field (flip_bit hdr p)) eqn:E';
    [|reflexivity].
  apply Z.eqb_eq in E'. rewrite checksum_field_unchanged, <- E in E'.
  exfalso. apply cksum_changed. exact E'.
Qed.

End BitFlip.

(** C7: for a 512-byte header, validation prints "Invalid header." and
    fails exactly when the first four bytes are not "regf"; otherwise it
    prints "Bad checksum." and fails exactly when the XOR of the 4-byte
    words in front of the checksum word differs from that word; otherwise
    it succeeds.  Inverting any single bit in front of the checksum word of
    a header that passes makes validation fail. *)
Theorem header_validation (hdr : list Z) (Hhdr : header_bytes hdr) :
  (validHeader hdr = (["Invalid header."%string], 0)
   <-> firstn 4 hdr <> bytes_of_string "regf")
  /\ (validHeader hdr = (["Bad checksum."%string], 0)
      <-> firstn 4 hdr = bytes_of_string "regf"
          /\ xor_words (firstn 508 hdr) <> u32_at hdr 508)
  /\ (validHeader hdr = ([], 1)
      <-> firstn 4 hdr = bytes_of_string "regf"
          /\ xor_words (firstn 508 hdr) = u32_at hdr 508)
  /\ (forall p, 0 <= p < 8 * 508 ->
                snd (validHeader hdr) = 1 ->
                snd (validHeader (flip_bit hdr p)) = 0).
Proof.
  pose proof Hhdr as [Hlen _].
  pose proof (tag_regf_firstn hdr ltac:(lia)) as Hsig.
  pose proof (header_cksum_xor_words hdr Hlen) as Hx.
  assert (Hfield : header_checksum_field hdr = u32_at hdr 508) by reflexivity.
  unfold validHeader. rewrite Hx, Hfield.
  assert (Hflip : forall p, 0 <= p < 8 * 508 ->
                            snd (validHeader hdr) = 1 ->
                            snd (validHeader (flip_bit hdr p)) = 0).
  { intros p Hp Hv. apply flipped_header_fails; assumption. }
  unfold validHeader in Hflip. rewrite Hx, Hfield in Hflip.
  destruct (tag_is hdr 0 "regf") eqn:Et; cbn [negb] in *.
  - assert (Hs : firstn 4 hdr = bytes_of_string "regf") by (apply Hsig; reflexivity).
    destruct (xor_words (firstn 508 hdr) =? u32_at hdr 508) eqn:Ec;
      cbn [negb] in *;
      [apply Z.eqb_eq in Ec | apply Z.eqb_neq in Ec];
      (split; [|split; [|split; [|exact Hflip]]]);
      split; intros H; try discriminate H; try (split; assumption);
      try reflexivity; try (destruct H; contradiction); try contradiction.
  - assert (Hs : firstn 4 hdr <> bytes_of_string "regf").
    { intros H. apply Hsig in H. congruence. }
    (split; [|split; [|split; [|exact Hflip]]]);
      split; intros H; try discriminate H; try assumption;
      try reflexivity; try (destruct H; contradiction).
Qed.

Lemma example_header_bytes : header_bytes Fixtures.example_header.
Proof.
  split; [reflexivity|].
  apply Forall_forall. intros b Hb.
  assert (H : forallb (fun b => (0 <=? b) && (b <? 256)) Fixtures.example_header = true)
    by (vm_compute; reflexivity).
  rewrite forallb_forall in H. specialize (H b Hb).
  apply andb_prop in H. destruct H as [H1 H2].
  apply Z.leb_le in H1. apply Z.ltb_lt in H2. lia.
Defined.

Lemma header_validation_witness :
  validHeader Fixtures.example_header = ([], 1)
  /\ snd (validHeader (flip_bit Fixtures.example_header 100)) = 0.
Proof.
  destruct (header_validation Fixtures.example_header example_header_bytes)
    as (_ & _ & Hok & Hflip).
  assert (Hv : validHeader Fixtures.example_header = ([], 1)).
  { apply Hok. split; vm_compute; reflexivity. }
  split; [exact Hv|].
  apply Hflip; [lia | rewrite Hv; reflexivity].
Defined.

(** * Further properties of the code *)

(** ** An induction principle for the walker *)

Lemma c_string_no_nul (bs : list Z) : ~ In 0 (c_string bs).
Proof.
  induction bs as [|b bs IH]; cbn [c_string]; [intros []|].
  destruct (b =? 0) eqn:E; [intros []|].
  apply Z.eqb_neq in E. intros [H | H]; [congruence | exact (IH H)].
Qed.

Lemma lh_num_entries_range (lh : list Z) :
  - 2 ^ 15 <= lh_num_entries lh < 2 ^ 15.
Proof. unfold lh_num_entries, i16_at. apply (to_signed_range 16). lia. Qed.

Section WalkInduction.

Variable malloc_ok : Z -> bool.
Variable f : file.
Variable stale : Z -> list Z.

(** [R level] speaks about what follows the line of a key at [level],
    [B level] about the whole walk of such a key. *)
Variable R B : Z -> run -> Prop.

Hypothesis R_atom : forall level r, atom malloc_ok r -> R level r.
Hypothesis R_then : forall level a b, R level a -> R level b -> R level (a ;; b).
Hypothesis R_child : forall level r, B (level + 1) r -> R level r.
Hypothesis B_line : forall level name r,
    ~ In 0 name -> R level r -> B level (emit (KeyLine level name) ;; r).
Hypothesis B_name_alloc : forall level, B level ([Blanks level], Exited ExitNameAlloc).
Hypothesis B_fuel : forall level, B level (stop OutOfFuel).

Lemma for_each_shape (level : Z) (body : Z -> run) (l : list Z) :
  (forall x, R level (body x)) -> R level (for_each body l).
Proof.
  intros H. induction l as [|x l IH]; cbn [for_each].
  - apply R_atom. constructor.
  - apply R_then; [apply H | exact IH].
Qed.

Lemma list_loop_shape (level stride pos n : Z) (body : Z -> run) :
  (forall x, R level (body x)) ->
  R level (list_loop malloc_ok f stride pos n body).
Proof.
  intros H. unfold list_loop.
  destruct (negb (malloc_ok ((n * stride) mod 2 ^ 64)));
    [apply R_atom; constructor|].
  destruct (nread f pos stride n <? n); [apply R_atom; constructor|].
  apply for_each_shape. exact H.
Qed.

Lemma visit_shape (site : exit_site) (rec : list Z -> Z -> run)
      (level off : Z) :
  site = ExitChildAlloc0 \/ site = ExitChildAlloc ->
  (forall nk l, B l (rec nk l)) ->
  R level (visit malloc_ok f stale site rec level off).
Proof.
  intros Hsite Hrec. unfold visit.
  destruct (malloc_ok sizeof_NK) eqn:Em; cbn [negb].
  - destruct (read_nk malloc_ok f stale off) as [next|].
    + apply R_child. apply Hrec.
    + apply R_atom. constructor.
  - apply R_atom. destruct Hsite as [-> | ->]; constructor; exact Em.
Qed.

Lemma ri_entry_shape (rec : list Z -> Z -> run) (level off : Z) :
  (forall nk l, B l (rec nk l)) ->
  R level (ri_entry malloc_ok f stale rec level off).
Proof.
  intros Hrec. unfold ri_entry.
  generalize (read_LH f stale (convOff off)); intros lh2.
  destruct (tag_is lh2 0 "lh" || tag_is lh2 0 "lf").
  - apply list_loop_shape. intros x. apply visit_shape; [right; reflexivity | exact Hrec].
  - destruct (tag_is lh2 0 "li"); [|apply R_atom; constructor].
    apply list_loop_shape. intros x. apply visit_shape; [right; reflexivity | exact Hrec].
Qed.

Lemma body_shape (rec : list Z -> Z -> run) (root : list Z) (level : Z) :
  (forall nk l, B l (rec nk l)) ->
  B level (subtree_body malloc_ok f stale rec root level).
Proof.
  intros Hrec. unfold subtree_body, printNKName.
  destruct (malloc_ok (nk_name_len root + 1)); [|apply B_name_alloc].
  apply B_line; [apply c_string_no_nul|].
  destruct (is_leaf root) eqn:Eleaf; [apply R_atom; constructor|].
  generalize (read_LH f stale (convOff (nk_subkeys root))); intros lh.
  destruct (tag_is lh 0 "lh" || tag_is lh 0 "lf").
  - destruct (lh_num_entries lh <? 0) eqn:En; [apply R_atom; constructor|].
    apply Z.ltb_ge in En. apply R_then.
    + destruct (nk_num_subkeys root =? lh_num_entries lh) eqn:Eq; cbn [negb].
      * apply R_atom. constructor.
      * apply R_atom. apply Z.eqb_neq in Eq. constructor.
        -- exact Eq.
        -- unfold is_leaf in Eleaf. apply orb_false_iff in Eleaf.
           destruct Eleaf as [Eleaf _]. apply orb_false_iff in Eleaf.
           destruct Eleaf as [Eleaf _]. apply Z.eqb_neq in Eleaf. exact Eleaf.
        -- pose proof (lh_num_entries_range lh). lia.
    + apply list_loop_shape. intros x.
      apply visit_shape; [left; reflexivity | exact Hrec].
  - destruct (tag_is lh 0 "ri"); [|apply R_atom; constructor].
    apply list_loop_shape. intros x. apply ri_entry_shape. exact Hrec.
Qed.

Lemma walk_shape (fuel : nat) (root : list Z) (level : Z) :
  B level (printSubTree malloc_ok f stale fuel root level).
Proof.
  revert root level. induction fuel as [|fuel IH]; intros root level.
  - apply B_fuel.
  - cbn [printSubTree]. apply body_shape. exact IH.
Qed.

End WalkInduction.

(** ** What the walker prints and how it leaves *)

Lemma then_events (a b : run) (e : event) :
  In e (fst (a ;; b)) -> In e (fst a) \/ In e (fst b).
Proof.
  destruct a as [t s]. unfold then_. cbn [fst snd].
  destruct s; cbn [fst]; try (intros H; left; exact H).
  intros H. apply in_app_or in H. exact H.
Qed.



(** X2: the first thing the walk of a key prints is indented by the key's
    own level, and every line after it is indented by more; no printed name
    contains a NUL character. *)
Theorem walk_indentation
        (malloc_ok : Z -> bool) (f : file) (stale : Z -> list Z) (fuel : nat)
        (root : list Z) (level : Z) (e : event) (t : list event) :
  fst (printSubTree malloc_ok f stale fuel root level) = e :: t ->
  event_tabs e = Some level
  /\ deeper level t
  /\ (forall tabs name, In (KeyLine tabs name) (e :: t) -> ~ In 0 name).
Proof.
  set (names_ok := fun r : run =>
         forall tabs name, In (KeyLine tabs name) (fst r) -> ~ In 0 name).
  assert (H : (match fst (printSubTree malloc_ok f stale fuel root level) with
               | [] => True
               | e :: t => event_tabs e = Some level /\ deeper level t
               end)
              /\ names_ok (printSubTree malloc_ok f stale fuel root level)).
  { apply (walk_shape malloc_ok f stale
             (fun l r => deeper l (fst r) /\ names_ok r)
             (fun l r => (match fst r with
                          | [] => True
                          | e :: t => event_tabs e = Some l /\ deeper l t
                          end) /\ names_ok r)).
    - intros l r Hr. split.
      + intros e0 tabs Hin Ht.
        destruct Hr; cbn in Hin;
          repeat (destruct Hin as [<- | Hin]; [discriminate Ht|]);
          destruct Hin.
      + intros tabs name Hin.
        destruct Hr; cbn in Hin;
          repeat (destruct Hin as [Hin | Hin]; [discriminate Hin|]);
          destruct Hin.
    - intros l a b [Ha Na] [Hb Nb]. split.
      + intros e0 tabs Hin Ht. apply then_events in Hin.
        destruct Hin as [Hin | Hin]; [eapply Ha | eapply Hb]; eassumption.
      + intros tabs name Hin. apply then_events in Hin.
        destruct Hin as [Hin | Hin]; [eapply Na | eapply Nb]; eassumption.
    - intros l r [Hr Nr]. split; [|exact Nr].
      intros e0 tabs Hin Ht. destruct (fst r) as [|e1 t1]; [destruct Hin|].
      destruct Hr as [H1 H2]. destruct Hin as [<- | Hin].
      + rewrite H1 in Ht. injection Ht as <-. lia.
      + specialize (H2 e0 tabs Hin Ht). lia.
    - intros l name r Hname [Hr Nr]. rewrite emit_then. cbn [fst]. split.
      + split; [reflexivity | exact Hr].
      + intros tabs name' [Hin | Hin].
        * injection Hin as _ <-. exact Hname.
        * eapply Nr. exact Hin.
    - intros l. split; [split; [reflexivity | intros e0 tabs []]|].
      intros tabs name [Hin | []]. discriminate Hin.
    - intros l. split; [exact I | intros tabs name []]. }
  intros E. rewrite E in H. destruct H as [[H1 H2] H3].
  split; [exact H1|]. split; [exact H2|].
  unfold names_ok in H3. rewrite E in H3. exact H3.
Qed.

Lemma walk_indentation_witness :
  event_tabs (KeyLine 0 (bytes_of_string "ROOT")) = Some 0
  /\ deeper 0 [PrintWarn 3 2; KeyLine 1 (bytes_of_string "A");
               KeyLine 1 (bytes_of_string "Bee")].
Proof.
  destruct (walk_indentation
              Fixtures.generous (Hives.tree_hive 3) Fixtures.blank 2 (Hives.root_key 3) 0
              (KeyLine 0 (bytes_of_string "ROOT"))
              [PrintWarn 3 2; KeyLine 1 (bytes_of_string "A");
               KeyLine 1 (bytes_of_string "Bee")])
    as (H1 & H2 & _).
  - vm_compute. reflexivity.
  - split; [exact H1 | exact H2].
Defined.

(** X3: the walk prints a mismatch warning only with two different numbers:
    a declared subkey count that is not zero and an entry count that is
    not negative. *)
Theorem walk_warnings_are_mismatches
        (malloc_ok : Z -> bool) (f : file) (stale : Z -> list Z) (fuel : nat)
        (root : list Z) (level : Z) (a b : Z) :
  In (PrintWarn a b) (fst (printSubTree malloc_ok f stale fuel root level)) ->
  a <> b /\ a <> 0 /\ 0 <= b < 2 ^ 15.
Proof.
  revert a b.
  apply (walk_shape malloc_ok f stale
           (fun _ r => forall a b, In (PrintWarn a b) (fst r) ->
                                   a <> b /\ a <> 0 /\ 0 <= b < 2 ^ 15)
           (fun _ r => forall a b, In (PrintWarn a b) (fst r) ->
                                   a <> b /\ a <> 0 /\ 0 <= b < 2 ^ 15)).
  - intros _ r Hr a b Hin.
    destruct Hr; cbn in Hin;
      repeat (destruct Hin as [Hin | Hin];
              [try discriminate Hin; inversion Hin; subst; auto|]);
      destruct Hin.
  - intros _ x y Hx Hy a b Hin. apply then_events in Hin.
    destruct Hin as [Hin | Hin]; [apply Hx | apply Hy]; exact Hin.
  - intros _ r Hr. exact Hr.
  - intros l name r _ Hr a b Hin. rewrite emit_then in Hin.
    destruct Hin as [Hin | Hin]; [discriminate Hin | apply Hr; exact Hin].
  - intros l a b [Hin | []]. discriminate Hin.
  - intros l a b [].
Qed.

Lemma walk_warnings_are_mismatches_witness : 3 <> 2 /\ 3 <> 0 /\ 0 <= 2 < 2 ^ 15.
Proof.
  apply (walk_warnings_are_mismatches
           Fixtures.generous (Hives.tree_hive 3) Fixtures.blank 2 (Hives.root_key 3) 0 3 2).
  vm_compute. right. left. reflexivity.
Defined.

(** X4: whatever the walk prints is a sequence of key lines and warnings,
    followed by at most one other output (an error text, or the blanks of
    a line whose name could not be allocated), and after that output the
    process has left through [exit].  A walk that returns has printed key
    lines and warnings only. *)
Theorem walk_errors_are_final
        (malloc_ok : Z -> bool) (f : file) (stale : Z -> list Z) (fuel : nat)
        (root : list Z) (level : Z) :
  let r := printSubTree malloc_ok f stale fuel root level in
  (exists t tail,
      fst r = t ++ tail /\ forallb is_progress t = true
      /\ (tail = []
          \/ exists e s, tail = [e] /\ is_progress e = false
                         /\ snd r = Exited s))
  /\ (snd r = Returned -> forallb is_progress (fst r) = true).
Proof.
  set (G := fun r : run =>
         exists t tail,
           fst r = t ++ tail /\ forallb is_progress t = true
           /\ (tail = []
               \/ exists e s, tail = [e] /\ is_progress e = false
                              /\ snd r = Exited s)).
  assert (HG : G (printSubTree malloc_ok f stale fuel root level)).
  { apply (walk_shape malloc_ok f stale (fun _ => G) (fun _ => G)).
    - intros _ r Hr. destruct Hr;
        try (exists [], []; repeat split; left; reflexivity).
      + exists [PrintWarn a b], []. repeat split. left. reflexivity.
      + exists [], [PrintText "Unexpected EOF while reading file."].
        repeat split. right. eexists. eexists. repeat split.
      + exists [], [PrintText "Fatal: encountered unknown subentry of ri list"].
        repeat split. right. eexists. eexists. repeat split.
      + exists [], [PrintText "Fatal: encountered unknown subkey type"].
        repeat split. right. eexists. eexists. repeat split.
    - intros _ a b Ha Hb. destruct a as [ta sa]. unfold then_. cbn [fst snd].
      destruct sa; try exact Ha.
      destruct Ha as (t1 & tail1 & E1 & P1 & [-> | (e & s & _ & _ & Hs)]);
        [|discriminate Hs].
      destruct Hb as (t2 & tail2 & E2 & P2 & T2). cbn [fst snd] in *.
      exists (t1 ++ t2), tail2. rewrite app_nil_r in E1. subst ta.
      rewrite E2, app_assoc, forallb_app, P1, P2. repeat split. exact T2.
    - intros _ r Hr. exact Hr.
    - intros l name r _ (t & tail & E & P & T). rewrite emit_then.
      exists (KeyLine l name :: t), tail. cbn [fst snd]. rewrite E.
      repeat split; [exact P | exact T].
    - intros l. exists [], [Blanks l]. repeat split. right.
      eexists. eexists. repeat split.
    - intros _. exists [], []. repeat split. left. reflexivity. }
  intros r. split; [exact HG|].
  intros Hret. destruct HG as (t & tail & E & P & [-> | (e & s & _ & _ & Hs)]).
  - fold r in E. rewrite E, app_nil_r. exact P.
  - fold r in Hs. rewrite Hs in Hret. discriminate Hret.
Qed.

Lemma walk_errors_are_final_witness :
  forallb is_progress
          (fst (printSubTree Fixtures.generous (Hives.tree_hive 3) Fixtures.blank 2
                             (Hives.root_key 3) 0)) = true.
Proof.
  apply (walk_errors_are_final
           Fixtures.generous (Hives.tree_hive 3) Fixtures.blank 2 (Hives.root_key 3) 0).
  vm_compute. reflexivity.
Defined.

(** ** The budget of the walk *)

Lemma refines_refl (r : run) : refines r r.
Proof. split; [reflexivity | exists []; rewrite app_nil_r; reflexivity]. Qed.

Lemma then_refines (a a' b b' : run) :
  refines a a' -> refines b b' -> refines (a ;; b) (a' ;; b').
Proof.
  intros [Ha [ra Ea]] [Hb [rb Eb]].
  destruct a as [ta sa]. cbn [fst snd] in *.
  destruct sa.
  - rewrite (Ha ltac:(discriminate)). unfold then_. cbn [fst snd]. split.
    + intros Hs. rewrite (Hb Hs). reflexivity.
    + exists rb. rewrite Eb, app_assoc. reflexivity.
  - rewrite (Ha ltac:(discriminate)). apply refines_refl.
  - rewrite (Ha ltac:(discriminate)). apply refines_refl.
  - split; [intros Hs; exfalso; apply Hs; reflexivity|].
    unfold then_ at 2. cbn [fst snd]. unfold then_.
    destruct (snd a'); cbn [fst].
    + exists (ra ++ fst b'). rewrite Ea, app_assoc. reflexivity.
    + exists ra. exact Ea.
    + exists ra. exact Ea.
    + exists ra. exact Ea.
Qed.

Lemma for_each_refines (body body' : Z -> run) (l : list Z) :
  (forall x, refines (body x) (body' x)) ->
  refines (for_each body l) (for_each body' l).
Proof.
  intros H. induction l as [|x l IH]; cbn [for_each].
  - apply refines_refl.
  - apply then_refines; [apply H | exact IH].
Qed.

Section Budget.

Variable malloc_ok : Z -> bool.
Variable f : file.
Variable stale : Z -> list Z.

Lemma list_loop_refines (stride pos n : Z) (body body' : Z -> run) :
  (forall x, refines (body x) (body' x)) ->
  refines (list_loop malloc_ok f stride pos n body)
          (list_loop malloc_ok f stride pos n body').
Proof.
  intros H. unfold list_loop.
  destruct (negb (malloc_ok ((n * stride) mod 2 ^ 64))); [apply refines_refl|].
  destruct (nread f pos stride n <? n); [apply refines_refl|].
  apply for_each_refines. exact H.
Qed.

Lemma visit_refines (site : exit_site) (rec rec' : list Z -> Z -> run)
      (level off : Z) :
  (forall nk l, refines (rec nk l) (rec' nk l)) ->
  refines (visit malloc_ok f stale site rec level off)
          (visit malloc_ok f stale site rec' level off).
Proof.
  intros H. unfold visit.
  destruct (negb (malloc_ok sizeof_NK)); [apply refines_refl|].
  destruct (read_nk malloc_ok f stale off); [apply H | apply refines_refl].
Qed.

Lemma ri_entry_refines (rec rec' : list Z -> Z -> run) (level off : Z) :
  (forall nk l, refines (rec nk l) (rec' nk l)) ->
  refines (ri_entry malloc_ok f stale rec level off)
          (ri_entry malloc_ok f stale rec' level off).
Proof.
  intros H. unfold ri_entry.
  generalize (read_LH f stale (convOff off)); intros lh2.
  destruct (tag_is lh2 0 "lh" || tag_is lh2 0 "lf").
  - apply list_loop_refines. intros x. apply visit_refines. exact H.
  - destruct (tag_is lh2 0 "li"); [|apply refines_refl].
    apply list_loop_refines. intros x. apply visit_refines. exact H.
Qed.

Lemma body_refines (rec rec' : list Z -> Z -> run) (root : list Z) (level : Z) :
  (forall nk l, refines (rec nk l) (rec' nk l)) ->
  refines (subtree_body malloc_ok f stale rec root level)
          (subtree_body malloc_ok f stale rec' root level).
Proof.
  intros H. unfold subtree_body.
  apply then_refines; [apply refines_refl|].
  destruct (is_leaf root); [apply refines_refl|].
  generalize (read_LH f stale (convOff (nk_subkeys root))); intros lh.
  destruct (tag_is lh 0 "lh" || tag_is lh 0 "lf").
  - destruct (lh_num_entries lh <? 0); [apply refines_refl|].
    apply then_refines; [apply refines_refl|].
    apply list_loop_refines. intros x. apply visit_refines. exact H.
  - destruct (tag_is lh 0 "ri"); [|apply refines_refl].
    apply list_loop_refines. intros x. apply ri_entry_refines. exact H.
Qed.

Lemma walk_refines (fuel fuel' : nat) (root : list Z) (level : Z) :
  (fuel <= fuel')%nat ->
  refines (printSubTree malloc_ok f stale fuel root level)
          (printSubTree malloc_ok f stale fuel' root level).
Proof.
  revert fuel' root level.
  induction fuel as [|fuel IH]; intros fuel' root level Hle.
  - split; [intros H; exfalso; apply H; reflexivity|].
    exists (fst (printSubTree malloc_ok f stale fuel' root level)). reflexivity.
  - destruct fuel' as [|fuel']; [lia|]. cbn [printSubTree].
    apply body_refines. intros nk l. apply IH. lia.
Qed.

End Budget.

(** C1 (amended): when every chain of children below a key ends, that is,
    when no subkey offset reachable from the key, in the records as the
    walk reads them, leads back to a key on the path to it, the walk of
    the key terminates: from some budget on the walk never runs out, and
    it is one and the same run, a finite output together with the way the
    walk ended. *)
Theorem walk_terminates_on_finite_tree
        (malloc_ok : Z -> bool) (f : file) (stale : Z -> list Z)
        (root : list Z) (level : Z) :
  finite_below malloc_ok f stale root ->
  terminates malloc_ok f stale root level
  /\ (exists n, forall fuel, (n <= fuel)%nat ->
        exists out s, printSubTree malloc_ok f stale fuel root level = (out, s)
                      /\ s <> OutOfFuel)
  /\ (exists n out s,
        s <> OutOfFuel
        /\ forall fuel, (n <= fuel)%nat ->
             printSubTree malloc_ok f stale fuel root level = (out, s)).
Proof.
  intros Hfin.
  destruct (finite_below_budget malloc_ok f stale root Hfin) as [n Hn].
  split; [|split].
  - exists n. apply Hn. lia.
  - exists n. intros fuel Hf. specialize (Hn fuel level Hf).
    destruct (printSubTree malloc_ok f stale fuel root level) as [out s].
    exists out, s. split; [reflexivity | exact Hn].
  - exists n, (fst (printSubTree malloc_ok f stale n root level)),
           (snd (printSubTree malloc_ok f stale n root level)).
    split; [apply Hn; lia|].
    intros fuel Hf.
    destruct (walk_refines malloc_ok f stale n fuel root level Hf) as [Hr _].
    rewrite Hr by (apply Hn; lia).
    apply surjective_pairing.
Qed.

Lemma tree_hive_finite :
  finite_below Fixtures.generous (Hives.tree_hive 2) Fixtures.blank
               (Hives.root_key 2).
Proof.
  constructor. intros kid [off [Hin Hr]].
  vm_compute in Hin.
  destruct Hin as [<- | [<- | []]]; vm_compute in Hr; injection Hr as <-;
    constructor; intros kid' [off' [Hin' _]]; vm_compute in Hin';
    destruct Hin'.
Defined.

Lemma walk_terminates_on_finite_tree_witness :
  terminates Fixtures.generous (Hives.tree_hive 2) Fixtures.blank
             (Hives.root_key 2) 0.
Proof.
  apply (walk_terminates_on_finite_tree
           Fixtures.generous (Hives.tree_hive 2) Fixtures.blank
           (Hives.root_key 2) 0).
  exact tree_hive_finite.
Defined.

(** ** The level of the walk *)

Lemma shift_then (d : Z) (a b : run) :
  shift_run d (a ;; b) = shift_run d a ;; shift_run d b.
Proof.
  destruct a as [ta sa]. unfold shift_run, then_. cbn [fst snd].
  destruct sa; cbn [fst snd]; try reflexivity.
  rewrite map_app. reflexivity.
Qed.

Lemma shift_for_each (d : Z) (body body' : Z -> run) (l : list Z) :
  (forall x, body' x = shift_run d (body x)) ->
  for_each body' l = shift_run d (for_each body l).
Proof.
  intros H. induction l as [|x l IH]; cbn [for_each]; [reflexivity|].
  rewrite shift_then, H, IH. reflexivity.
Qed.

Section Level.

Variable malloc_ok : Z -> bool.
Variable f : file.
Variable stale : Z -> list Z.
Variable d : Z.

Lemma shift_list_loop (stride pos n : Z) (body body' : Z -> run) :
  (forall x, body' x = shift_run d (body x)) ->
  list_loop malloc_ok f stride pos n body'
  = shift_run d (list_loop malloc_ok f stride pos n body).
Proof.
  intros H. unfold list_loop.
  destruct (negb (malloc_ok ((n * stride) mod 2 ^ 64))); [reflexivity|].
  destruct (nread f pos stride n <? n); [reflexivity|].
  apply shift_for_each. exact H.
Qed.

Lemma shift_visit (site : exit_site) (rec : list Z -> Z -> run) (level off : Z) :
  (forall nk l, rec nk (l + d) = shift_run d (rec nk l)) ->
  visit malloc_ok f stale site rec (level + d) off
  = shift_run d (visit malloc_ok f stale site rec level off).
Proof.
  intros H. unfold visit.
  destruct (negb (malloc_ok sizeof_NK)); [reflexivity|].
  destruct (read_nk malloc_ok f stale off) as [next|]; [|reflexivity].
  replace (level + d + 1) with (level + 1 + d) by lia. apply H.
Qed.

Lemma shift_ri_entry (rec : list Z -> Z -> run) (level off : Z) :
  (forall nk l, rec nk (l + d) = shift_run d (rec nk l)) ->
  ri_entry malloc_ok f stale rec (level + d) off
  = shift_run d (ri_entry malloc_ok f stale rec level off).
Proof.
  intros H. unfold ri_entry.
  generalize (read_LH f stale (convOff off)); intros lh2.
  destruct (tag_is lh2 0 "lh" || tag_is lh2 0 "lf").
  - apply shift_list_loop. intros x. apply shift_visit. exact H.
  - destruct (tag_is lh2 0 "li"); [|reflexivity].
    apply shift_list_loop. intros x. apply shift_visit. exact H.
Qed.

Lemma shift_body (rec : list Z -> Z -> run) (root : list Z) (level : Z) :
  (forall nk l, rec nk (l + d) = shift_run d (rec nk l)) ->
  subtree_body malloc_ok f stale rec root (level + d)
  = shift_run d (subtree_body malloc_ok f stale rec root level).
Proof.
  intros H. unfold subtree_body. rewrite shift_then. f_equal.
  { unfold printNKName.
    destruct (malloc_ok (nk_name_len root + 1)); reflexivity. }
  destruct (is_leaf root); [reflexivity|].
  generalize (read_LH f stale (convOff (nk_subkeys root))); intros lh.
  destruct (tag_is lh 0 "lh" || tag_is lh 0 "lf").
  - destruct (lh_num_entries lh <? 0); [reflexivity|].
    rewrite shift_then. f_equal.
    + destruct (negb (nk_num_subkeys root =? lh_num_entries lh)); reflexivity.
    + apply shift_list_loop. intros x. apply shift_visit. exact H.
  - destruct (tag_is lh 0 "ri"); [|reflexivity].
    apply shift_list_loop. intros x. apply shift_ri_entry. exact H.
Qed.

End Level.

(** X6: the level at which a key is walked has no influence on the
    traversal: the walk at level [level + d] prints what the walk at
    [level] prints with every indentation increased by [d], and ends in the
    same way. *)
Theorem walk_level_shift
        (malloc_ok : Z -> bool) (f : file) (stale : Z -> list Z)
        (d : Z) (fuel : nat)
        (root : list Z) (level : Z) :
  printSubTree malloc_ok f stale fuel root (level + d)
  = shift_run d (printSubTree malloc_ok f stale fuel root level).
Proof.
  revert root level. induction fuel as [|fuel IH]; intros root level.
  - reflexivity.
  - cbn [printSubTree]. apply shift_body. exact IH.
Qed.

(** ** The budget of the program *)

Lemma find_root_settled (malloc_ok : Z -> bool) (f : file)
      (fresh : nat -> list Z) (n m k : nat) (st : scan_state) :
  (forall st', find_root malloc_ok f fresh n k st <> Continue st') ->
  find_root malloc_ok f fresh (n + m) k st = find_root malloc_ok f fresh n k st.
Proof.
  intros H. rewrite find_root_app.
  destruct (find_root malloc_ok f fresh n k st) as [st'| |]; try reflexivity.
  exfalso. apply (H st'). reflexivity.
Qed.

(** Once [main] has come to an end within its budgets (it returned or
    left through an exit), larger budgets for the search loop and for the
    walk give the same output and the same end. *)
Theorem main_budget_monotone
        (malloc_ok : Z -> bool) (f : file) (stale : Z -> list Z)
        (fresh : nat -> list Z)
        (hdr0 bh0 : list Z) (scan_fuel scan_fuel' walk_fuel walk_fuel' : nat) :
  (scan_fuel <= scan_fuel')%nat ->
  (walk_fuel <= walk_fuel')%nat ->
  snd (main malloc_ok f stale fresh hdr0 bh0 scan_fuel walk_fuel) <> OutOfFuel ->
  main malloc_ok f stale fresh hdr0 bh0 scan_fuel' walk_fuel'
  = main malloc_ok f stale fresh hdr0 bh0 scan_fuel walk_fuel.
Proof.
  intros Hs Hw. unfold main.
  destruct (validHeader (overlay (fread f 0 sizeof_HiveHeader) hdr0))
    as [text valid].
  destruct (valid =? 0); [reflexivity|].
  rewrite !emit_then. cbn [snd].
  replace scan_fuel' with (scan_fuel + (scan_fuel' - scan_fuel))%nat by lia.
  destruct (find_root malloc_ok f fresh scan_fuel 0 (scan_start f bh0))
    as [st'|root pos|s] eqn:E.
  - intros H. exfalso. apply H. reflexivity.
  - rewrite find_root_settled by (rewrite E; discriminate). rewrite E.
    intros H.
    destruct (walk_refines malloc_ok f stale walk_fuel walk_fuel' root 0 Hw) as [Hr _].
    rewrite (Hr H). reflexivity.
  - rewrite find_root_settled by (rewrite E; discriminate). rewrite E.
    reflexivity.
Qed.

Lemma main_budget_monotone_witness :
  main Fixtures.generous (Hives.tree_hive 3) Fixtures.blank (fun _ => []) [] [] 40 50
  = main Fixtures.generous (Hives.tree_hive 3) Fixtures.blank (fun _ => []) [] [] 1 2.
Proof.
  apply (main_budget_monotone
           Fixtures.generous (Hives.tree_hive 3) Fixtures.blank (fun _ => [])
           [] [] 1 40 2 50).
  - lia.
  - lia.
  - vm_compute. discriminate.
Defined.

(** X7: a header that fails validation ends [main] with status 1 before
    anything behind the header is looked at: the outcome is one of two
    fixed outputs and is the same for every file with the same first 512
    bytes, every allocator and every budget. *)
Theorem bad_header_stops_main
        (malloc_ok malloc_ok' : Z -> bool) (f f' : file)
        (stale stale' : Z -> list Z)
        (fresh fresh' : nat -> list Z) (hdr0 bh0 bh0' : list Z)
        (scan_fuel scan_fuel' walk_fuel walk_fuel' : nat) :
  fread f 0 sizeof_HiveHeader = fread f' 0 sizeof_HiveHeader ->
  snd (validHeader (overlay (fread f 0 sizeof_HiveHeader) hdr0)) = 0 ->
  main malloc_ok' f' stale' fresh' hdr0 bh0' scan_fuel' walk_fuel'
  = main malloc_ok f stale fresh hdr0 bh0 scan_fuel walk_fuel
  /\ exists reason,
      (reason = "Invalid header."%string \/ reason = "Bad checksum."%string)
      /\ main malloc_ok f stale fresh hdr0 bh0 scan_fuel walk_fuel
         = ([PrintText reason;
             PrintText "Registry file failed basic validation."],
            Exited ExitBadHeader)
      /\ exit_code ExitBadHeader = 1.
Proof.
  intros Hsame Hbad. unfold main. rewrite <- Hsame.
  revert Hbad. unfold validHeader.
  destruct (negb (tag_is (overlay (fread f 0 sizeof_HiveHeader) hdr0) 0 "regf")).
  - intros _. split; [reflexivity|].
    exists "Invalid header."%string. repeat split. left. reflexivity.
  - destruct (negb (header_cksum (overlay (fread f 0 sizeof_HiveHeader) hdr0)
                    =? header_checksum_field
                         (overlay (fread f 0 sizeof_HiveHeader) hdr0))).
    + intros _. split; [reflexivity|].
      exists "Bad checksum."%string. repeat split. right. reflexivity.
    + intros H. discriminate H.
Qed.

Lemma bad_header_stops_main_witness :
  main Fixtures.generous (flip_bit (Hives.tree_hive 3) 100) Fixtures.blank (fun _ => []) [] []
       7 7
  = main Fixtures.bounded (flip_bit (Hives.tree_hive 3) 100 ++ [1; 2; 3]) Fixtures.blank
         (fun _ => [5]) [] [9] 0 0.
Proof.
  apply (bad_header_stops_main
           Fixtures.bounded Fixtures.generous
           (flip_bit (Hives.tree_hive 3) 100 ++ [1; 2; 3])
           (flip_bit (Hives.tree_hive 3) 100)
           Fixtures.blank Fixtures.blank
           (fun _ => [5]) (fun _ => []) [] [9] [] 0 7 0 7).
  - vm_compute. reflexivity.
  - vm_compute. reflexivity.
Defined.

(** ** Index records the walker does not know *)

Lemma tag_li_not_others (lh : list Z) :
  tag_is lh 0 "li" = true ->
  tag_is lh 0 "lh" || tag_is lh 0 "lf" = false /\ tag_is lh 0 "ri" = false.
Proof.
  unfold tag_is. cbn.
  change (Z.of_nat (Pos.to_nat 114)) with 114.
  change (Z.of_nat (Pos.to_nat 108)) with 108.
  change (Z.of_nat (Pos.to_nat 105)) with 105.
  change (Z.of_nat (Pos.to_nat 104)) with 104.
  change (Z.of_nat (Pos.to_nat 102)) with 102.
  intros H. apply andb_prop in H. destruct H as [H1 H2].
  apply andb_prop in H2. destruct H2 as [H2 _].
  apply Z.eqb_eq in H1. apply Z.eqb_eq in H2. rewrite H1, H2. split; reflexivity.
Qed.

(** X8: a key whose index record is neither an [lh]/[lf] list nor an [ri]
    record ends the run: the walk prints the key's line and the text
    "Fatal: encountered unknown subkey type" and exits with status 1
    without visiting any child.  An [li] list referenced directly by a key
    is such a record: [li] lists are only walked inside an [ri] record. *)
Theorem unknown_index_is_fatal
        (malloc_ok : Z -> bool) (f : file) (stale : Z -> list Z) (fuel : nat)
        (root lh : list Z) (level : Z) :
  malloc_ok (nk_name_len root + 1) = true ->
  is_leaf root = false ->
  read_LH f stale (convOff (nk_subkeys root)) = lh ->
  (tag_is lh 0 "lh" || tag_is lh 0 "lf" = false /\ tag_is lh 0 "ri" = false)
  \/ tag_is lh 0 "li" = true ->
  printSubTree malloc_ok f stale (S fuel) root level
  = ([KeyLine level (shown_name root);
      PrintText "Fatal: encountered unknown subkey type"],
     Exited ExitUnknownSubkey)
  /\ exit_code ExitUnknownSubkey = 1.
Proof.
  intros Hname Hleaf Hlh Htag. split; [|reflexivity].
  assert (Ht : tag_is lh 0 "lh" || tag_is lh 0 "lf" = false
               /\ tag_is lh 0 "ri" = false).
  { destruct Htag as [H | H]; [exact H | apply tag_li_not_others; exact H]. }
  destruct Ht as [H1 H2].
  cbn [printSubTree]. unfold subtree_body, printNKName.
  rewrite Hname, Hleaf, Hlh, H1, H2. reflexivity.
Qed.

Lemma unknown_index_is_fatal_witness :
  printSubTree Fixtures.generous (Hives.negative_index_hive "li") Fixtures.blank 9
               (Hives.root_key 1) 0
  = ([KeyLine 0 (bytes_of_string "ROOT");
      PrintText "Fatal: encountered unknown subkey type"],
     Exited ExitUnknownSubkey).
Proof.
  apply (unknown_index_is_fatal
           Fixtures.generous (Hives.negative_index_hive "li") Fixtures.blank 8
           (Hives.root_key 1) (bytes_of_string "li" ++ [255; 255]) 0).
  - reflexivity.
  - reflexivity.
  - vm_compute. reflexivity.
  - right. reflexivity.
Defined.

(** X9: inside an [ri] record, an entry that points at anything but an
    [lh]/[lf] or [li] list ends the run with the text "Fatal: encountered
    unknown subentry of ri list" and status 1; in particular an [ri] record
    listed by an [ri] record is not walked. *)
Theorem unknown_subentry_is_fatal
        (malloc_ok : Z -> bool) (f : file) (stale : Z -> list Z)
        (rec : list Z -> Z -> run)
        (level off : Z) (lh2 : list Z) :
  read_LH f stale (convOff off) = lh2 ->
  (tag_is lh2 0 "lh" || tag_is lh2 0 "lf" = false /\ tag_is lh2 0 "li" = false)
  \/ tag_is lh2 0 "ri" = true ->
  ri_entry malloc_ok f stale rec level off
  = ([PrintText "Fatal: encountered unknown subentry of ri list"],
     Exited ExitUnknownSubentry)
  /\ exit_code ExitUnknownSubentry = 1.
Proof.
  intros Hlh Htag. split; [|reflexivity].
  assert (Ht : tag_is lh2 0 "lh" || tag_is lh2 0 "lf" = false
               /\ tag_is lh2 0 "li" = false).
  { destruct Htag as [H | H]; [exact H|].
    split; [apply tag_ri_not_lh; exact H|].
    revert H. unfold tag_is. cbn.
    change (Z.of_nat (Pos.to_nat 114)) with 114.
    change (Z.of_nat (Pos.to_nat 108)) with 108.
    intros H. apply andb_prop in H. destruct H as [H _].
    apply Z.eqb_eq in H. rewrite H. reflexivity. }
  destruct Ht as [H1 H2]. unfold ri_entry. rewrite Hlh, H1, H2. reflexivity.
Qed.

(** The record at relative offset 0x74 of [ri_hive] is the [ri] record
    itself. *)
Lemma unknown_subentry_is_fatal_witness :
  ri_entry Fixtures.generous (Hives.ri_hive 2) Fixtures.blank Hives.print_line 0 0x74
  = ([PrintText "Fatal: encountered unknown subentry of ri list"],
     Exited ExitUnknownSubentry).
Proof.
  apply (unknown_subentry_is_fatal
           Fixtures.generous (Hives.ri_hive 2) Fixtures.blank Hives.print_line 0 0x74
           (bytes_of_string "ri" ++ [2; 0])).
  - vm_compute. reflexivity.
  - right. reflexivity.
Defined.

(** ** Arrays that the file does not hold in full *)

Lemma nread_short (f : file) (pos stride n : Z) :
  0 < n < 2 ^ 15 -> 0 < stride -> flen f < pos + n * stride ->
  (nread f pos stride n <? n) = true.
Proof.
  intros Hn Hs Hlen. apply Z.ltb_lt. unfold nread.
  rewrite (Z.mod_small n) by lia.
  assert (Hitems : Z.max 0 (flen f - pos) / stride < n).
  { apply Z.div_lt_upper_bound; [lia|]. rewrite (Z.mul_comm stride n).
    assert (0 < n * stride) by (apply Z.mul_pos_pos; lia). lia. }
  assert (Hpos : 0 <= Z.max 0 (flen f - pos) / stride).
  { apply Z.div_pos; lia. }
  rewrite Z.min_l by lia.
  rewrite to_signed_small; lia.
Qed.

(** X10: when the file ends before the last of the [n] > 0 entries that a
    directly referenced hash list declares, the walk prints the key's line
    (and the mismatch warning, if the counts differ), then "Unexpected EOF
    while reading file." and exits with status 1; no child is visited, not
    even those whose entries are in the file. *)
Theorem truncated_hash_list_is_fatal
        (malloc_ok : Z -> bool) (f : file) (stale : Z -> list Z) (fuel : nat)
        (root lh : list Z) (level : Z) :
  let pos := convOff (nk_subkeys root) in
  let n := lh_num_entries lh in
  malloc_ok (nk_name_len root + 1) = true ->
  is_leaf root = false ->
  read_LH f stale pos = lh ->
  tag_is lh 0 "lh" || tag_is lh 0 "lf" = true ->
  0 < n ->
  malloc_ok ((n * sizeof_HashRec) mod 2 ^ 64) = true ->
  flen f < pos + sizeof_LH + n * sizeof_HashRec ->
  printSubTree malloc_ok f stale (S fuel) root level
  = (KeyLine level (shown_name root)
       :: (if nk_num_subkeys root =? n then []
           else [PrintWarn (nk_num_subkeys root) n])
       ++ [PrintText "Unexpected EOF while reading file."],
     Exited ExitShortRead)
  /\ exit_code ExitShortRead = 1.
Proof.
  intros pos n Hname Hleaf Hlh Htag Hn Hm Hlen. split; [|reflexivity].
  cbn [printSubTree]. unfold subtree_body, printNKName.
  rewrite Hname, Hleaf. fold pos. rewrite Hlh, Htag. fold n.
  assert (En : (n <? 0) = false) by (apply Z.ltb_ge; lia).
  rewrite En. unfold list_loop. rewrite Hm. cbn [negb].
  rewrite nread_short.
  - destruct (nk_num_subkeys root =? n); reflexivity.
  - pose proof (lh_num_entries_range lh). fold n in H. lia.
  - reflexivity.
  - exact Hlen.
Qed.

(** [tree_hive] cut off in the middle of the second entry of its hash
    list. *)
Lemma truncated_hash_list_is_fatal_witness :
  printSubTree Fixtures.generous (firstn 4230 (Hives.tree_hive 2)) Fixtures.blank 5
               (Hives.root_key 2) 0
  = ([KeyLine 0 (bytes_of_string "ROOT");
      PrintText "Unexpected EOF while reading file."],
     Exited ExitShortRead).
Proof.
  apply (truncated_hash_list_is_fatal
           Fixtures.generous (firstn 4230 (Hives.tree_hive 2)) Fixtures.blank 4
           (Hives.root_key 2) (bytes_of_string "lh" ++ [2; 0]) 0).
  - reflexivity.
  - reflexivity.
  - vm_compute. reflexivity.
  - reflexivity.
  - vm_compute. reflexivity.
  - reflexivity.
  - vm_compute. reflexivity.
Defined.

(** ** Children listed through an [ri] record *)

Lemma then_assoc (a b c : run) : (a ;; b) ;; c = a ;; (b ;; c).
Proof.
  destruct a as [ta sa], b as [tb sb]. unfold then_. cbn [fst snd].
  destruct sa; cbn [fst snd]; try reflexivity.
  destruct sb; cbn [fst snd]; try reflexivity.
  rewrite app_assoc. reflexivity.
Qed.

Lemma for_each_app (body : Z -> run) (l1 l2 : list Z) :
  for_each body (l1 ++ l2) = for_each body l1 ;; for_each body l2.
Proof.
  induction l1 as [|x l1 IH]; cbn [for_each app].
  - rewrite skip_then. reflexivity.
  - rewrite IH, then_assoc. reflexivity.
Qed.

Lemma for_each_flat_map (g body : Z -> run) (h : Z -> list Z) (l : list Z) :
  (forall x, In x l -> g x = for_each body (h x)) ->
  for_each g l = for_each body (flat_map h l).
Proof.
  induction l as [|x l IH]; intros H; cbn [for_each flat_map]; [reflexivity|].
  rewrite for_each_app, H by (left; reflexivity).
  rewrite IH by (intros y Hy; apply H; right; exact Hy). reflexivity.
Qed.

Lemma ri_entry_present (malloc_ok : Z -> bool) (f : file) (stale : Z -> list Z)
      (rec : list Z -> Z -> run) (level off : Z) :
  sublist_present malloc_ok f stale off ->
  ri_entry malloc_ok f stale rec level off
  = for_each (visit malloc_ok f stale ExitChildAlloc rec level) (sublist_offsets f stale off).
Proof.
  intros (lh2 & stride & Hlh & Hkind & Hm & Hp).
  unfold ri_entry, sublist_offsets. rewrite Hlh.
  destruct Hkind as [[Hk ->] | (Hk1 & Hk2 & ->)].
  - rewrite Hk. apply list_loop_present; assumption.
  - rewrite Hk1, Hk2. apply list_loop_present; assumption.
Qed.

(** X11: for a key indexed through an [ri] record whose entries all lead
    to [lh]/[lf] or [li] lists that are present, the walk visits the
    children of all the lists in one sequence, list after list and entry
    after entry; when they are leaves it prints the key's line followed by
    one line for each of them and returns.  The output depends only on the
    concatenation of the lists, not on where one list ends and the next
    begins. *)
Theorem ri_children_in_sequence
        (malloc_ok : Z -> bool) (f : file) (stale : Z -> list Z) (fuel : nat)
        (root lh : list Z) (level : Z) (kids : list (list Z)) :
  let pos := convOff (nk_subkeys root) in
  let n := lh_num_entries lh in
  let lists := entry_offsets f (pos + sizeof_LH) sizeof_uint32 n in
  malloc_ok (nk_name_len root + 1) = true ->
  is_leaf root = false ->
  read_LH f stale pos = lh ->
  tag_is lh 0 "ri" = true ->
  malloc_ok ((n * sizeof_uint32) mod 2 ^ 64) = true ->
  array_present f (pos + sizeof_LH) sizeof_uint32 n ->
  Forall (sublist_present malloc_ok f stale) lists ->
  malloc_ok sizeof_NK = true ->
  Forall2 (fun off kid => read_nk malloc_ok f stale off = Some kid)
          (flat_map (sublist_offsets f stale) lists) kids ->
  Forall (fun kid => is_leaf kid = true
                     /\ malloc_ok (nk_name_len kid + 1) = true) kids ->
  (forall rec,
      subtree_body malloc_ok f stale rec root level
      = emit (KeyLine level (shown_name root)) ;;
        for_each (visit malloc_ok f stale ExitChildAlloc rec level)
                 (flat_map (sublist_offsets f stale) lists))
  /\ printSubTree malloc_ok f stale (S (S fuel)) root level
     = (KeyLine level (shown_name root)
          :: map (fun kid => KeyLine (level + 1) (shown_name kid)) kids,
        Returned).
Proof.
  intros pos n lists Hname Hleaf Hlh Htag Hm Hp Hlists Hnk H2 Hk.
  assert (Hbody : forall rec,
             subtree_body malloc_ok f stale rec root level
             = emit (KeyLine level (shown_name root)) ;;
               for_each (visit malloc_ok f stale ExitChildAlloc rec level)
                        (flat_map (sublist_offsets f stale) lists)).
  { intros rec.
    rewrite (body_ri malloc_ok f stale rec root level lh Hname Hleaf Hlh Htag).
    fold pos n. rewrite (list_loop_present malloc_ok f _ _ _ _ Hm Hp).
    fold lists. f_equal. apply for_each_flat_map. intros off Hoff.
    apply ri_entry_present. rewrite Forall_forall in Hlists.
    apply Hlists. exact Hoff. }
  split; [exact Hbody|].
  cbn [printSubTree]. rewrite Hbody.
  rewrite (leaves_loop malloc_ok f stale _ fuel level _ kids Hnk H2 Hk).
  reflexivity.
Qed.

Lemma ri_children_in_sequence_witness :
  let f := Hives.ri_hive 2 in
  printSubTree Fixtures.generous f Fixtures.blank 2 (Hives.root_key 2) 0
  = ([KeyLine 0 (bytes_of_string "ROOT");
      KeyLine 1 (bytes_of_string "A"); KeyLine 1 (bytes_of_string "Bee")],
     Returned).
Proof.
  intros f.
  pose proof (ri_children_in_sequence
                Fixtures.generous f Fixtures.blank 0 (Hives.root_key 2)
                (bytes_of_string "ri" ++ [2; 0]) 0
                [Hives.key_at f 0xa0; Hives.key_at f 0xf1]) as H.
  cbv zeta in H.
  assert (Hl : entry_offsets f (convOff (nk_subkeys (Hives.root_key 2)) + sizeof_LH)
                             sizeof_uint32
                             (lh_num_entries (bytes_of_string "ri" ++ [2; 0]))
               = [0x84; 0x94]) by (vm_compute; reflexivity).
  rewrite Hl in H.
  destruct H as [_ H].
  - reflexivity.
  - reflexivity.
  - vm_compute. reflexivity.
  - reflexivity.
  - reflexivity.
  - vm_compute. repeat split; discriminate.
  - constructor; [|constructor; [|constructor]].
    + exists (bytes_of_string "lf" ++ [1; 0]), sizeof_HashRec.
      split; [vm_compute; reflexivity|].
      split; [left; split; reflexivity|].
      split; [reflexivity|]. vm_compute. repeat split; discriminate.
    + exists (bytes_of_string "li" ++ [1; 0]), sizeof_uint32.
      split; [vm_compute; reflexivity|].
      split; [right; repeat split; reflexivity|].
      split; [reflexivity|]. vm_compute. repeat split; discriminate.
  - reflexivity.
  - replace (flat_map (sublist_offsets f Fixtures.blank) [0x84; 0x94]) with [0xa0; 0xf1]
      by (vm_compute; reflexivity).
    constructor; [vm_compute; reflexivity|].
    constructor; [vm_compute; reflexivity|]. constructor.
  - constructor; [split; vm_compute; reflexivity|].
    constructor; [split; vm_compute; reflexivity|]. constructor.
  - rewrite H. vm_compute. reflexivity.
Defined.

(** ** The root scan over a sequence of cells *)

Lemma fread_middle (pre x rest : list Z) :
  fread (pre ++ x ++ rest) (Z.of_nat (List.length pre)) (Z.of_nat (List.length x))
  = x.
Proof.
  unfold fread, slice. rewrite !Nat2Z.id.
  rewrite skipn_app, skipn_all, Nat.sub_diag. cbn [app skipn].
  rewrite firstn_app, firstn_all, Nat.sub_diag. cbn [firstn].
  apply app_nil_r.
Qed.

Lemma le_bytes4_value (v : Z) (rest : list Z) :
  i32_at (Fixtures.le_bytes 4 v ++ rest) 0 = to_signed 32 v.
Proof.
  unfold i32_at. cbn [Fixtures.le_bytes app]. rewrite u32_at_four.
  apply to_signed_mod_eq.
  pose proof (Z.div_mod v 256 ltac:(lia)) as H1.
  pose proof (Z.div_mod (v / 256) 256 ltac:(lia)) as H2.
  pose proof (Z.div_mod (v / 256 / 256) 256 ltac:(lia)) as H3.
  pose proof (Z.div_mod (v / 256 / 256 / 256) 256 ltac:(lia)) as H4.
  replace (v mod 256
           + 256 * ((v / 256) mod 256
                    + 256 * ((v / 256 / 256) mod 256
                             + 256 * ((v / 256 / 256 / 256) mod 256))))
    with (v + (- (v / 256 / 256 / 256 / 256)) * 2 ^ 32) by lia.
  apply Z_mod_plus_full.
Qed.

Lemma byte_at_app_l (c junk : list Z) (i : Z) :
  0 <= i < Z.of_nat (List.length c) -> byte_at (c ++ junk) i = byte_at c i.
Proof. intros H. unfold byte_at. apply app_nth1. lia. Qed.

Lemma looks_like_root_app (c junk : list Z) :
  (4 <= List.length c)%nat -> looks_like_root (c ++ junk) = looks_like_root c.
Proof.
  intros H. unfold looks_like_root, tag_is, nk_type, i16_at, u16_at, field.
  cbn [bytes_of_string list_ascii_of_string map List.length seq
       Z.of_nat Pos.of_succ_nat Pos.succ].
  rewrite !(byte_at_app_l c junk) by lia. reflexivity.
Qed.

Section ScanCells.

Variable malloc_ok : Z -> bool.
Variable fresh : nat -> list Z.

(** One turn on an allocated cell that lies in the file, off a page
    boundary. *)
Lemma scan_step_cell (pre c rest bh : list Z) (cs0 : Z) (k : nat) :
  let f := pre ++ Fixtures.cell c ++ rest in
  let pos := Z.of_nat (List.length pre) in
  let len := Z.of_nat (List.length c) in
  pos mod 0x1000 <> 0 ->
  len <= 0x1000 ->
  malloc_ok len = true ->
  scan_step malloc_ok f fresh k (mk_scan pos bh cs0)
  = if looks_like_root (overlay c (fresh k))
    then Found (overlay c (fresh k)) (pos + 4 + len)
    else Continue (mk_scan (pos + 4 + len) bh (- (len + 4))).
Proof.
  intros f pos len Hpage Hlen Hm.
  unfold scan_step, skip_hbin. cbn [sc_pos sc_bh sc_cell_size].
  apply Z.eqb_neq in Hpage. fold pos. rewrite Hpage.
  unfold read_cell_size.
  assert (Hf1 : f = pre ++ Fixtures.le_bytes 4 (- (len + 4)) ++ (c ++ rest)).
  { unfold f, Fixtures.cell, len. rewrite <- !app_assoc. reflexivity. }
  assert (Hr1 : fread f pos 4 = Fixtures.le_bytes 4 (- (len + 4))).
  { rewrite Hf1. apply (fread_middle pre (Fixtures.le_bytes 4 (- (len + 4)))). }
  rewrite Hr1.
  assert (Hcs : i32_at (overlay (Fixtures.le_bytes 4 (- (len + 4)))
                                (bytes_of_u32 cs0)) 0 = - (len + 4)).
  { unfold overlay. rewrite le_bytes4_value. apply to_signed_small; lia. }
  rewrite Hcs.
  change (Z.of_nat (List.length (Fixtures.le_bytes 4 (- (len + 4))))) with 4.
  rewrite cell_size_real_exact by lia.
  replace (- - (len + 4) - 4) with len by lia.
  assert (Hrej : size_rejected len = false).
  { unfold size_rejected. apply orb_false_iff. split.
    - apply Z.ltb_ge. lia.
    - rewrite Z.gtb_ltb. apply Z.ltb_ge. exact Hlen. }
  rewrite Hrej, Hm. cbn [negb].
  assert (Hr2 : fread f (pos + 4) len = c).
  { assert (Hf2 : f = (pre ++ Fixtures.le_bytes 4 (- (len + 4))) ++ c ++ rest).
    { rewrite Hf1, <- app_assoc. reflexivity. }
    rewrite Hf2.
    replace (pos + 4)
      with (Z.of_nat (List.length (pre ++ Fixtures.le_bytes 4 (- (len + 4))))).
    - apply fread_middle.
    - rewrite length_app. unfold pos. cbn [Fixtures.le_bytes List.length]. lia. }
  rewrite Hr2. fold len.
  unfold looks_like_root.
  destruct (tag_is (overlay c (fresh k)) 0 "nk"
            && (nk_type (overlay c (fresh k)) =? NK_ROOT)); reflexivity.
Qed.

Lemma find_root_succ (f : file) (fuel k : nat) (st : scan_state) :
  find_root malloc_ok f fresh (S fuel) k st
  = match scan_step malloc_ok f fresh k st with
    | Continue st' => find_root malloc_ok f fresh fuel (S k) st'
    | r => r
    end.
Proof. reflexivity. Qed.

(** The scan over cells that all lie inside one page: it passes the cells
    that are no root and stops at the first that is one. *)
Lemma find_root_cells (before : list (list Z)) :
  forall (pre root rest bh : list Z) (cs0 : Z) (k : nat),
    let f := pre ++ concat (map Fixtures.cell before)
                 ++ Fixtures.cell root ++ rest in
    let start := Z.of_nat (List.length pre) in
    let total := Z.of_nat (List.length (concat (map Fixtures.cell before)
                                        ++ Fixtures.cell root)) in
    0 < start mod 0x1000 ->
    start mod 0x1000 + total < 0x1000 ->
    Forall (fun c => (4 <= List.length c)%nat
                     /\ looks_like_root c = false
                     /\ malloc_ok (Z.of_nat (List.length c)) = true) before ->
    (4 <= List.length root)%nat ->
    looks_like_root root = true ->
    malloc_ok (Z.of_nat (List.length root)) = true ->
    find_root malloc_ok f fresh (S (List.length before)) k (mk_scan start bh cs0)
    = Found (overlay root (fresh (List.length before + k)%nat)) (start + total).
Proof.
  induction before as [|c before IH];
    intros pre root rest bh cs0 k f start total Hpos Hpage Hbefore Hlen Hroot Hm.
  - cbn [map concat app List.length] in *. cbn [find_root].
    assert (Htot : total = 4 + Z.of_nat (List.length root)).
    { unfold total, Fixtures.cell. rewrite length_app.
      cbn [Fixtures.le_bytes List.length]. lia. }
    unfold f. rewrite scan_step_cell; fold start; try lia; try assumption.
    unfold overlay. rewrite looks_like_root_app, Hroot by exact Hlen.
    cbn [Nat.add]. f_equal. lia.
  - inversion Hbefore as [|? ? (Hc4 & Hcr & Hcm) Hbefore']; subst.
    assert (Hclen : Z.of_nat (List.length (Fixtures.cell c))
                    = 4 + Z.of_nat (List.length c)).
    { unfold Fixtures.cell. rewrite length_app.
      cbn [Fixtures.le_bytes List.length]. lia. }
    assert (Htot : total = 4 + Z.of_nat (List.length c)
                           + Z.of_nat (List.length
                                         (concat (map Fixtures.cell before)
                                          ++ Fixtures.cell root))).
    { unfold total. cbn [map concat]. rewrite <- app_assoc, length_app. lia. }
    assert (Hf : f = pre ++ Fixtures.cell c
                     ++ (concat (map Fixtures.cell before)
                         ++ Fixtures.cell root ++ rest)).
    { unfold f. cbn [map concat]. rewrite <- !app_assoc. reflexivity. }
    change (S (List.length (c :: before))) with (S (S (List.length before))).
    rewrite find_root_succ. rewrite Hf at 1.
    rewrite scan_step_cell; fold start; try lia; try assumption.
    unfold overlay at 1. rewrite looks_like_root_app, Hcr by exact Hc4.
    assert (Hf' : f = (pre ++ Fixtures.cell c)
                      ++ concat (map Fixtures.cell before)
                      ++ Fixtures.cell root ++ rest).
    { rewrite Hf, <- app_assoc. reflexivity. }
    assert (Hstart' : start + 4 + Z.of_nat (List.length c)
                      = Z.of_nat (List.length (pre ++ Fixtures.cell c))).
    { rewrite length_app. unfold start. lia. }
    assert (Hmod : (start + 4 + Z.of_nat (List.length c)) mod 0x1000
                   = start mod 0x1000 + 4 + Z.of_nat (List.length c)).
    { pose proof (Z.div_mod start 0x1000 ltac:(lia)) as Hd.
      symmetry. apply Z.mod_unique with (q := start / 0x1000); lia. }
    rewrite Hf', Hstart'.
    rewrite (IH (pre ++ Fixtures.cell c) root rest bh
                (- (Z.of_nat (List.length c) + 4)) (S k));
      try assumption.
    + f_equal.
      * f_equal. f_equal. cbn [List.length]. lia.
      * rewrite <- Hstart'. lia.
    + rewrite <- Hstart', Hmod. lia.
    + rewrite <- Hstart', Hmod. lia.
Qed.

End ScanCells.

(** The scan of the cells of the first page, from the state in which
    [main] enters the loop. *)
Lemma first_page_scan
        (malloc_ok : Z -> bool) (fresh : nat -> list Z)
        (page block : list Z) (before : list (list Z))
        (root rest bh0 : list Z) :
  let f := page ++ block ++ concat (map Fixtures.cell before)
                ++ Fixtures.cell root ++ rest in
  let total := Z.of_nat (List.length (concat (map Fixtures.cell before)
                                      ++ Fixtures.cell root)) in
  List.length page = 4096%nat ->
  List.length block = 32%nat ->
  0x20 + total < 0x1000 ->
  Forall (fun c => (4 <= List.length c)%nat
                   /\ looks_like_root c = false
                   /\ malloc_ok (Z.of_nat (List.length c)) = true) before ->
  (4 <= List.length root)%nat ->
  looks_like_root root = true ->
  malloc_ok (Z.of_nat (List.length root)) = true ->
  find_root malloc_ok f fresh (S (List.length before)) 0 (scan_start f bh0)
  = Found (overlay root (fresh (List.length before))) (0x1020 + total).
Proof.
  intros f total Hpage Hblock Htotal Hbefore Hlen Hroot Hm.
  assert (Hstart : scan_start f bh0 = mk_scan 0x1020 (overlay block bh0) (-1)).
  { unfold scan_start.
    assert (Hr : fread f 0x1000 sizeof_BlockHeader = block).
    { unfold f.
      change 0x1000 with (Z.of_nat 4096). rewrite <- Hpage.
      change sizeof_BlockHeader with (Z.of_nat 32). rewrite <- Hblock.
      apply fread_middle. }
    rewrite Hr, Hblock. reflexivity. }
  rewrite Hstart.
  assert (Hf : f = (page ++ block) ++ concat (map Fixtures.cell before)
                   ++ Fixtures.cell root ++ rest).
  { unfold f. rewrite <- app_assoc. reflexivity. }
  assert (Hpre : Z.of_nat (List.length (page ++ block)) = 0x1020).
  { rewrite length_app, Hpage, Hblock. reflexivity. }
  rewrite Hf, <- Hpre.
  rewrite (find_root_cells malloc_ok fresh before (page ++ block) root rest
                           (overlay block bh0) (-1) 0);
    try assumption.
  - rewrite Nat.add_0_r. reflexivity.
  - rewrite Hpre. reflexivity.
  - rewrite Hpre. change (0x1020 mod 0x1000) with 0x20. exact Htotal.
Qed.

(** X12: when the first page of cells holds, behind its 32-byte block
    header, a sequence of allocated cells of at least four bytes of which the
    last is the first [nk] record of type [NK_ROOT], and all of them end
    before the page does, the search loop of [main] passes the other cells
    one by one and stops at that record: after as many turns as there are
    cells it has the record in its buffer and the cursor behind it. *)
Theorem scan_finds_first_root
        (malloc_ok : Z -> bool) (fresh : nat -> list Z)
        (page block : list Z) (before : list (list Z))
        (root rest bh0 : list Z) :
  let f := page ++ block ++ concat (map Fixtures.cell before)
                ++ Fixtures.cell root ++ rest in
  let total := Z.of_nat (List.length (concat (map Fixtures.cell before)
                                      ++ Fixtures.cell root)) in
  List.length page = 4096%nat ->
  List.length block = 32%nat ->
  0x20 + total < 0x1000 ->
  Forall (fun c => (4 <= List.length c)%nat
                   /\ looks_like_root c = false
                   /\ malloc_ok (Z.of_nat (List.length c)) = true) before ->
  (4 <= List.length root)%nat ->
  looks_like_root root = true ->
  malloc_ok (Z.of_nat (List.length root)) = true ->
  find_root malloc_ok f fresh (S (List.length before)) 0 (scan_start f bh0)
  = Found (overlay root (fresh (List.length before))) (0x1020 + total).
Proof.
  intros f total. apply first_page_scan.
Qed.

(** Eight zero bytes, then an [nk] record that is no root, then the root. *)
Lemma scan_finds_first_root_witness :
  let f := (Fixtures.example_header ++ Fixtures.zeros 3584) ++ Fixtures.hbin
           ++ concat (map Fixtures.cell [Fixtures.zeros 8; Hives.leaf_A])
           ++ Fixtures.cell (Hives.root_key 0) ++ Fixtures.zeros 16 in
  find_root Fixtures.generous f (fun _ => []) 3 0 (scan_start f [])
  = Found (Hives.root_key 0) 4305.
Proof.
  intros f.
  pose proof (scan_finds_first_root
                Fixtures.generous (fun _ => [])
                (Fixtures.example_header ++ Fixtures.zeros 3584) Fixtures.hbin
                [Fixtures.zeros 8; Hives.leaf_A] (Hives.root_key 0)
                (Fixtures.zeros 16) []) as H.
  cbv zeta in H. fold f in H.
  assert (E : find_root Fixtures.generous f (fun _ => [])
                        (S (List.length [Fixtures.zeros 8; Hives.leaf_A])) 0
                        (scan_start f [])
              = Found (Hives.root_key 0) 4305).
  { rewrite H.
    - vm_compute. reflexivity.
    - reflexivity.
    - reflexivity.
    - vm_compute. reflexivity.
    - constructor; [repeat split; vm_compute; try reflexivity; lia|].
      constructor; [repeat split; vm_compute; try reflexivity; lia|].
      constructor.
    - vm_compute. lia.
    - reflexivity.
    - reflexivity. }
  exact E.
Defined.

(** ** Building a header that passes *)

Lemma lxor_bound (a b n : Z) :
  0 <= n -> 0 <= a < 2 ^ n -> 0 <= b < 2 ^ n -> 0 <= Z.lxor a b < 2 ^ n.
Proof.
  intros Hn Ha Hb.
  assert (Hnn : 0 <= Z.lxor a b) by (apply Z.lxor_nonneg; lia).
  split; [exact Hnn|].
  destruct (Z.eq_dec (Z.lxor a b) 0) as [E | E].
  - rewrite E. apply Z.pow_pos_nonneg; lia.
  - apply Z.log2_lt_pow2; [lia|].
    eapply Z.le_lt_trans; [apply Z.log2_lxor; lia|].
    apply Z.max_lub_lt.
    + destruct (Z.eq_dec a 0) as [-> | Ha0].
      * change (Z.log2 0) with 0.
        destruct (Z.eq_dec n 0) as [-> | Hn0]; [|lia].
        exfalso. change (2 ^ 0) with 1 in *.
        assert (a0 : b = 0) by lia. subst b. apply E. reflexivity.
      * apply Z.log2_lt_pow2; lia.
    + destruct (Z.eq_dec b 0) as [-> | Hb0].
      * change (Z.log2 0) with 0.
        destruct (Z.eq_dec n 0) as [-> | Hn0]; [|lia].
        exfalso. change (2 ^ 0) with 1 in *.
        assert (a0 : a = 0) by lia. subst a. apply E. reflexivity.
      * apply Z.log2_lt_pow2; lia.
Qed.

Lemma xor_words_range (bs : list Z) :
  Forall (fun b => 0 <= b < 256) bs -> 0 <= xor_words bs < 2 ^ 32.
Proof.
  revert bs.
  fix IH 1. intros bs H.
  destruct bs as [|b0 [|b1 [|b2 [|b3 rest]]]]; cbn [xor_words]; try lia.
  inversion H as [|? ? H0 H']; subst.
  inversion H' as [|? ? H1 H'']; subst.
  inversion H'' as [|? ? H2 H''']; subst.
  inversion H''' as [|? ? H3 Hrest]; subst.
  apply lxor_bound; [lia | cbn [le_value]; lia | apply IH; exact Hrest].
Qed.

Lemma le_bytes4_u32 (v : Z) (rest : list Z) :
  u32_at (Fixtures.le_bytes 4 v ++ rest) 0 = v mod 2 ^ 32.
Proof.
  cbn [Fixtures.le_bytes app]. rewrite u32_at_four.
  pose proof (Z.div_mod v 256 ltac:(lia)) as H1.
  pose proof (Z.div_mod (v / 256) 256 ltac:(lia)) as H2.
  pose proof (Z.div_mod (v / 256 / 256) 256 ltac:(lia)) as H3.
  pose proof (Z.div_mod (v / 256 / 256 / 256) 256 ltac:(lia)) as H4.
  pose proof (Z.mod_pos_bound v 256 ltac:(lia)).
  pose proof (Z.mod_pos_bound (v / 256) 256 ltac:(lia)).
  pose proof (Z.mod_pos_bound (v / 256 / 256) 256 ltac:(lia)).
  pose proof (Z.mod_pos_bound (v / 256 / 256 / 256) 256 ltac:(lia)).
  apply Z.mod_unique with (q := v / 256 / 256 / 256 / 256); lia.
Qed.

Lemma byte_at_app_r (pre x : list Z) (i : Z) :
  0 <= i -> byte_at (pre ++ x) (Z.of_nat (List.length pre) + i) = byte_at x i.
Proof.
  intros Hi. unfold byte_at.
  replace (Z.to_nat (Z.of_nat (List.length pre) + i))
    with (List.length pre + Z.to_nat i)%nat by lia.
  rewrite app_nth2_plus. reflexivity.
Qed.

Lemma u32_at_app_r (pre x : list Z) (off : Z) :
  0 <= off ->
  u32_at (pre ++ x) (Z.of_nat (List.length pre) + off) = u32_at x off.
Proof.
  intros Hoff. rewrite !u32_at_bytes.
  rewrite <- !Z.add_assoc, !byte_at_app_r by lia. reflexivity.
Qed.

(** X13: a header is made valid by its checksum alone: for any 508 bytes
    that begin with "regf", appending the XOR of their 127 words as a
    little-endian word gives a header that [validHeader] accepts. *)
Theorem sealed_header_is_valid (front : list Z) :
  List.length front = 508%nat ->
  Forall (fun b => 0 <= b < 256) front ->
  firstn 4 front = bytes_of_string "regf" ->
  validHeader (front ++ Fixtures.le_bytes 4 (xor_words front)) = ([], 1).
Proof.
  intros Hlen Hbytes Hsig.
  set (hdr := front ++ Fixtures.le_bytes 4 (xor_words front)).
  assert (Hl : List.length hdr = 512%nat).
  { unfold hdr. rewrite length_app, Hlen. reflexivity. }
  assert (Htag : tag_is hdr 0 "regf" = true).
  { apply tag_regf_firstn; [lia|].
    unfold hdr. rewrite firstn_app, Hlen. cbn [Nat.sub firstn].
    rewrite app_nil_r. exact Hsig. }
  assert (Hck : header_cksum hdr = xor_words front).
  { rewrite header_cksum_xor_words by exact Hl.
    unfold hdr. rewrite firstn_app.
    rewrite (firstn_all2 front) by lia.
    replace (508 - List.length front)%nat with 0%nat by lia.
    cbn [firstn]. rewrite app_nil_r. reflexivity. }
  assert (Hfield : header_checksum_field hdr = xor_words front).
  { unfold header_checksum_field, hdr.
    change (sizeof_HiveHeader - 4) with (Z.of_nat 508 + 0). rewrite <- Hlen.
    rewrite u32_at_app_r by lia.
    rewrite <- (app_nil_r (Fixtures.le_bytes 4 (xor_words front))).
    rewrite le_bytes4_u32. apply Z.mod_small. apply xor_words_range. exact Hbytes. }
  unfold validHeader. rewrite Htag, Hck, Hfield, Z.eqb_refl. reflexivity.
Qed.

Lemma sealed_header_is_valid_witness :
  validHeader Fixtures.example_header = ([], 1).
Proof.
  apply (sealed_header_is_valid
           (bytes_of_string "regf" ++ Fixtures.le_bytes 4 1
            ++ Fixtures.le_bytes 4 1 ++ Fixtures.zeros 496)).
  - reflexivity.
  - apply Forall_forall. intros b Hb.
    assert (H : forallb (fun b => (0 <=? b) && (b <? 256))
                        (bytes_of_string "regf" ++ Fixtures.le_bytes 4 1
                         ++ Fixtures.le_bytes 4 1 ++ Fixtures.zeros 496) = true)
      by (vm_compute; reflexivity).
    rewrite forallb_forall in H. specialize (H b Hb).
    apply andb_prop in H. destruct H as [H1 H2].
    apply Z.leb_le in H1. apply Z.ltb_lt in H2. lia.
  - reflexivity.
Defined.

(** ** Offsets *)

(** X14: on 32-bit offsets [convOff] is a one-to-one shift by 0x1004 that
    wraps around: below 2^32 - 0x1004 it adds 0x1004, and the 0x1004 largest
    offsets land in front of the first cell, at positions below 0x1004. *)
Theorem convOff_wraps (off : Z) :
  0 <= off < 2 ^ 32 ->
  0 <= convOff off < 2 ^ 32
  /\ (off < 2 ^ 32 - 0x1004 -> convOff off = off + 0x1004)
  /\ (2 ^ 32 - 0x1004 <= off ->
      convOff off = off + 0x1004 - 2 ^ 32 /\ convOff off < 0x1004)
  /\ (forall off', 0 <= off' < 2 ^ 32 -> convOff off' = convOff off -> off' = off).
Proof.
  intros Hoff.
  assert (Hlow : forall o, 0 <= o < 2 ^ 32 - 0x1004 -> convOff o = o + 0x1004).
  { intros o Ho. unfold convOff. rewrite Z.mod_small; lia. }
  assert (Hhigh : forall o, 2 ^ 32 - 0x1004 <= o < 2 ^ 32 ->
                            convOff o = o + 0x1004 - 2 ^ 32).
  { intros o Ho. unfold convOff. symmetry.
    apply Z.mod_unique with (q := 1); lia. }
  split; [unfold convOff; apply Z.mod_pos_bound; lia|].
  split; [intros H; apply Hlow; lia|].
  split; [intros H; rewrite Hhigh by lia; lia|].
  intros off' Hoff' E.
  destruct (Z_lt_le_dec off (2 ^ 32 - 0x1004)) as [H1 | H1];
    destruct (Z_lt_le_dec off' (2 ^ 32 - 0x1004)) as [H2 | H2];
    try rewrite (Hlow off) in E by lia;
    try rewrite (Hlow off') in E by lia;
    try rewrite (Hhigh off) in E by lia;
    try rewrite (Hhigh off') in E by lia; lia.
Qed.

Lemma convOff_wraps_witness :
  convOff 0x20 = 0x1024 /\ convOff 0xFFFFFFFE = 0x1002.
Proof.
  destruct (convOff_wraps 0x20 ltac:(lia)) as (_ & H1 & _).
  destruct (convOff_wraps 0xFFFFFFFE ltac:(lia)) as (_ & _ & H2 & _).
  split; [apply H1; lia | apply H2; lia].
Defined.

(** ** Time stamps *)

Lemma lor_shiftl_add (hi lo : Z) :
  0 <= hi -> 0 <= lo < 2 ^ 32 ->
  Z.lor (Z.shiftl hi 32) lo = hi * 2 ^ 32 + lo.
Proof.
  intros Hhi Hlo.
  assert (Hland : Z.land (Z.shiftl hi 32) lo = 0).
  { apply Z.bits_inj'. intros i Hi. rewrite Z.land_spec, Z.bits_0.
    destruct (Z_lt_le_dec i 32) as [Hlt | Hge].
    - rewrite Z.shiftl_spec_low by lia. reflexivity.
    - rewrite <- (Z.mod_small lo (2 ^ 32)) by lia.
      rewrite Z.mod_pow2_bits_high by lia. apply andb_false_r. }
  rewrite <- Z.lxor_lor by exact Hland.
  rewrite <- Z.add_nocarry_lxor by exact Hland.
  rewrite Z.shiftl_mul_pow2 by lia. reflexivity.
Qed.

Lemma le_bytes8_split (t : Z) :
  Fixtures.le_bytes 8 t
  = Fixtures.le_bytes 4 t ++ Fixtures.le_bytes 4 (t / 256 / 256 / 256 / 256).
Proof. reflexivity. Qed.

(** The tick count stored in little-endian order is the one [printNTTime]
    puts together from the two halves of the [FILETIME]. *)
Lemma filetime_ticks_le (pre rest : list Z) (t : Z) :
  0 <= t < 2 ^ 64 ->
  filetime_ticks (pre ++ Fixtures.le_bytes 8 t ++ rest)
                 (Z.of_nat (List.length pre)) = t.
Proof.
  intros Ht. unfold filetime_ticks.
  rewrite <- (Z.add_0_r (Z.of_nat (List.length pre))) at 2.
  rewrite !u32_at_app_r by lia.
  rewrite le_bytes8_split, <- app_assoc.
  rewrite le_bytes4_u32.
  change 4 with (Z.of_nat (List.length (Fixtures.le_bytes 4 t)) + 0).
  rewrite u32_at_app_r by lia. rewrite le_bytes4_u32.
  assert (Hd : t / 256 / 256 / 256 / 256 = t / 2 ^ 32).
  { rewrite !Z.div_div by lia. reflexivity. }
  rewrite Hd.
  assert (Hq : 0 <= t / 2 ^ 32 < 2 ^ 32).
  { split; [apply Z.div_pos; lia | apply Z.div_lt_upper_bound; lia]. }
  rewrite (Z.mod_small (t / 2 ^ 32)) by exact Hq.
  rewrite lor_shiftl_add; [| lia | apply Z.mod_pos_bound; lia].
  pose proof (Z.div_mod t (2 ^ 32) ltac:(lia)). lia.
Qed.

(** X15: the time stamp that [printNTTime] hands to [ctime] for a
    [FILETIME] holding the tick count of the second [s] after 1970 (any of
    its ten million ticks, stored in little-endian order) is [s], for every
    [s] that fits the 32-bit result. *)
Theorem printNTTime_round_trip (pre rest : list Z) (s r : Z) :
  0 <= s < 2 ^ 32 ->
  0 <= r < WINDOWS_TICK ->
  let ticks := (s + SEC_TO_UNIX_EPOCH) * WINDOWS_TICK + r in
  0 <= ticks < 2 ^ 64
  /\ printNTTime_seconds (pre ++ Fixtures.le_bytes 8 ticks ++ rest)
                         (Z.of_nat (List.length pre)) = s.
Proof.
  intros Hs Hr ticks.
  assert (Ht : 0 <= ticks < 2 ^ 64).
  { unfold ticks, SEC_TO_UNIX_EPOCH, WINDOWS_TICK in *. lia. }
  split; [exact Ht|].
  unfold printNTTime_seconds. rewrite filetime_ticks_le by exact Ht.
  unfold WindowsTickToUnixSeconds.
  assert (Hq : ticks / WINDOWS_TICK = s + SEC_TO_UNIX_EPOCH).
  { unfold ticks. symmetry.
    apply Z.div_unique with (r := r); unfold WINDOWS_TICK in *; lia. }
  rewrite Hq.
  replace (s + SEC_TO_UNIX_EPOCH - SEC_TO_UNIX_EPOCH) with s by lia.
  rewrite (Z.mod_small s (2 ^ 64)) by lia. apply Z.mod_small. exact Hs.
Qed.

(** A [FILETIME] at offset 12 that holds the second tick of the first
    second of the year 2000. *)
Lemma printNTTime_round_trip_witness :
  printNTTime_seconds
    (Fixtures.zeros 12 ++ Fixtures.le_bytes 8 125911584000000001 ++ [])
    12 = 946684800.
Proof.
  destruct (printNTTime_round_trip (Fixtures.zeros 12) [] 946684800 1
                                   ltac:(lia) ltac:(unfold WINDOWS_TICK; lia))
    as [_ H].
  exact H.
Defined.

(** ** Block headers at page boundaries *)

(** X16: at a page boundary where the file holds 32 more bytes, the search
    loop goes on behind them when they begin with "hbin".  When they do not,
    it seeks back to the boundary, but only where the position fits the
    [int32_t] it is kept in: from 2^31 on, the seek fails and the loop goes
    on 32 bytes behind the boundary, inside the cell that starts there. *)
Theorem hbin_skip_at_boundary (pre block rest bh : list Z) :
  let f := pre ++ block ++ rest in
  let pos := Z.of_nat (List.length pre) in
  pos mod 0x1000 = 0 ->
  List.length block = 32%nat ->
  (tag_is block 0 "hbin" = true ->
   skip_hbin f pos bh = (pos + 32, overlay block bh))
  /\ (tag_is block 0 "hbin" = false -> pos < 2 ^ 31 ->
      skip_hbin f pos bh = (pos, overlay block bh))
  /\ (tag_is block 0 "hbin" = false -> 2 ^ 31 <= pos < 2 ^ 32 ->
      skip_hbin f pos bh = (pos + 32, overlay block bh)).
Proof.
  intros f pos Hpage Hblock.
  assert (Hr : fread f pos sizeof_BlockHeader = block).
  { unfold f, pos. change sizeof_BlockHeader with (Z.of_nat 32).
    rewrite <- Hblock. apply fread_middle. }
  assert (Htag : tag_is (overlay block bh) 0 "hbin" = tag_is block 0 "hbin").
  { unfold overlay, tag_is, field.
    cbn [bytes_of_string list_ascii_of_string map List.length seq
         Z.of_nat Pos.of_succ_nat Pos.succ].
    rewrite !(byte_at_app_l block) by lia. reflexivity. }
  unfold skip_hbin. rewrite Hpage, Hr, Htag, Hblock. cbn [Z.eqb].
  change (Z.of_nat 32) with 32.
  split; [|split].
  - intros H. rewrite H. reflexivity.
  - intros H Hpos. rewrite H. cbn [negb].
    rewrite (to_signed_small 32 pos) by (unfold pos in *; lia).
    assert (E : (pos <? 0) = false) by (apply Z.ltb_ge; unfold pos; lia).
    rewrite E. reflexivity.
  - intros H Hpos. rewrite H. cbn [negb].
    assert (E : to_signed 32 pos = pos - 2 ^ 32).
    { unfold to_signed. rewrite Z.mod_small by lia.
      destruct (pos <? 2 ^ (32 - 1)) eqn:El; [apply Z.ltb_lt in El; lia|].
      reflexivity. }
    rewrite E.
    assert (E' : (pos - 2 ^ 32 <? 0) = true) by (apply Z.ltb_lt; lia).
    rewrite E'. reflexivity.
Qed.

Lemma hbin_skip_at_boundary_witness :
  skip_hbin (Hives.tree_hive 2) 0x1000 [] = (0x1020, Fixtures.hbin).
Proof.
  pose proof (hbin_skip_at_boundary
                (Fixtures.example_header ++ Fixtures.zeros 3584) Fixtures.hbin
                (concat (map Fixtures.cell
                             [Hives.root_key 2;
                              Fixtures.mk_hash_list "lh" 2 [0x8c; 0xdd];
                              Hives.leaf_A; Hives.leaf_Bee])
                 ++ Fixtures.zeros 16) []) as H.
  cbv zeta in H.
  destruct H as [H _]; [reflexivity | reflexivity |].
  unfold Hives.tree_hive, Fixtures.hive. rewrite app_assoc.
  exact (H eq_refl).
Defined.

(** ** A hive whose root has no subkeys *)

Lemma field_app_l (c junk : list Z) (off : Z) (n : nat) :
  0 <= off -> off + Z.of_nat n <= Z.of_nat (List.length c) ->
  field (c ++ junk) off n = field c off n.
Proof.
  intros Hoff Hlen. unfold field. apply map_ext_in. intros k Hk.
  apply in_seq in Hk. apply byte_at_app_l. lia.
Qed.

Lemma nk_fields_app (root junk : list Z) :
  (76 <= List.length root)%nat ->
  76 + nk_name_len root <= Z.of_nat (List.length root) ->
  nk_name_len (root ++ junk) = nk_name_len root
  /\ is_leaf (root ++ junk) = is_leaf root
  /\ shown_name (root ++ junk) = shown_name root.
Proof.
  intros H76 Hname.
  assert (Hn : nk_name_len (root ++ junk) = nk_name_len root).
  { unfold nk_name_len, u16_at. rewrite field_app_l by lia. reflexivity. }
  split; [exact Hn|]. split.
  - unfold is_leaf, nk_num_subkeys, nk_subkeys, i32_at, u32_at.
    rewrite !field_app_l by lia. reflexivity.
  - unfold shown_name. rewrite Hn.
    destruct (Z_lt_le_dec (nk_name_len root) 0) as [Hneg | Hpos].
    + replace (Z.to_nat (nk_name_len root)) with 0%nat by lia. reflexivity.
    + rewrite field_app_l by lia. reflexivity.
Qed.

(** X17: for a file whose header passes and whose first page of cells leads,
    past cells that are no root, to a root record without subkeys, [main]
    prints the time stamp of the header and the root's name at depth 0 and
    returns 0, with any budget for the walk. *)
Theorem main_prints_lone_root
        (malloc_ok : Z -> bool) (stale : Z -> list Z) (fresh : nat -> list Z)
        (page block : list Z) (before : list (list Z))
        (root rest hdr0 bh0 : list Z) (walk_fuel : nat) :
  let f := page ++ block ++ concat (map Fixtures.cell before)
                ++ Fixtures.cell root ++ rest in
  let total := Z.of_nat (List.length (concat (map Fixtures.cell before)
                                      ++ Fixtures.cell root)) in
  List.length page = 4096%nat ->
  validHeader (firstn 512 page) = ([], 1) ->
  (List.length hdr0 <= 512)%nat ->
  List.length block = 32%nat ->
  0x20 + total < 0x1000 ->
  Forall (fun c => (4 <= List.length c)%nat
                   /\ looks_like_root c = false
                   /\ malloc_ok (Z.of_nat (List.length c)) = true) before ->
  looks_like_root root = true ->
  (76 <= List.length root)%nat ->
  76 + nk_name_len root <= Z.of_nat (List.length root) ->
  is_leaf root = true ->
  malloc_ok (Z.of_nat (List.length root)) = true ->
  malloc_ok (nk_name_len root + 1) = true ->
  main malloc_ok f stale fresh hdr0 bh0 (S (List.length before)) (S walk_fuel)
  = ([PrintTime (printNTTime_seconds (firstn 512 page) 12);
      KeyLine 0 (shown_name root)],
     Returned).
Proof.
  intros f total Hpage Hvalid Hhdr0 Hblock Htotal Hbefore Hroot H76 Hname
         Hleaf Hm Hmn.
  assert (Hhdr : overlay (fread f 0 sizeof_HiveHeader) hdr0 = firstn 512 page).
  { assert (Hr : fread f 0 sizeof_HiveHeader = firstn 512 page).
    { unfold fread, slice, f.
      change (Z.to_nat 0) with 0%nat. change (Z.to_nat sizeof_HiveHeader) with 512%nat.
      cbn [skipn]. rewrite firstn_app, Hpage.
      change (512 - 4096)%nat with 0%nat. cbn [firstn]. apply app_nil_r. }
    rewrite Hr. unfold overlay.
    rewrite skipn_all2; [apply app_nil_r|].
    rewrite length_firstn, Hpage. cbn [Nat.min]. lia. }
  assert (Hfound := first_page_scan malloc_ok fresh page block before root rest
                                    bh0 Hpage Hblock Htotal Hbefore
                                    ltac:(lia) Hroot Hm).
  cbv zeta in Hfound. fold f in Hfound.
  rewrite (main_walks_root malloc_ok f stale fresh hdr0 bh0 _ _ _ _
                           ltac:(rewrite Hhdr; exact Hvalid) Hfound).
  rewrite Hhdr. unfold overlay.
  destruct (nk_fields_app root (skipn (List.length root)
                                      (fresh (List.length before)))
                          H76 Hname) as (En & El & Es).
  cbn [printSubTree].
  rewrite body_leaf by (rewrite ?En, ?El; assumption).
  rewrite Es. reflexivity.
Qed.

Lemma main_prints_lone_root_witness :
  let f := (Fixtures.example_header ++ Fixtures.zeros 3584) ++ Fixtures.hbin
           ++ concat (map Fixtures.cell [Fixtures.zeros 8; Hives.leaf_A])
           ++ Fixtures.cell (Hives.root_key 0) ++ Fixtures.zeros 16 in
  main Fixtures.generous f Fixtures.blank (fun _ => []) [] []
       (S (List.length [Fixtures.zeros 8; Hives.leaf_A])) 1
  = ([PrintTime 1240428288; KeyLine 0 (bytes_of_string "ROOT")], Returned).
Proof.
  intros f.
  pose proof (main_prints_lone_root
                Fixtures.generous Fixtures.blank (fun _ => [])
                (Fixtures.example_header ++ Fixtures.zeros 3584) Fixtures.hbin
                [Fixtures.zeros 8; Hives.leaf_A] (Hives.root_key 0)
                (Fixtures.zeros 16) [] [] 0) as H.
  cbv zeta in H. fold f in H. rewrite H.
  - vm_compute. reflexivity.
  - reflexivity.
  - vm_compute. reflexivity.
  - cbn [List.length]. lia.
  - reflexivity.
  - vm_compute. reflexivity.
  - constructor; [repeat split; vm_compute; try reflexivity; lia|].
    constructor; [repeat split; vm_compute; try reflexivity; lia|].
    constructor.
  - reflexivity.
  - vm_compute. lia.
  - vm_compute. discriminate.
  - reflexivity.
  - reflexivity.
  - reflexivity.
Defined.

(** ** The walk of a tree that the file holds *)

Section TreeWalk.

Variable malloc_ok : Z -> bool.
Variable f : file.
Variable stale : Z -> list Z.

Lemma holds_unfold (name : list Z) (ts : list key_tree) (nk : list Z) :
  holds malloc_ok f stale (KNode name ts) nk
  <-> name = shown_name nk
      /\ malloc_ok (nk_name_len nk + 1) = true
      /\ malloc_ok sizeof_NK = true
      /\ exists offs,
          index_lists malloc_ok f stale nk offs
          /\ Forall2 (fun t' o => exists kid,
                          read_nk malloc_ok f stale o = Some kid
                          /\ holds malloc_ok f stale t' kid) ts offs.
Proof.
  assert (Heach : forall ts os,
             (fix each (ts : list key_tree) (os : list Z) {struct ts} : Prop :=
                match ts, os with
                | [], [] => True
                | t' :: ts', o :: os' =>
                    (exists kid, read_nk malloc_ok f stale o = Some kid
                                 /\ holds malloc_ok f stale t' kid)
                    /\ each ts' os'
                | _, _ => False
                end) ts os
             <-> Forall2 (fun t' o => exists kid,
                              read_nk malloc_ok f stale o = Some kid
                              /\ holds malloc_ok f stale t' kid) ts os).
  { clear. induction ts as [|t' ts' IH]; intros [|o os'].
    - split; [constructor | intros _; exact I].
    - split; [intros [] | intros H; inversion H].
    - split; [intros [] | intros H; inversion H].
    - split.
      + intros [H1 H2]. constructor; [exact H1 | apply IH; exact H2].
      + intros H. inversion H; subst. split; [assumption | apply IH; assumption]. }
  cbn [holds]. split.
  - intros (H1 & H2 & H3 & offs & H4 & H5).
    repeat split; try assumption. exists offs. split; [exact H4|].
    apply Heach. exact H5.
  - intros (H1 & H2 & H3 & offs & H4 & H5).
    repeat split; try assumption. exists offs. split; [exact H4|].
    apply Heach. exact H5.
Qed.

(** The body of the walk for a key whose index is present: the key's line,
    perhaps a warning, and one loop over the listed offsets. *)
Lemma body_index_lists (nk : list Z) (offs : list Z) :
  malloc_ok (nk_name_len nk + 1) = true ->
  index_lists malloc_ok f stale nk offs ->
  exists site w,
    (w = skip \/ exists a b, w = emit (PrintWarn a b))
    /\ forall rec level,
        subtree_body malloc_ok f stale rec nk level
        = emit (KeyLine level (shown_name nk)) ;; w ;;
          for_each (visit malloc_ok f stale site rec level) offs.
Proof.
  intros Hname [[Hleaf ->] | [Hleaf [lh H]]].
  - exists ExitChildAlloc0, skip. split; [left; reflexivity|].
    intros rec level. rewrite body_leaf by assumption. reflexivity.
  - cbv zeta in H. destruct H as [Hlh [(Htag & Hm & Hp & ->) | (Htag & Hm & Hp & Hl & ->)]].
    + exists ExitChildAlloc0.
      exists (if nk_num_subkeys nk =? lh_num_entries lh then skip
              else emit (PrintWarn (nk_num_subkeys nk) (lh_num_entries lh))).
      split.
      * destruct (nk_num_subkeys nk =? lh_num_entries lh);
          [left; reflexivity | right; eexists; eexists; reflexivity].
      * intros rec level.
        apply (body_hash_list malloc_ok f stale rec nk level lh); assumption.
    + exists ExitChildAlloc, skip. split; [left; reflexivity|].
      intros rec level.
      rewrite (body_ri malloc_ok f stale rec nk level lh Hname Hleaf Hlh Htag).
      rewrite (list_loop_present malloc_ok f _ _ _ _ Hm Hp).
      rewrite skip_then. f_equal.
      apply for_each_flat_map. intros off Hoff.
      apply ri_entry_present. rewrite Forall_forall in Hl. apply Hl. exact Hoff.
Qed.

Lemma key_lines_app (a b : list event) :
  key_lines (a ++ b) = key_lines a ++ key_lines b.
Proof. apply filter_app. Qed.

Lemma children_preorder (site : exit_site) (rec : list Z -> Z -> run)
      (level : Z) (ts : list key_tree) (offs : list Z) :
  malloc_ok sizeof_NK = true ->
  Forall2 (fun t' o => exists kid,
               read_nk malloc_ok f stale o = Some kid
               /\ key_lines (fst (rec kid (level + 1))) = preorder (level + 1) t'
               /\ snd (rec kid (level + 1)) = Returned) ts offs ->
  key_lines (fst (for_each (visit malloc_ok f stale site rec level) offs))
  = flat_map (preorder (level + 1)) ts
  /\ snd (for_each (visit malloc_ok f stale site rec level) offs) = Returned.
Proof.
  intros Hm H. induction H as [|t' o ts' os' (kid & Hr & Hk & Hs) _ IH].
  - split; reflexivity.
  - cbn [for_each flat_map]. rewrite (visit_read malloc_ok f stale _ _ _ _ _ Hm Hr).
    rewrite then_returned by exact Hs. cbn [fst snd].
    destruct IH as [IH1 IH2]. rewrite key_lines_app, Hk, IH1.
    split; [reflexivity | exact IH2].
Qed.

Lemma Forall2_height (P : key_tree -> Z -> Prop) (Q : key_tree -> Z -> Prop)
      (n : nat) (ts : list key_tree) (offs : list Z) :
  (forall t' o, (height t' <= n)%nat -> P t' o -> Q t' o) ->
  (list_max (map height ts) <= n)%nat ->
  Forall2 P ts offs -> Forall2 Q ts offs.
Proof.
  intros HPQ Hmax H. induction H as [|t' o ts' os' Hp _ IH].
  - constructor.
  - change (list_max (map height (t' :: ts')))
      with (Nat.max (height t') (list_max (map height ts'))) in Hmax.
    constructor.
    + apply HPQ; [lia | exact Hp].
    + apply IH. lia.
Qed.

(** The walk of a key at which the file holds a tree prints the tree in
    depth-first pre-order. *)
Lemma walk_preorder (fuel : nat) (t : key_tree) (nk : list Z) (level : Z) :
  holds malloc_ok f stale t nk ->
  (height t <= fuel)%nat ->
  key_lines (fst (printSubTree malloc_ok f stale fuel nk level)) = preorder level t
  /\ snd (printSubTree malloc_ok f stale fuel nk level) = Returned.
Proof.
  intros Hholds Hh. revert t nk level Hh Hholds.
  induction fuel as [|fuel IH]; intros [name ts] nk level Hh Hholds.
  - cbn [height] in Hh. lia.
  - apply holds_unfold in Hholds.
    destruct Hholds as (-> & Hname & Hm & offs & Hidx & Hkids).
    destruct (body_index_lists nk offs Hname Hidx) as (site & w & Hw & Hbody).
    cbn [printSubTree]. rewrite Hbody.
    cbn [height] in Hh.
    destruct (children_preorder site (printSubTree malloc_ok f stale fuel)
                                level ts offs Hm) as [Hk Hs].
    { apply (Forall2_height _ _ fuel ts offs) with (3 := Hkids); [|lia].
      intros t' o Ht' (kid & Hr & Hkid). exists kid. split; [exact Hr|].
      apply IH; assumption. }
    cbn [preorder]. rewrite <- Hk.
    destruct Hw as [-> | (a & b & ->)].
    + rewrite skip_then, emit_then. cbn [fst snd]. split; [reflexivity | exact Hs].
    + rewrite !emit_then. cbn [fst snd]. split; [reflexivity | exact Hs].
Qed.

End TreeWalk.

(** X18: when the file holds a tree of keys, through hash lists, [ri]
    records and [li] lists that are present in it, whatever its shape
    and depth, the walk of its root prints exactly the keys of the tree in
    depth-first pre-order, each indented by its depth, and returns; a
    budget of the height of the tree is enough. *)
Theorem walk_prints_tree
        (malloc_ok : Z -> bool) (f : file) (stale : Z -> list Z) (t : key_tree)
        (nk : list Z) (level : Z) (fuel : nat) :
  holds malloc_ok f stale t nk ->
  (height t <= fuel)%nat ->
  key_lines (fst (printSubTree malloc_ok f stale fuel nk level)) = preorder level t
  /\ snd (printSubTree malloc_ok f stale fuel nk level) = Returned.
Proof. intros Hholds Hh. apply walk_preorder; assumption. Qed.

Lemma deep_hive_holds :
  holds Fixtures.generous Hives.deep_hive Fixtures.blank
        (KNode (bytes_of_string "ROOT")
               [KNode (bytes_of_string "A") [KNode (bytes_of_string "Bee") []]])
        (Hives.root_key 1).
Proof.
  apply holds_unfold.
  split; [vm_compute; reflexivity|]. split; [reflexivity|]. split; [reflexivity|].
  exists [0x84]. split.
  { right. split; [reflexivity|]. exists (bytes_of_string "lh" ++ [1; 0]).
    cbv zeta. split; [vm_compute; reflexivity|]. left.
    split; [reflexivity|]. split; [reflexivity|].
    split; [vm_compute; repeat split; discriminate|]. vm_compute. reflexivity. }
  constructor; [|constructor].
  exists (Hives.key_at Hives.deep_hive 0x84). split; [vm_compute; reflexivity|].
  apply holds_unfold.
  split; [vm_compute; reflexivity|]. split; [reflexivity|]. split; [reflexivity|].
  exists [0xe5]. split.
  { right. split; [vm_compute; reflexivity|].
    exists (bytes_of_string "lf" ++ [1; 0]).
    cbv zeta. split; [vm_compute; reflexivity|]. left.
    split; [reflexivity|]. split; [reflexivity|].
    split; [vm_compute; repeat split; discriminate|]. vm_compute. reflexivity. }
  constructor; [|constructor].
  exists (Hives.key_at Hives.deep_hive 0xe5). split; [vm_compute; reflexivity|].
  apply holds_unfold.
  split; [vm_compute; reflexivity|]. split; [reflexivity|]. split; [reflexivity|].
  exists []. split; [|constructor].
  left. split; [vm_compute; reflexivity | reflexivity].
Defined.

Lemma walk_prints_tree_witness :
  key_lines (fst (printSubTree Fixtures.generous Hives.deep_hive Fixtures.blank 3
                               (Hives.root_key 1) 0))
  = [KeyLine 0 (bytes_of_string "ROOT"); KeyLine 1 (bytes_of_string "A");
     KeyLine 2 (bytes_of_string "Bee")]
  /\ snd (printSubTree Fixtures.generous Hives.deep_hive Fixtures.blank 3
                       (Hives.root_key 1) 0) = Returned.
Proof.
  apply (walk_prints_tree
           Fixtures.generous Hives.deep_hive Fixtures.blank
           (KNode (bytes_of_string "ROOT")
                  [KNode (bytes_of_string "A")
                         [KNode (bytes_of_string "Bee") []]])
           (Hives.root_key 1) 0 3 deep_hive_holds).
  cbn. lia.
Defined.

(** ** Order of the walk, to any depth *)

(** C8: the walk is depth-first and pre-order, and it takes the children
    in stored order.  When the file holds a tree of keys at a key, whatever
    the shape and the depth of the tree, the walk of the key prints the
    line of every key before the lines of the keys below it and the whole
    of a child's subtree before the next child, each line at its depth.
    The line of a key is the first thing its walk prints.  For a directly
    referenced hash list the children are visited by one loop over the
    offsets in the order in which the entries are stored (the [k]-th visit
    uses the offset field of the [k]-th entry; the hash field is not read);
    and a root whose hash list lists [N] leaves yields [N + 1] key lines,
    the root at depth 0 followed by the children at depth 1 in stored
    order. *)
Theorem walk_preorder_stored_order
        (malloc_ok : Z -> bool) (f : file) (stale : Z -> list Z) :
  (forall t nk level fuel,
      holds malloc_ok f stale t nk ->
      (height t <= fuel)%nat ->
      key_lines (fst (printSubTree malloc_ok f stale fuel nk level))
      = preorder level t
      /\ snd (printSubTree malloc_ok f stale fuel nk level) = Returned)
  /\ (forall name ts nk,
         let pos := convOff (nk_subkeys nk) in
         let lh := read_LH f stale pos in
         holds malloc_ok f stale (KNode name ts) nk ->
         is_leaf nk = false ->
         tag_is lh 0 "lh" || tag_is lh 0 "lf" = true ->
         Forall2 (fun t' off =>
                    exists kid, read_nk malloc_ok f stale off = Some kid
                                /\ holds malloc_ok f stale t' kid)
                 ts
                 (entry_offsets f (pos + sizeof_LH) sizeof_HashRec
                                (lh_num_entries lh)))
  /\ (forall rec root level,
         malloc_ok (nk_name_len root + 1) = true ->
         hd_error (fst (subtree_body malloc_ok f stale rec root level))
         = Some (KeyLine level (shown_name root)))
  /\ (forall rec root lh level,
         let pos := convOff (nk_subkeys root) in
         let n := lh_num_entries lh in
         let offs := entry_offsets f (pos + sizeof_LH) sizeof_HashRec n in
         malloc_ok (nk_name_len root + 1) = true ->
         is_leaf root = false ->
         read_LH f stale pos = lh ->
         tag_is lh 0 "lh" || tag_is lh 0 "lf" = true ->
         malloc_ok ((n * sizeof_HashRec) mod 2 ^ 64) = true ->
         array_present f (pos + sizeof_LH) sizeof_HashRec n ->
         key_lines (fst (subtree_body malloc_ok f stale rec root level))
         = KeyLine level (shown_name root)
             :: key_lines (fst (for_each (visit malloc_ok f stale
                                                ExitChildAlloc0 rec level)
                                         offs))
         /\ (forall k, (k < Z.to_nat n)%nat ->
                       nth k offs 0
                       = u32_at f (pos + sizeof_LH + sizeof_HashRec * Z.of_nat k))
         /\ (forall fuel kids,
                rec = printSubTree malloc_ok f stale (S fuel) ->
                malloc_ok sizeof_NK = true ->
                Forall2 (fun off kid =>
                           read_nk malloc_ok f stale off = Some kid)
                        offs kids ->
                Forall (fun kid => is_leaf kid = true
                                   /\ malloc_ok (nk_name_len kid + 1) = true)
                       kids ->
                key_lines (fst (subtree_body malloc_ok f stale rec root level))
                = KeyLine level (shown_name root)
                    :: map (fun kid => KeyLine (level + 1) (shown_name kid)) kids
                /\ snd (subtree_body malloc_ok f stale rec root level) = Returned
                /\ List.length
                     (key_lines
                        (fst (subtree_body malloc_ok f stale rec root level)))
                   = S (Z.to_nat n))).
Proof.
  split; [intros t nk level fuel Hh Hf; apply walk_preorder; assumption|].
  split.
  { intros name ts nk pos lh Hh Hleaf Htag.
    apply holds_unfold in Hh.
    destruct Hh as (_ & _ & _ & offs & Hidx & Hkids).
    destruct Hidx as [[Hl _] | [_ [lh' H]]]; [congruence|].
    cbv zeta in H. fold pos in H. destruct H as [Hlh H]. fold lh in Hlh.
    subst lh'.
    destruct H as [(_ & _ & _ & ->) | (Hri & _)]; [exact Hkids|].
    apply tag_ri_not_lh in Hri. congruence. }
  split; [intros; apply key_line_first; assumption|].
  intros rec root lh level pos n offs Hname Hleaf Hlh Htag Hm Hp.
  pose proof (body_hash_list malloc_ok f stale rec root level lh
                             Hname Hleaf Hlh Htag Hm Hp) as E.
  fold pos n offs in E.
  assert (Ewarn : forall b : run,
             key_lines
               (fst (emit (KeyLine level (shown_name root)) ;;
                     (if nk_num_subkeys root =? n then skip
                      else emit (PrintWarn (nk_num_subkeys root) n)) ;; b))
             = KeyLine level (shown_name root) :: key_lines (fst b)
             /\ snd (emit (KeyLine level (shown_name root)) ;;
                     (if nk_num_subkeys root =? n then skip
                      else emit (PrintWarn (nk_num_subkeys root) n)) ;; b)
                = snd b).
  { intros b. destruct (nk_num_subkeys root =? n).
    - rewrite skip_then, emit_then. split; reflexivity.
    - rewrite !emit_then. split; reflexivity. }
  split; [rewrite E; apply Ewarn|].
  split; [intros k Hk; apply entry_offsets_nth; exact Hk|].
  intros fuel kids -> Hnk H2 Hk.
  rewrite E.
  destruct (Ewarn (for_each (visit malloc_ok f stale ExitChildAlloc0
                                   (printSubTree malloc_ok f stale (S fuel)) level)
                            offs)) as [El Es].
  rewrite El, Es.
  rewrite (leaves_loop malloc_ok f stale _ fuel level offs kids Hnk H2 Hk).
  cbn [fst snd].
  assert (Hkl : key_lines (map (fun kid => KeyLine (level + 1) (shown_name kid)) kids)
                = map (fun kid => KeyLine (level + 1) (shown_name kid)) kids).
  { clear. induction kids as [|kid kids IH]; [reflexivity|].
    cbn [map key_lines filter is_key_line]. unfold key_lines in IH.
    rewrite IH. reflexivity. }
  rewrite Hkl. repeat split.
  cbn [List.length]. rewrite length_map, <- (Forall2_length H2).
  unfold offs. rewrite entry_offsets_length. reflexivity.
Qed.

Lemma branch_hive_holds :
  holds Fixtures.generous Hives.branch_hive Fixtures.blank
        (KNode (bytes_of_string "ROOT")
               [KNode (bytes_of_string "A") [KNode (bytes_of_string "Bee") []];
                KNode (bytes_of_string "C") []])
        (Hives.root_key 2).
Proof.
  apply holds_unfold.
  split; [vm_compute; reflexivity|]. split; [reflexivity|]. split; [reflexivity|].
  exists [0x8c; 0x140]. split.
  { right. split; [reflexivity|]. exists (bytes_of_string "lh" ++ [2; 0]).
    cbv zeta. split; [vm_compute; reflexivity|]. left.
    split; [reflexivity|]. split; [reflexivity|].
    split; [vm_compute; repeat split; discriminate|]. vm_compute. reflexivity. }
  constructor; [|constructor; [|constructor]].
  - exists (Hives.key_at Hives.branch_hive 0x8c).
    split; [vm_compute; reflexivity|].
    apply holds_unfold.
    split; [vm_compute; reflexivity|]. split; [reflexivity|].
    split; [reflexivity|].
    exists [0xed]. split.
    { right. split; [vm_compute; reflexivity|].
      exists (bytes_of_string "lf" ++ [1; 0]).
      cbv zeta. split; [vm_compute; reflexivity|]. left.
      split; [reflexivity|]. split; [reflexivity|].
      split; [vm_compute; repeat split; discriminate|]. vm_compute. reflexivity. }
    constructor; [|constructor].
    exists (Hives.key_at Hives.branch_hive 0xed).
    split; [vm_compute; reflexivity|].
    apply holds_unfold.
    split; [vm_compute; reflexivity|]. split; [reflexivity|].
    split; [reflexivity|].
    exists []. split; [|constructor].
    left. split; [vm_compute; reflexivity | reflexivity].
  - exists (Hives.key_at Hives.branch_hive 0x140).
    split; [vm_compute; reflexivity|].
    apply holds_unfold.
    split; [vm_compute; reflexivity|]. split; [reflexivity|].
    split; [reflexivity|].
    exists []. split; [|constructor].
    left. split; [vm_compute; reflexivity | reflexivity].
Defined.

(** In [branch_hive] the root lists "A" and "C", and "A" lists "Bee": the
    walk prints "Bee" before "C".  The root of [tree_hive 2] lists two
    leaves: three key lines. *)
Lemma walk_preorder_stored_order_witness :
  key_lines (fst (printSubTree Fixtures.generous Hives.branch_hive
                               Fixtures.blank 3 (Hives.root_key 2) 0))
  = [KeyLine 0 (bytes_of_string "ROOT"); KeyLine 1 (bytes_of_string "A");
     KeyLine 2 (bytes_of_string "Bee"); KeyLine 1 (bytes_of_string "C")]
  /\ key_lines (fst (printSubTree Fixtures.generous (Hives.tree_hive 2)
                                  Fixtures.blank 2 (Hives.root_key 2) 0))
     = [KeyLine 0 (bytes_of_string "ROOT");
        KeyLine 1 (bytes_of_string "A"); KeyLine 1 (bytes_of_string "Bee")].
Proof.
  split.
  - destruct (walk_preorder_stored_order
                Fixtures.generous Hives.branch_hive Fixtures.blank) as [H _].
    destruct (H (KNode (bytes_of_string "ROOT")
                       [KNode (bytes_of_string "A")
                              [KNode (bytes_of_string "Bee") []];
                        KNode (bytes_of_string "C") []])
                (Hives.root_key 2) 0 3%nat branch_hive_holds) as [E _].
    + cbn. lia.
    + rewrite E. reflexivity.
  - set (f := Hives.tree_hive 2).
    destruct (walk_preorder_stored_order Fixtures.generous f Fixtures.blank)
      as (_ & _ & _ & H).
    specialize (H (printSubTree Fixtures.generous f Fixtures.blank 1)
                  (Hives.root_key 2) (bytes_of_string "lh" ++ [2; 0]) 0).
    cbv zeta in H.
    destruct H as (_ & _ & H).
    + reflexivity.
    + reflexivity.
    + vm_compute. reflexivity.
    + reflexivity.
    + reflexivity.
    + vm_compute. repeat split; discriminate.
    + destruct (H 0%nat [Hives.key_at f 0x8c; Hives.key_at f 0xdd])
        as (E & _ & _).
      * reflexivity.
      * reflexivity.
      * assert (Ho : entry_offsets f
                       (convOff (nk_subkeys (Hives.root_key 2)) + sizeof_LH)
                       sizeof_HashRec
                       (lh_num_entries (bytes_of_string "lh" ++ [2; 0]))
                     = [0x8c; 0xdd]) by (vm_compute; reflexivity).
        rewrite Ho.
        constructor; [vm_compute; reflexivity|].
        constructor; [vm_compute; reflexivity|]. constructor.
      * constructor; [split; vm_compute; reflexivity|].
        constructor; [split; vm_compute; reflexivity|]. constructor.
      * change (printSubTree Fixtures.generous f Fixtures.blank 2
                             (Hives.root_key 2) 0)
          with (subtree_body Fixtures.generous f Fixtures.blank
                             (printSubTree Fixtures.generous f Fixtures.blank 1)
                             (Hives.root_key 2) 0).
        rewrite E. vm_compute. reflexivity.
Defined.

(** ** What the checksum does not see *)

Lemma fold_xor_permutation (ws ws' : list Z) :
  Permutation ws ws' ->
  forall a, fold_left Z.lxor ws a = fold_left Z.lxor ws' a.
Proof.
  induction 1 as [|w l l' _ IH|x y l|l l' l'' _ IH1 _ IH2]; intros a;
    cbn [fold_left].
  - reflexivity.
  - apply IH.
  - f_equal. rewrite !Z.lxor_assoc, (Z.lxor_comm y x). reflexivity.
  - rewrite IH1. apply IH2.
Qed.

(** X19: the checksum does not depend on the order of the words it covers:
    two headers with the same signature and the same checksum word whose
    words in front of the checksum are a rearrangement of each other get
    the same verdict from [validHeader]. *)
Theorem checksum_ignores_word_order (hdr hdr' : list Z) :
  tag_is hdr' 0 "regf" = tag_is hdr 0 "regf" ->
  header_checksum_field hdr' = header_checksum_field hdr ->
  Permutation (header_words hdr) (header_words hdr') ->
  validHeader hdr' = validHeader hdr.
Proof.
  intros Htag Hfield Hperm. unfold validHeader, header_cksum.
  rewrite Htag, Hfield, (fold_xor_permutation _ _ Hperm). reflexivity.
Qed.

(** The example header with its two update counters set to 1 and 2, and
    with the counters exchanged and the checksum left as it was. *)
Lemma checksum_ignores_word_order_witness :
  let front a b := bytes_of_string "regf" ++ Fixtures.le_bytes 4 a
                   ++ Fixtures.le_bytes 4 b ++ Fixtures.zeros 496 in
  let ck := Fixtures.le_bytes 4 (xor_words (front 1 2)) in
  validHeader (front 2 1 ++ ck) = validHeader (front 1 2 ++ ck)
  /\ validHeader (front 1 2 ++ ck) = ([], 1).
Proof.
  intros front ck. split; [|vm_compute; reflexivity].
  apply (checksum_ignores_word_order (front 1 2 ++ ck) (front 2 1 ++ ck)).
  - reflexivity.
  - vm_compute. reflexivity.
  - replace (header_words (front 1 2 ++ ck))
      with (1718052210 :: 1 :: 2 :: repeat 0 124) by (vm_compute; reflexivity).
    replace (header_words (front 2 1 ++ ck))
      with (1718052210 :: 2 :: 1 :: repeat 0 124) by (vm_compute; reflexivity).
    apply perm_skip. apply perm_swap.
Defined.

(** ** Records cut short by the end of the file *)

Lemma fread_length (f : file) (pos n : Z) :
  List.length (fread f pos n)
  = Nat.min (Z.to_nat n) (List.length f - Z.to_nat pos).
Proof. unfold fread, slice. rewrite length_firstn, length_skipn. reflexivity. Qed.

Lemma fread_byte (f : file) (pos n i : Z) :
  0 <= pos -> 0 <= i < Z.of_nat (List.length (fread f pos n)) ->
  byte_at (fread f pos n) i = byte_at f (pos + i).
Proof.
  intros Hpos Hi. unfold byte_at, fread, slice in *.
  rewrite nth_firstn.
  rewrite length_firstn in Hi.
  destruct (Z.to_nat i <? Z.to_nat n)%nat eqn:E.
  - rewrite nth_skipn. f_equal. lia.
  - apply Nat.ltb_ge in E. lia.
Qed.

Lemma byte_at_firstn (buf : list Z) (n : nat) (i : Z) :
  0 <= i < Z.of_nat n -> byte_at (firstn n buf) i = byte_at buf i.
Proof.
  intros Hi. unfold byte_at. rewrite nth_firstn.
  destruct (Z.to_nat i <? n)%nat eqn:E; [reflexivity|].
  apply Nat.ltb_ge in E. lia.
Qed.

Lemma byte_at_overlay_l (got old : list Z) (i : Z) :
  0 <= i < Z.of_nat (List.length got) ->
  byte_at (overlay got old) i = byte_at got i.
Proof. intros Hi. unfold overlay. apply byte_at_app_l. exact Hi. Qed.

Lemma byte_at_overlay_r (got old : list Z) (i : Z) :
  Z.of_nat (List.length got) <= i ->
  byte_at (overlay got old) i = byte_at old i.
Proof.
  intros Hi. unfold overlay, byte_at.
  rewrite app_nth2 by lia. rewrite nth_skipn. f_equal. lia.
Qed.

(** X20: the walk does not stop at a key record that the end of the file
    cuts short (lines 193-200).  Once the 80-byte buffer is granted, the
    turn of the loop ends without a call for the child in one case only, a
    refused [realloc], after which the null pointer is written through.
    Otherwise the child is walked on a buffer of [full_nk_size] bytes: in
    front the bytes that the file delivered, behind them what the memory
    held. *)
Theorem cut_record_is_walked
        (malloc_ok : Z -> bool) (f : file) (stale : Z -> list Z)
        (site : exit_site) (rec : list Z -> Z -> run) (level off : Z) :
  let pos := convOff off in
  let first := overlay (fread f pos sizeof_NK) (stale pos) in
  let full := sizeof_NK + nk_name_len first - 1 in
  let got := fread f pos full in
  malloc_ok sizeof_NK = true ->
  (malloc_ok full = false ->
   visit malloc_ok f stale site rec level off = stop Crashed)
  /\ (malloc_ok full = true ->
      exists next,
        read_nk malloc_ok f stale off = Some next
        /\ visit malloc_ok f stale site rec level off = rec next (level + 1)
        /\ (forall i, 0 <= i < Z.of_nat (List.length got) ->
                      byte_at next i = byte_at f (pos + i))
        /\ (forall i, Z.of_nat (List.length got) <= i < full ->
                      byte_at next i = byte_at (stale pos) i)).
Proof.
  intros pos first full got Hm.
  assert (Hpos : 0 <= pos).
  { unfold pos, convOff. apply Z.mod_pos_bound. lia. }
  split.
  - intros Hfull. unfold visit, read_nk. rewrite Hm. cbn [negb].
    fold pos first full. rewrite Hfull. reflexivity.
  - intros Hfull.
    exists (firstn (Z.to_nat full) (overlay got first)).
    assert (Hr : read_nk malloc_ok f stale off
                 = Some (firstn (Z.to_nat full) (overlay got first))).
    { unfold read_nk. fold pos first full. rewrite Hfull. reflexivity. }
    split; [exact Hr|]. split.
    { unfold visit. rewrite Hm, Hr. reflexivity. }
    assert (Hlen : (List.length got <= Z.to_nat full)%nat).
    { unfold got. rewrite fread_length. lia. }
    split.
    + intros i Hi.
      rewrite byte_at_firstn by lia.
      rewrite byte_at_overlay_l by exact Hi.
      apply fread_byte; assumption.
    + intros i Hi.
      rewrite byte_at_firstn by lia.
      rewrite byte_at_overlay_r by lia.
      unfold first. apply byte_at_overlay_r.
      unfold got in Hi. rewrite fread_length in *. 
      change (Z.to_nat sizeof_NK) with 80%nat. lia.
Qed.

Lemma cut_record_is_walked_witness :
  let f := Hives.short_tail_hive in
  let st := fun _ : Z => repeat 7 100 in
  List.length (fread f (convOff 0x84) sizeof_NK) = 79%nat
  /\ exists next,
      read_nk Fixtures.generous f st 0x84 = Some next
      /\ byte_at next 78 = 121 /\ byte_at next 79 = 7.
Proof.
  intros f st. split; [vm_compute; reflexivity|].
  destruct (cut_record_is_walked Fixtures.generous f st ExitChildAlloc0
                                 Hives.print_line 0 0x84 eq_refl) as [_ H].
  destruct (H eq_refl) as (next & Hr & _ & Hd & Hs).
  assert (Hl : List.length
                 (fread f (convOff 0x84)
                        (sizeof_NK
                         + nk_name_len (overlay (fread f (convOff 0x84) sizeof_NK)
                                                (st (convOff 0x84))) - 1))
               = 79%nat) by (vm_compute; reflexivity).
  assert (Hfull : sizeof_NK
                  + nk_name_len (overlay (fread f (convOff 0x84) sizeof_NK)
                                         (st (convOff 0x84))) - 1 = 82)
    by (vm_compute; reflexivity).
  rewrite Hl in Hd, Hs. rewrite Hfull in Hs.
  exists next. split; [exact Hr|]. split.
  - rewrite Hd by lia. vm_compute. reflexivity.
  - rewrite Hs by lia. vm_compute. reflexivity.
Defined.

(** In [short_tail_hive] every key that points at the index at 0x74 has
    one child, the key read at 0x84 from the 79 bytes that are left. *)
Lemma short_tail_step (rec : list Z -> Z -> run) (nk : list Z) (level : Z) :
  nk_subkeys nk = 0x74 ->
  nk_num_subkeys nk = 1 ->
  subtree_body Fixtures.generous Hives.short_tail_hive Fixtures.blank rec nk level
  = emit (KeyLine level (shown_name nk)) ;;
    rec (Hives.key_at Hives.short_tail_hive 0x84) (level + 1) ;; skip.
Proof.
  intros Hsub Hnum.
  assert (Hleaf : is_leaf nk = false).
  { unfold is_leaf. rewrite Hsub, Hnum. reflexivity. }
  assert (Hlh : read_LH Hives.short_tail_hive Fixtures.blank
                        (convOff (nk_subkeys nk))
                = bytes_of_string "lh" ++ [1; 0]).
  { rewrite Hsub. vm_compute. reflexivity. }
  rewrite (body_hash_list Fixtures.generous Hives.short_tail_hive Fixtures.blank
                          rec nk level _ eq_refl Hleaf Hlh eq_refl eq_refl).
  - rewrite Hsub, Hnum.
    replace (entry_offsets Hives.short_tail_hive (convOff 0x74 + sizeof_LH)
                           sizeof_HashRec
                           (lh_num_entries (bytes_of_string "lh" ++ [1; 0])))
      with [0x84] by (vm_compute; reflexivity).
    change (1 =? lh_num_entries (bytes_of_string "lh" ++ [1; 0])) with true.
    cbn [for_each]. rewrite skip_then.
    rewrite (visit_read Fixtures.generous Hives.short_tail_hive Fixtures.blank
                        ExitChildAlloc0 rec level 0x84
                        (Hives.key_at Hives.short_tail_hive 0x84) eq_refl);
      [reflexivity | vm_compute; reflexivity].
  - rewrite Hsub. vm_compute. repeat split; discriminate.
Qed.

Lemma short_tail_key_loops (fuel : nat) (nk : list Z) (level : Z) :
  nk_subkeys nk = 0x74 ->
  nk_num_subkeys nk = 1 ->
  snd (printSubTree Fixtures.generous Hives.short_tail_hive Fixtures.blank
                    fuel nk level)
  = OutOfFuel
  /\ List.length
       (key_lines (fst (printSubTree Fixtures.generous Hives.short_tail_hive
                                     Fixtures.blank fuel nk level))) = fuel.
Proof.
  revert nk level. induction fuel as [|fuel IH]; intros nk level Hsub Hnum.
  - split; reflexivity.
  - cbn [printSubTree]. rewrite (short_tail_step _ nk level Hsub Hnum).
    destruct (IH (Hives.key_at Hives.short_tail_hive 0x84) (level + 1))
      as [Hs Hl]; [vm_compute; reflexivity | vm_compute; reflexivity |].
    rewrite emit_then.
    destruct (printSubTree Fixtures.generous Hives.short_tail_hive
                           Fixtures.blank fuel
                           (Hives.key_at Hives.short_tail_hive 0x84) (level + 1))
      as [t s].
    cbn [fst snd] in Hs, Hl. subst s. unfold then_. cbn [fst snd].
    split; [reflexivity|].
    cbn [key_lines filter is_key_line List.length].
    unfold key_lines in Hl. rewrite Hl. reflexivity.
Qed.

(** The walk of [short_tail_hive] does not stop at the key that the end of
    the file cuts short: the key is read from the 79 bytes that are left,
    it leads back to itself, and the walk prints one more line with every
    unit of budget; the chains of children below the root do not end. *)
Lemma short_tail_walk_never_ends :
  List.length (fread Hives.short_tail_hive (convOff 0x84) sizeof_NK) = 79%nat
  /\ (forall fuel,
         List.length
           (key_lines (fst (printSubTree Fixtures.generous Hives.short_tail_hive
                                         Fixtures.blank fuel
                                         (Hives.root_key 1) 0))) = fuel)
  /\ ~ terminates Fixtures.generous Hives.short_tail_hive Fixtures.blank
                  (Hives.root_key 1) 0
  /\ ~ finite_below Fixtures.generous Hives.short_tail_hive Fixtures.blank
                    (Hives.root_key 1).
Proof.
  split; [vm_compute; reflexivity|]. split; [|split].
  - intros fuel.
    apply (short_tail_key_loops fuel (Hives.root_key 1) 0); reflexivity.
  - intros [fuel H]. apply H.
    apply (short_tail_key_loops fuel (Hives.root_key 1) 0); reflexivity.
  - intros Hfin.
    destruct (finite_below_budget _ _ _ _ Hfin) as [n Hn].
    apply (Hn n 0 (Nat.le_refl n)).
    apply (short_tail_key_loops n (Hives.root_key 1) 0); reflexivity.
Qed.
